(** * Proxy health checking and proxy assignment of the proxy-manager service

    A shallow embedding of [services/proxy-manager/health.go] (the
    [HealthService]: sweep, failure tracker, alerting) and of the
    [ProxyService] (registry queries, assignment strategies), together with
    the properties the design document states about them.

    The relational store is modelled by two tables kept as lists of rows in
    heap order; the Redis store by one finite map per key family.  Wall-clock
    time ([time.Now()], SQL [NOW()]) is an explicit argument [now], in Unix
    seconds.  Failures of the infrastructure itself (a lost database or Redis
    connection) are not modelled: every statement is executed.  Where a
    statement carries the values of a request ([UpdateProxy], [CreateProxy]),
    which the database may refuse, its answer is an argument of the call.

    The second part covers the rest of the service: manual tests, creation,
    update and deletion of proxies, release, the usage and health reports,
    pagination, and the status codes of the handlers. *)

From Stdlib Require Import ZArith Lia.
From stdpp Require Import gmap strings list fin_maps sorting pretty.

Open Scope string_scope.
Open Scope Z_scope.

(** ** Shared models (package [models]) *)

Inductive ProxyType := ProxyTypeHTTP | ProxyTypeSOCKS5.

Inductive ProxyStatus := ProxyStatusActive | ProxyStatusInactive | ProxyStatusError.

Global Instance ProxyType_eq_dec : EqDecision ProxyType.
Proof. solve_decision. Defined.

Global Instance ProxyStatus_eq_dec : EqDecision ProxyStatus.
Proof. solve_decision. Defined.

(** The text of the constants of [ProxyType], as the conversion to [string]
    yields it. *)
Definition proxy_type_string (t : ProxyType) : string :=
  match t with
  | ProxyTypeHTTP => "http"
  | ProxyTypeSOCKS5 => "socks5"
  end.

(** A row of table [proxies] (struct [models.Proxy]); times are Unix seconds,
    [LastHealthCheck = None] is SQL NULL. *)
Record Proxy := mkProxy {
  ID : Z;
  Name : string;
  PType : ProxyType;
  Host : string;
  Port : Z;
  Status : ProxyStatus;
  HealthCheckURL : option string;
  LastHealthCheck : option Z;
  HealthCheckSuccess : bool;
  ResponseTimeMs : Z;
  UpdatedAt : Z
}.

(** The columns of table [accounts] the proxy manager reads and writes. *)
Record Account := mkAccount {
  AccountID : Z;
  proxy_id : option Z;
  account_updated_at : Z
}.

Record DB := mkDB {
  proxies : list Proxy;
  accounts : list Account
}.

(** ** SQL fragments *)

(** [UPDATE t SET ... WHERE cond]: every row satisfying [cond] is rewritten in
    place, the others are kept; no matching row is not an error. *)
Definition sql_update {A} (cond : A → bool) (set : A → A) (rows : list A) : list A :=
  (λ r, if cond r then set r else r) <$> rows.

(** [SET status = $1, updated_at = NOW()] *)
Definition set_status (st : ProxyStatus) (now : Z) (p : Proxy) : Proxy :=
  {| ID := ID p; Name := Name p; PType := PType p; Host := Host p; Port := Port p;
     Status := st; HealthCheckURL := HealthCheckURL p;
     LastHealthCheck := LastHealthCheck p;
     HealthCheckSuccess := HealthCheckSuccess p;
     ResponseTimeMs := ResponseTimeMs p; UpdatedAt := now |}.

(** [SET health_check_success = $1, response_time_ms = $2,
        last_health_check = NOW(), updated_at = NOW()] *)
Definition set_health (success : bool) (responseTimeMs now : Z) (p : Proxy) : Proxy :=
  {| ID := ID p; Name := Name p; PType := PType p; Host := Host p; Port := Port p;
     Status := Status p; HealthCheckURL := HealthCheckURL p;
     LastHealthCheck := Some now;
     HealthCheckSuccess := success;
     ResponseTimeMs := responseTimeMs; UpdatedAt := now |}.

(** [SET proxy_id = $1, updated_at = NOW()] *)
Definition set_proxy_id (pid : option Z) (now : Z) (a : Account) : Account :=
  {| AccountID := AccountID a; proxy_id := pid; account_updated_at := now |}.

Definition id_is (id : Z) (p : Proxy) : bool := bool_decide (ID p = id).

Definition with_proxies (f : list Proxy → list Proxy) (d : DB) : DB :=
  {| proxies := f (proxies d); accounts := accounts d |}.

Definition with_accounts (f : list Account → list Account) (d : DB) : DB :=
  {| proxies := proxies d; accounts := f (accounts d) |}.

(** SELECT COUNT(CASE WHEN cond THEN 1 END): the number of rows satisfying
    [cond]. *)
Definition count_rows {A} (P : A → Prop) `{∀ x, Decision (P x)} (rows : list A) : Z :=
  Z.of_nat (length (filter P rows)).

(** [ORDER BY ... LIMIT 1]: the first row of the sorted result, if any.  The
    order among rows with equal sort keys is whatever the sort yields; the
    database promises none, and no property below says which of several
    rows with the least key is returned. *)
Definition order_by_limit1 {A} (R : relation A) `{∀ x y, Decision (R x y)}
    (rows : list A) : option A :=
  head (merge_sort R rows).

(** ** Redis *)

Definition max_int64 : Z := 9223372036854775807.
Definition min_int64 : Z := -9223372036854775808.

(** Go's [int] on a 64-bit platform: arithmetic wraps around. *)
Definition wrap64 (z : Z) : Z := (z - min_int64) mod 2 ^ 64 + min_int64.

(** A key's value with its expiry time, [None] when the key is persistent. *)
Record Entry (A : Type) := mkEntry {
  value : A;
  expire_at : option Z
}.
Arguments mkEntry {A} _ _.
Arguments value {A} _.
Arguments expire_at {A} _.

Section redis_commands.
Context {K : Type} `{Countable K} {A : Type}.

Definition live (now : Z) (e : Entry A) : bool :=
  match expire_at e with
  | None => true
  | Some t => bool_decide (now < t)
  end.

(** What a read at time [now] sees: an expired key is absent. *)
Definition redis_get (now : Z) (k : K) (m : gmap K (Entry A)) : option (Entry A) :=
  match m !! k with
  | Some e => if live now e then Some e else None
  | None => None
  end.

(** EXPIRE key ttl: no effect on an absent key. *)
Definition redis_expire (now : Z) (k : K) (ttl : Z) (m : gmap K (Entry A)) : gmap K (Entry A) :=
  match redis_get now k m with
  | Some e => <[k := mkEntry (value e) (Some (now + ttl))]> m
  | None => m
  end.

(** HMSET key fields: every writer of a hash key writes the same complete
    set of fields, so the stored hash is the one just written; the time to
    live of an existing key is kept. *)
Definition redis_hmset (now : Z) (k : K) (v : A) (m : gmap K (Entry A)) : gmap K (Entry A) :=
  <[k := mkEntry v (redis_get now k m ≫= expire_at)]> m.

(** DEL key *)
Definition redis_del (k : K) (m : gmap K (Entry A)) : gmap K (Entry A) := delete k m.
End redis_commands.

(** INCR key: an absent key counts from 0 and is created persistent; the time
    to live of an existing key is kept; a value of [max_int64] is an error. *)
Definition redis_incr {K} `{Countable K} (now : Z) (k : K) (m : gmap K (Entry Z))
    : option (Z * gmap K (Entry Z)) :=
  match redis_get now k m with
  | Some e =>
      if bool_decide (value e < max_int64)
      then Some (value e + 1, <[k := mkEntry (value e + 1) (expire_at e)]> m)
      else None
  | None => Some (1, <[k := mkEntry 1 None]> m)
  end.

(** The hash stored under [proxy_health:<id>]. *)
Record HealthData := mkHealthData {
  hd_success : bool;
  hd_response_time : Z;
  hd_timestamp : Z;
  hd_error : string
}.

(** The hash stored under [proxy_alert:<id>:<unix time>]. *)
Record AlertData := mkAlertData {
  al_proxy_id : Z;
  al_proxy_name : string;
  al_proxy_host : string;
  al_proxy_port : Z;
  al_failure_count : Z;
  al_timestamp : Z;
  al_type : string
}.

(** The key families of the shared store:
    [proxy_failures:<id>], [proxy_health:<id>], [proxy_alert:<id>:<time>] and
    [proxy_round_robin[:<type>]] (the last under its full key text). *)
Record Redis := mkRedis {
  failures : gmap Z (Entry Z);
  health : gmap Z (Entry HealthData);
  alerts : gmap (Z * Z) (Entry AlertData);
  round_robin : gmap string Z
}.

(** ** The process: stores and log *)

(** The lines written with [log.Printf] that the properties below refer to. *)
Inductive Event :=
  | LogChecking (p : Proxy)
  | LogCheckFailed (p : Proxy) (err : string)
  | LogCheckPassed (p : Proxy) (ms : Z)
  | LogIncrFailed (p : Proxy)
  | LogMarkError (p : Proxy) (failures : Z)
  | LogAlert (p : Proxy) (failures : Z)
  | LogRecovered (p : Proxy)
  | LogCycleStart
  | LogNoActiveProxies
  | LogCycleChecking (n : nat)
  | LogCycleCompleted.

Record World := mkWorld {
  db : DB;
  rdb : Redis;
  logs : list Event
}.

Definition with_db (f : DB → DB) (w : World) : World :=
  {| db := f (db w); rdb := rdb w; logs := logs w |}.

Definition with_rdb (f : Redis → Redis) (w : World) : World :=
  {| db := db w; rdb := f (rdb w); logs := logs w |}.

Definition log_event (e : Event) (w : World) : World :=
  {| db := db w; rdb := rdb w; logs := logs w ++ [e] |}.

Definition with_failures (f : gmap Z (Entry Z) → gmap Z (Entry Z)) (r : Redis) : Redis :=
  {| failures := f (failures r); health := health r; alerts := alerts r;
     round_robin := round_robin r |}.

Definition with_health (f : gmap Z (Entry HealthData) → gmap Z (Entry HealthData))
    (r : Redis) : Redis :=
  {| failures := failures r; health := f (health r); alerts := alerts r;
     round_robin := round_robin r |}.

Definition with_alerts (f : gmap (Z * Z) (Entry AlertData) → gmap (Z * Z) (Entry AlertData))
    (r : Redis) : Redis :=
  {| failures := failures r; health := health r; alerts := f (alerts r);
     round_robin := round_robin r |}.

Definition with_round_robin (f : gmap string Z → gmap string Z) (r : Redis) : Redis :=
  {| failures := failures r; health := health r; alerts := alerts r;
     round_robin := f (round_robin r) |}.

(** ** Configuration (package [utils]) *)

(** The environment, as [GetEnvAsInt] sees it: [Some n] when the variable is
    set, not empty, and [strconv.Atoi] reads it as [n]. *)
Definition Env := string → option Z.

Definition GetEnvAsInt (env : Env) (key : string) (defaultValue : Z) : Z :=
  match env key with
  | Some intValue => intValue
  | None => defaultValue
  end.

Definition default_env : Env := λ _, None.

(** [Paginate]: the offset, the limit and the number of pages.  [page] and
    [pageSize] are Go [int]s and [totalItems] is an [int64]: the arithmetic
    wraps around and the division truncates towards zero. *)
Definition Paginate (page pageSize totalItems : Z) : Z * Z * Z :=
  let page := if bool_decide (page < 1) then 1 else page in
  let pageSize := if bool_decide (pageSize < 1) then 10 else pageSize in
  let pageSize := if bool_decide (100 < pageSize) then 100 else pageSize in
  let offset := wrap64 (wrap64 (page - 1) * pageSize) in
  let limit := pageSize in
  let totalPages := Z.quot (wrap64 (wrap64 (totalItems + pageSize) - 1)) pageSize in
  (offset, limit, totalPages).

(** What one run of [testProxyConnection] gave: its error, if any, and the
    time it took in milliseconds. *)
Record ProbeResult := mkProbeResult {
  probe_err : option string;
  probe_ms : Z
}.

Definition hour : Z := 3600.

(** ** HealthService (health.go) *)

Module HealthService.

(** SELECT ... FROM proxies WHERE status = 'active'
    ORDER BY last_health_check ASC NULLS FIRST *)
Definition last_check_le (p q : Proxy) : Prop :=
  match LastHealthCheck p, LastHealthCheck q with
  | None, _ => True
  | Some _, None => False
  | Some a, Some b => a ≤ b
  end.

Global Instance last_check_le_dec p q : Decision (last_check_le p q).
Proof. unfold last_check_le. destruct (LastHealthCheck p), (LastHealthCheck q); apply _. Defined.

Definition getActiveProxies (d : DB) : list Proxy :=
  merge_sort last_check_le
    (filter (λ p, Status p = ProxyStatusActive) (proxies d)).

(** UPDATE proxies SET status = $1, updated_at = NOW() WHERE id = $2 *)
Definition updateProxyStatus (now : Z) (proxyID : Z) (status : ProxyStatus) (w : World) : World :=
  with_db (with_proxies (sql_update (id_is proxyID) (set_status status now))) w.

Definition updateProxyHealthStatus (now : Z) (proxyID : Z) (success : bool)
    (responseTimeMs : Z) (errorMsg : string) (w : World) : World :=
  let w := with_db (with_proxies
             (sql_update (id_is proxyID) (set_health success responseTimeMs now))) w in
  let healthData := mkHealthData success responseTimeMs now errorMsg in
  let w := with_rdb (with_health (redis_hmset now proxyID healthData)) w in
  with_rdb (with_health (redis_expire now proxyID (24 * hour))) w.

Definition notifyProxyFailure (now : Z) (proxy : Proxy) (failures : Z) (w : World) : World :=
  let w := log_event (LogAlert proxy failures) w in
  let alertKey := (ID proxy, now) in
  let alertData :=
    mkAlertData (ID proxy) (Name proxy) (Host proxy) (Port proxy) failures now
      "proxy_failure" in
  let w := with_rdb (with_alerts (redis_hmset now alertKey alertData)) w in
  with_rdb (with_alerts (redis_expire now alertKey (7 * 24 * hour))) w.

Definition handleProxyFailure (env : Env) (now : Z) (proxy : Proxy) (w : World) : World :=
  let failureKey := ID proxy in
  match redis_incr now failureKey (failures (rdb w)) with
  | None => log_event (LogIncrFailed proxy) w
  | Some (failures, m) =>
      let w := with_rdb (with_failures (λ _, m)) w in
      let w := with_rdb (with_failures (redis_expire now failureKey hour)) w in
      let maxFailures := GetEnvAsInt env "MAX_PROXY_FAILURES" 3 in
      if failures >=? maxFailures then
        let w := log_event (LogMarkError proxy failures) w in
        let w := updateProxyStatus now (ID proxy) ProxyStatusError w in
        let w := with_rdb (with_failures (redis_del failureKey)) w in
        notifyProxyFailure now proxy failures w
      else w
  end.

Definition handleProxySuccess (now : Z) (proxy : Proxy) (w : World) : World :=
  let failureKey := ID proxy in
  let w := with_rdb (with_failures (redis_del failureKey)) w in
  if bool_decide (Status proxy = ProxyStatusError) then
    let w := log_event (LogRecovered proxy) w in
    updateProxyStatus now (ID proxy) ProxyStatusActive w
  else w.

(** [checkProxyHealth], given what the connection test of this proxy
    returned. *)
Definition checkProxyHealth (env : Env) (now : Z) (res : ProbeResult) (proxy : Proxy)
    (w : World) : World :=
  let w := log_event (LogChecking proxy) w in
  let '(success, errorMsg, w) :=
    match probe_err res with
    | Some err => (false, err, log_event (LogCheckFailed proxy err) w)
    | None => (true, "", log_event (LogCheckPassed proxy (probe_ms res)) w)
    end in
  let w := updateProxyHealthStatus now (ID proxy) success (probe_ms res) errorMsg w in
  if negb success then handleProxyFailure env now proxy w
  else handleProxySuccess now proxy w.

(** One sweep.  Every goroutine of the sweep sends to the semaphore before
    it checks its proxy.  The semaphore is a channel with room for
    MAX_CONCURRENT_HEALTH_CHECKS values (10 by default): with room for none
    every goroutine blocks on its send, so that no proxy is checked and the
    sweep never returns, and a negative size makes [make] panic before any
    goroutine is started.  With room for at least one, every goroutine gets
    to check its proxy.  The goroutines work on different proxies, hence on
    different rows and keys; they are run here one after the other, in the
    order of the query's result, which fixes an order among the lines they
    log that the code does not promise. *)
Definition runHealthCheckCycle (env : Env) (now : Z) (probe : Proxy → ProbeResult)
    (w : World) : World :=
  let w := log_event LogCycleStart w in
  let proxies := getActiveProxies (db w) in
  if bool_decide (length proxies = 0%nat) then log_event LogNoActiveProxies w
  else
    let w := log_event (LogCycleChecking (length proxies)) w in
    let maxConcurrent := GetEnvAsInt env "MAX_CONCURRENT_HEALTH_CHECKS" 10 in
    if bool_decide (maxConcurrent < 1) then w
    else
      let w := foldl (λ w p, checkProxyHealth env now (probe p) p w) w proxies in
      log_event LogCycleCompleted w.

(** Whether a sweep started in [w] returns: it does when no proxy is active,
    and otherwise when the semaphore has room. *)
Definition sweep_returns (env : Env) (w : World) : bool :=
  bool_decide (getActiveProxies (db w) = []
               ∨ 1 ≤ GetEnvAsInt env "MAX_CONCURRENT_HEALTH_CHECKS" 10).

(** The scheduler: one sweep at start, then one per tick; each sweep has
    its time and the outcome of each connection test of that sweep.  A sweep
    that does not return is the last one. *)
Fixpoint StartHealthCheckScheduler (env : Env)
    (ticks : list (Z * (Proxy → ProbeResult))) (w : World) : World :=
  match ticks with
  | [] => w
  | t :: ticks =>
      let w' := runHealthCheckCycle env t.1 t.2 w in
      if sweep_returns env w then StartHealthCheckScheduler env ticks w' else w'
  end.

(** The integer entries of the map [GetHealthMetrics] returns; the entries
    [health_rate] and [avg_response_time_ms] are floating point and are left
    out.  The counts are taken over all of [proxies]. *)
Record HealthMetrics := mkHealthMetrics {
  total_proxies : Z;
  active_proxies : Z;
  healthy_proxies : Z;
  error_proxies : Z
}.

Definition GetHealthMetrics (d : DB) : HealthMetrics :=
  {| total_proxies := Z.of_nat (length (proxies d));
     active_proxies := count_rows (λ p, Status p = ProxyStatusActive) (proxies d);
     healthy_proxies :=
       count_rows (λ p, Status p = ProxyStatusActive ∧ HealthCheckSuccess p = true)
         (proxies d);
     error_proxies := count_rows (λ p, Status p = ProxyStatusError) (proxies d) |}.

End HealthService.

(** ** ProxyService *)

(** What a Go function returning [(T, error)] gives; [Panic] is a run-time
    panic (an index out of range). *)
Inductive Result (A : Type) :=
  | Ok (a : A)
  | Err (msg : string)
  | Panic (msg : string).
Arguments Ok {A} _.
Arguments Err {A} _.
Arguments Panic {A} _.

Record ProxyAssignmentRequest := mkProxyAssignmentRequest {
  ReqAccountID : Z;
  ReqProxyID : option Z;
  ReqProxyType : option ProxyType;
  Strategy : string
}.

Record ProxyAssignmentResponse := mkProxyAssignmentResponse {
  RespAccountID : Z;
  RespProxyID : Z;
  ProxyName : string;
  ProxyHost : string;
  ProxyPort : Z;
  AssignedAt : Z
}.

(** [ProxyTestResult]; the response time is kept in milliseconds. *)
Record ProxyTestResult := mkProxyTestResult {
  ResultProxyID : Z;
  ResultSuccess : bool;
  ResultResponseTime : Z;
  ResultError : string;
  ResultTimestamp : Z
}.

(** [ProxyUsageDetail], without [LastUsed] (column [last_activity] of
    [accounts] is not among the modelled columns). *)
Record ProxyUsageDetail := mkProxyUsageDetail {
  UsageProxyID : Z;
  UsageProxyName : string;
  UsageProxyHost : string;
  UsageProxyPort : Z;
  UsageProxyType : string;
  AccountCount : Z
}.

(** [ProxyUsageResponse]; the Go map [UsageByType] is listed in the order of
    the constants of [ProxyType]. *)
Record ProxyUsageResponse := mkProxyUsageResponse {
  TotalProxies : Z;
  ActiveProxies : Z;
  AssignedProxies : Z;
  AvailableProxies : Z;
  UsageByProxy : list ProxyUsageDetail;
  UsageByType : list (ProxyType * Z)
}.

(** [UpdateProxyRequest]: a field is [None] when the request leaves it out. *)
Record UpdateProxyRequest := mkUpdateProxyRequest {
  UpdName : option string;
  UpdHost : option string;
  UpdPort : option Z;
  UpdUsername : option string;
  UpdPassword : option string;
  UpdStatus : option ProxyStatus;
  UpdHealthCheckURL : option string
}.

(** [models.CreateProxyRequest] *)
Record CreateProxyRequest := mkCreateProxyRequest {
  CrName : string;
  CrType : ProxyType;
  CrHost : string;
  CrPort : Z;
  CrUsername : option string;
  CrPassword : option string;
  CrHealthCheckURL : option string
}.

(** What [url.Parse] gives of a URL, as far as [ValidateProxyURL] reads it. *)
Record URL := mkURL {
  Scheme : string;
  URLHost : string
}.

(** [ValidateProxyURL], given the parser: [inl err] is the error of
    [url.Parse]. *)
Definition ValidateProxyURL (parse : string → string + URL) (proxyURL : string)
    : option string :=
  if bool_decide (proxyURL = "") then None
  else
    match parse proxyURL with
    | inl err => Some ("invalid proxy URL format: " +:+ err)
    | inr u =>
        if bool_decide (Scheme u ≠ "http" ∧ Scheme u ≠ "https" ∧ Scheme u ≠ "socks5")
        then Some ("unsupported proxy scheme: " +:+ Scheme u)
        else if bool_decide (URLHost u = "") then Some "proxy URL must include host"
        else None
    end.

(** [ProxyStatsResponse], without [AverageResponseTime] (a floating-point
    number); the two Go maps are listed in the order of the constants. *)
Record ProxyStatsResponse := mkProxyStatsResponse {
  StatsTotalProxies : Z;
  StatsActiveProxies : Z;
  StatsInactiveProxies : Z;
  StatsErrorProxies : Z;
  StatusBreakdown : list (ProxyStatus * Z);
  TypeBreakdown : list (ProxyType * Z);
  StatsHealthyProxies : Z;
  StatsUnhealthyProxies : Z;
  StatsLastHealthCheck : option Z
}.

Module ProxyService.

Definition ErrProxyNotFound : string := "proxy not found".
Definition ErrNoAvailableProxies : string := "no available proxies found".

(** [fmt.Errorf] with a wrapped error: the prefix, then the error's text. *)
Definition wrap_error (prefix msg : string) : string := prefix +:+ ": " +:+ msg.

(** SELECT ... FROM proxies WHERE id = $1 *)
Definition GetProxy (id : Z) (d : DB) : Result Proxy :=
  match head (filter (λ p, ID p = id) (proxies d)) with
  | Some proxy => Ok proxy
  | None => Err ErrProxyNotFound
  end.

(** [AND type = $1], when a type is asked for. *)
Definition type_matches (proxyType : option ProxyType) (p : Proxy) : Prop :=
  match proxyType with
  | Some t => PType p = t
  | None => True
  end.

(** WHERE status = 'active' AND health_check_success = true [AND type = $1] *)
Definition available (proxyType : option ProxyType) (p : Proxy) : Prop :=
  Status p = ProxyStatusActive ∧ HealthCheckSuccess p = true ∧ type_matches proxyType p.

Global Instance type_matches_dec t p : Decision (type_matches t p).
Proof. destruct t; simpl; apply _. Defined.

Global Instance available_dec t p : Decision (available t p).
Proof. unfold available. apply _. Defined.

Definition candidates (proxyType : option ProxyType) (d : DB) : list Proxy :=
  filter (available proxyType) (proxies d).

(** ORDER BY response_time_ms ASC *)
Definition response_time_le (p q : Proxy) : Prop := ResponseTimeMs p ≤ ResponseTimeMs q.

(** LEFT JOIN accounts a ON p.id = a.proxy_id ... GROUP BY p.id, COUNT(a.id):
    the number of accounts that point to the proxy ([id] is the key of
    [proxies], so a group is one row). *)
Definition usage_count (d : DB) (p : Proxy) : Z :=
  Z.of_nat (length (filter (λ a, proxy_id a = Some (ID p)) (accounts d))).

(** ORDER BY COUNT(a.id) ASC, p.response_time_ms ASC *)
Definition least_used_le (d : DB) (p q : Proxy) : Prop :=
  usage_count d p < usage_count d q
  ∨ (usage_count d p = usage_count d q ∧ ResponseTimeMs p ≤ ResponseTimeMs q).

(** COUNT(a.id) * 100 + p.response_time_ms *)
Definition score (d : DB) (p : Proxy) : Z := usage_count d p * 100 + ResponseTimeMs p.

(** ORDER BY (COUNT(a.id) * 100 + p.response_time_ms) ASC *)
Definition score_le (d : DB) (p q : Proxy) : Prop := score d p ≤ score d q.

Global Instance response_time_le_dec p q : Decision (response_time_le p q).
Proof. unfold response_time_le. apply _. Defined.

Global Instance least_used_le_dec d p q : Decision (least_used_le d p q).
Proof. unfold least_used_le. apply _. Defined.

Global Instance score_le_dec d p q : Decision (score_le d p q).
Proof. unfold score_le. apply _. Defined.

Definition GetAvailableProxies (proxyType : option ProxyType) (d : DB) : list Proxy :=
  merge_sort response_time_le (candidates proxyType d).

(** UPDATE proxies SET status = $1, updated_at = NOW() WHERE id = $2 *)
Definition updateProxyStatus (now : Z) (id : Z) (status : ProxyStatus) (w : World) : World :=
  with_db (with_proxies (sql_update (id_is id) (set_status status now))) w.

(** UPDATE proxies SET health_check_success = $1, response_time_ms = $2,
    last_health_check = NOW(), updated_at = NOW() WHERE id = $3 *)
Definition updateProxyHealth (now : Z) (id : Z) (success : bool) (responseTimeMs : Z)
    (w : World) : World :=
  with_db (with_proxies (sql_update (id_is id) (set_health success responseTimeMs now))) w.

(** The row scanned by [QueryRow], or the error for [sql.ErrNoRows]. *)
Definition scan_id (row : option Proxy) : Result Z :=
  match row with
  | Some p => Ok (ID p)
  | None => Err ErrNoAvailableProxies
  end.

Definition selectLeastUsedProxy (proxyType : option ProxyType) (w : World) : Result Z :=
  scan_id (order_by_limit1 (least_used_le (db w)) (candidates proxyType (db w))).

Definition selectFastestProxy (proxyType : option ProxyType) (w : World) : Result Z :=
  scan_id (order_by_limit1 response_time_le (candidates proxyType (db w))).

Definition selectBestProxy (proxyType : option ProxyType) (w : World) : Result Z :=
  scan_id (order_by_limit1 (score_le (db w)) (candidates proxyType (db w))).

Definition round_robin_key (proxyType : option ProxyType) : string :=
  match proxyType with
  | Some t => "proxy_round_robin" +:+ ":" +:+ proxy_type_string t
  | None => "proxy_round_robin"
  end.

(** The key is written by this function only, with a Go [int], so reading
    it as an [int] succeeds; [redis.Nil] (no such key) leaves the index 0.
    Go's [%] truncates towards zero ([Z.rem]), so a negative index makes the
    slice access panic. *)
Definition selectRoundRobinProxy (proxyType : option ProxyType) (w : World)
    : Result Z * World :=
  let key := round_robin_key proxyType in
  let currentIndex := default 0 (round_robin (rdb w) !! key) in
  let proxies := GetAvailableProxies proxyType (db w) in
  let len := Z.of_nat (length proxies) in
  if bool_decide (len = 0) then (Err ErrNoAvailableProxies, w)
  else
    let index := Z.rem currentIndex len in
    match (if bool_decide (0 ≤ index) then proxies !! Z.to_nat index else None) with
    | None => (Panic "index out of range", w)
    | Some selectedProxy =>
        let nextIndex := Z.rem (wrap64 (currentIndex + 1)) len in
        (Ok (ID selectedProxy),
         with_rdb (with_round_robin (insert key nextIndex)) w)
    end.

Definition selectProxyByStrategy (strategy : string) (proxyType : option ProxyType)
    (w : World) : Result Z * World :=
  if bool_decide (strategy = "least_used") then (selectLeastUsedProxy proxyType w, w)
  else if bool_decide (strategy = "fastest") then (selectFastestProxy proxyType w, w)
  else if bool_decide (strategy = "round_robin") then selectRoundRobinProxy proxyType w
  else (selectBestProxy proxyType w, w).

(** UPDATE accounts SET proxy_id = $1, updated_at = NOW() WHERE id = $2,
    then the response. *)
Definition assign_to_account (now : Z) (req : ProxyAssignmentRequest) (proxyID : Z)
    (proxy : Proxy) (w : World) : Result ProxyAssignmentResponse * World :=
  let w := with_db (with_accounts
             (sql_update (λ a, bool_decide (AccountID a = ReqAccountID req))
                         (set_proxy_id (Some proxyID) now))) w in
  (Ok {| RespAccountID := ReqAccountID req; RespProxyID := proxyID;
         ProxyName := Name proxy; ProxyHost := Host proxy; ProxyPort := Port proxy;
         AssignedAt := now |}, w).

Definition AssignProxy (now : Z) (req : ProxyAssignmentRequest) (w : World)
    : Result ProxyAssignmentResponse * World :=
  match ReqProxyID req with
  | Some id =>
      match GetProxy id (db w) with
      | Ok proxy => assign_to_account now req id proxy w
      | Err err => (Err (wrap_error "failed to get specified proxy" err), w)
      | Panic msg => (Panic msg, w)
      end
  | None =>
      let strategy := if bool_decide (Strategy req = "") then "auto" else Strategy req in
      match selectProxyByStrategy strategy (ReqProxyType req) w with
      | (Ok proxyID, w) =>
          match GetProxy proxyID (db w) with
          | Ok proxy => assign_to_account now req proxyID proxy w
          | Err err => (Err (wrap_error "failed to get selected proxy" err), w)
          | Panic msg => (Panic msg, w)
          end
      | (Err err, w) => (Err (wrap_error "failed to select proxy" err), w)
      | (Panic msg, w) => (Panic msg, w)
      end
  end.

(** UPDATE accounts SET proxy_id = NULL, updated_at = NOW() WHERE id = $1 *)
Definition ReleaseProxy (now : Z) (accountID : Z) (w : World) : World :=
  with_db (with_accounts
    (sql_update (λ a, bool_decide (AccountID a = accountID)) (set_proxy_id None now))) w.

(** SELECT EXISTS(SELECT 1 FROM accounts WHERE proxy_id = $1) *)
Definition isProxyInUse (proxyID : Z) (d : DB) : bool :=
  bool_decide (Exists (λ a, proxy_id a = Some proxyID) (accounts d)).

(** DELETE FROM proxies WHERE id = $1.  Column [accounts.proxy_id] refers to
    [proxies(id)] ON DELETE SET NULL, and the update trigger of [accounts]
    sets [updated_at]. *)
Definition sql_delete_proxy (now : Z) (id : Z) (d : DB) : DB :=
  {| proxies := filter (λ p, ID p ≠ id) (proxies d);
     accounts := sql_update (λ a, bool_decide (proxy_id a = Some id))
                   (set_proxy_id None now) (accounts d) |}.

Definition ErrProxyInUse : string := "cannot delete proxy: it is currently in use by accounts".

Definition DeleteProxy (now : Z) (id : Z) (w : World) : Result unit * World :=
  match GetProxy id (db w) with
  | Ok _ =>
      if isProxyInUse id (db w) then (Err ErrProxyInUse, w)
      else (Ok (), with_db (sql_delete_proxy now id) w)
  | Err err => (Err err, w)
  | Panic msg => (Panic msg, w)
  end.

(** [TestProxy], given what the connection test returned: [now] is the time
    of the call, [finished] the time the test has returned at. *)
Definition TestProxy (now finished : Z) (res : ProbeResult) (id : Z) (w : World)
    : Result ProxyTestResult * World :=
  match GetProxy id (db w) with
  | Ok proxy =>
      let result :=
        match probe_err res with
        | Some err =>
            {| ResultProxyID := id; ResultSuccess := false;
               ResultResponseTime := probe_ms res; ResultError := err;
               ResultTimestamp := now |}
        | None =>
            {| ResultProxyID := id; ResultSuccess := true;
               ResultResponseTime := probe_ms res; ResultError := "";
               ResultTimestamp := now |}
        end in
      (Ok result, updateProxyHealth finished id (ResultSuccess result) (probe_ms res) w)
  | Err err => (Err err, w)
  | Panic msg => (Panic msg, w)
  end.

(** id IN (SELECT DISTINCT proxy_id FROM accounts WHERE proxy_id IS NOT NULL) *)
Definition is_assigned (d : DB) (p : Proxy) : Prop :=
  Exists (λ a, proxy_id a = Some (ID p)) (accounts d).

Global Instance is_assigned_dec d p : Decision (is_assigned d p).
Proof. unfold is_assigned. apply _. Defined.

(** SELECT p.id, p.name, p.host, p.port, p.type, COUNT(a.id) ...
    GROUP BY p.id, ... *)
Definition usage_detail (d : DB) (p : Proxy) : ProxyUsageDetail :=
  {| UsageProxyID := ID p; UsageProxyName := Name p; UsageProxyHost := Host p;
     UsageProxyPort := Port p; UsageProxyType := proxy_type_string (PType p);
     AccountCount := usage_count d p |}.

(** ORDER BY account_count DESC *)
Definition account_count_ge (x y : ProxyUsageDetail) : Prop := AccountCount y ≤ AccountCount x.

Global Instance account_count_ge_dec x y : Decision (account_count_ge x y).
Proof. unfold account_count_ge. apply _. Defined.

(** SELECT p.type, COUNT(a.id) FROM proxies p LEFT JOIN accounts a
    ON p.id = a.proxy_id GROUP BY p.type: one row for each type that has
    a proxy, counting the accounts on proxies of the type. *)
Definition usage_of_type (d : DB) (t : ProxyType) : option (ProxyType * Z) :=
  let ps := filter (λ p, PType p = t) (proxies d) in
  if bool_decide (ps = []) then None
  else Some (t, foldr (λ p n, usage_count d p + n) 0 ps).

Definition GetProxyUsage (d : DB) : ProxyUsageResponse :=
  let total := Z.of_nat (length (proxies d)) in
  let active := count_rows (λ p, Status p = ProxyStatusActive) (proxies d) in
  let assigned := count_rows (is_assigned d) (proxies d) in
  {| TotalProxies := total; ActiveProxies := active; AssignedProxies := assigned;
     AvailableProxies := active - assigned;
     UsageByProxy := merge_sort account_count_ge (usage_detail d <$> proxies d);
     UsageByType := omap (usage_of_type d) [ProxyTypeHTTP; ProxyTypeSOCKS5] |}.

(** The entries [UpdateProxy] puts into its map of updates: none. *)
Definition no_updates (req : UpdateProxyRequest) : Prop :=
  UpdName req = None ∧ UpdHost req = None ∧ UpdPort req = None
  ∧ UpdUsername req = None ∧ UpdPassword req = None ∧ UpdStatus req = None
  ∧ UpdHealthCheckURL req = None.

Global Instance no_updates_dec req : Decision (no_updates req).
Proof. unfold no_updates. apply _. Defined.

(** UPDATE proxies SET <the entries of the map>, updated_at = $n: the
    columns the request names take its values ([username] and [password]
    are not among the modelled columns). *)
Definition set_columns (req : UpdateProxyRequest) (now : Z) (p : Proxy) : Proxy :=
  {| ID := ID p; Name := default (Name p) (UpdName req); PType := PType p;
     Host := default (Host p) (UpdHost req); Port := default (Port p) (UpdPort req);
     Status := default (Status p) (UpdStatus req);
     HealthCheckURL :=
       match UpdHealthCheckURL req with
       | Some u => Some u
       | None => HealthCheckURL p
       end;
     LastHealthCheck := LastHealthCheck p;
     HealthCheckSuccess := HealthCheckSuccess p;
     ResponseTimeMs := ResponseTimeMs p; UpdatedAt := now |}.

(** [UpdateProxy].  [rejected] is what the database answers to the UPDATE:
    its error when it refuses the new values (a port outside 1..65535, a
    text longer than its column), [None] when it executes the statement. *)
Definition UpdateProxy (now : Z) (rejected : option string) (id : Z)
    (req : UpdateProxyRequest) (w : World) : Result Proxy * World :=
  match GetProxy id (db w) with
  | Ok proxy =>
      if bool_decide (no_updates req) then (Ok proxy, w)
      else
        match rejected with
        | Some err => (Err (wrap_error "failed to update proxy" err), w)
        | None =>
            let w := with_db (with_proxies (sql_update (id_is id) (set_columns req now))) w in
            (GetProxy id (db w), w)
        end
  | Err err => (Err err, w)
  | Panic msg => (Panic msg, w)
  end.

(** SELECT EXISTS(SELECT 1 FROM proxies WHERE host = $1 AND port = $2) *)
Definition proxyExists (host : string) (port : Z) (d : DB) : bool :=
  bool_decide (Exists (λ p, Host p = host ∧ Port p = port) (proxies d)).

(** The row INSERT INTO proxies (uuid, name, type, host, port, username,
    password, status, health_check_url) makes, the other columns taking
    their defaults. *)
Definition inserted_row (id now : Z) (req : CreateProxyRequest) : Proxy :=
  {| ID := id; Name := CrName req; PType := CrType req; Host := CrHost req;
     Port := CrPort req; Status := ProxyStatusActive;
     HealthCheckURL := CrHealthCheckURL req; LastHealthCheck := None;
     HealthCheckSuccess := true; ResponseTimeMs := 0; UpdatedAt := now |}.

(** The struct [CreateProxy] returns after a failed connection test: the
    status field alone is overwritten. *)
Definition with_status (st : ProxyStatus) (p : Proxy) : Proxy :=
  {| ID := ID p; Name := Name p; PType := PType p; Host := Host p; Port := Port p;
     Status := st; HealthCheckURL := HealthCheckURL p;
     LastHealthCheck := LastHealthCheck p;
     HealthCheckSuccess := HealthCheckSuccess p;
     ResponseTimeMs := ResponseTimeMs p; UpdatedAt := UpdatedAt p |}.

Definition proxy_url (req : CreateProxyRequest) : string :=
  proxy_type_string (CrType req) +:+ "://" +:+ CrHost req +:+ ":" +:+ pretty (CrPort req).

Definition ErrProxyExists (req : CreateProxyRequest) : string :=
  "proxy with host " +:+ CrHost req +:+ " and port " +:+ pretty (CrPort req)
  +:+ " already exists".

(** [CreateProxy].  [parse] is [url.Parse]; [inserted] is what the database
    answers to the INSERT: the id its sequence gave the new row, or its
    error when it refuses the row (a key that exists, a port outside
    1..65535, a text longer than its column); [res] is what the connection
    test of the new proxy gave, [finished] the time it returned at. *)
Definition CreateProxy (now finished : Z) (parse : string → string + URL)
    (inserted : Z + string) (res : ProbeResult) (req : CreateProxyRequest) (w : World)
    : Result Proxy * World :=
  match ValidateProxyURL parse (proxy_url req) with
  | Some err => (Err (wrap_error "invalid proxy configuration" err), w)
  | None =>
      if proxyExists (CrHost req) (CrPort req) (db w) then (Err (ErrProxyExists req), w)
      else
        match inserted with
        | inr err => (Err (wrap_error "failed to create proxy" err), w)
        | inl id =>
            let proxy := inserted_row id now req in
            let w := with_db (with_proxies (λ rows, (rows ++ [proxy])%list)) w in
            match probe_err res with
            | Some _ =>
                (Ok (with_status ProxyStatusError proxy),
                 updateProxyStatus finished id ProxyStatusError w)
            | None => (Ok proxy, w)
            end
        end
  end.

(** SELECT key, COUNT of the rows FROM proxies GROUP BY key: a row for each
    value of the key that some proxy has. *)
Definition group_count {K} `{EqDecision K} (key : Proxy → K) (keys : list K)
    (rows : list Proxy) : list (K * Z) :=
  omap (λ k, let n := count_rows (λ p, key p = k) rows in
             if bool_decide (n = 0) then None else Some (k, n)) keys.

(** MAX(last_health_check): NULL when no row has a value. *)
Definition max_last_check (rows : list Proxy) : option Z :=
  foldr (λ p m, match LastHealthCheck p, m with
                | Some a, Some b => Some (Z.max a b)
                | Some a, None => Some a
                | None, m => m
                end) None rows.

Definition double_quote : string := String (Ascii.ascii_of_nat 34) EmptyString.

(** The error of [Scan] for a NULL in a column read into a [float64]: the
    average of no rows is NULL. *)
Definition ErrNullAverage : string :=
  "failed to get health statistics: sql: Scan error on column index 2, name "
  +:+ double_quote +:+ "avg_response_time" +:+ double_quote
  +:+ ": converting NULL to float64 is unsupported".

(** [GetProxyStats]: the loop over the status rows adds the counts up and
    keeps the count of each status; the health statistics are taken over
    the active proxies. *)
Definition GetProxyStats (d : DB) : Result ProxyStatsResponse :=
  let statusRows :=
    group_count Status [ProxyStatusActive; ProxyStatusInactive; ProxyStatusError]
      (proxies d) in
  let count_of st :=
    foldl (λ n row, if bool_decide (row.1 = st) then row.2 else n) 0 statusRows in
  let typeRows := group_count PType [ProxyTypeHTTP; ProxyTypeSOCKS5] (proxies d) in
  let active := filter (λ p, Status p = ProxyStatusActive) (proxies d) in
  if bool_decide (active = []) then Err ErrNullAverage
  else
    Ok {| StatsTotalProxies := foldl (λ n row, wrap64 (n + row.2)) 0 statusRows;
          StatsActiveProxies := count_of ProxyStatusActive;
          StatsInactiveProxies := count_of ProxyStatusInactive;
          StatsErrorProxies := count_of ProxyStatusError;
          StatusBreakdown := statusRows;
          TypeBreakdown := typeRows;
          StatsHealthyProxies := count_rows (λ p, HealthCheckSuccess p = true) active;
          StatsUnhealthyProxies := count_rows (λ p, HealthCheckSuccess p = false) active;
          StatsLastHealthCheck := max_last_check active |}.

End ProxyService.

(** ** ProxyHandler (handler.go) *)

(** The handlers, as far as the status code of the answer goes.  [id] is
    what [strconv.Atoi] made of the path parameter and [req] what
    [ShouldBindJSON] made of the body, [None] for an error; a panic is
    answered by the recovery middleware. *)
Module ProxyHandler.

Definition StatusOK : Z := 200.
Definition StatusNoContent : Z := 204.
Definition StatusBadRequest : Z := 400.
Definition StatusNotFound : Z := 404.
Definition StatusInternalServerError : Z := 500.

Definition GetProxy (id : option Z) (w : World) : Z :=
  match id with
  | None => StatusBadRequest
  | Some id =>
      match ProxyService.GetProxy id (db w) with
      | Ok _ => StatusOK
      | Err err =>
          if bool_decide (err = "proxy not found") then StatusNotFound
          else StatusInternalServerError
      | Panic _ => StatusInternalServerError
      end
  end.

Definition UpdateProxy (now : Z) (rejected : option string) (id : option Z)
    (req : option UpdateProxyRequest) (w : World) : Z * World :=
  match id with
  | None => (StatusBadRequest, w)
  | Some id =>
      match req with
      | None => (StatusBadRequest, w)
      | Some req =>
          match ProxyService.UpdateProxy now rejected id req w with
          | (Ok _, w) => (StatusOK, w)
          | (Err err, w) =>
              (if bool_decide (err = "proxy not found") then StatusNotFound
               else StatusInternalServerError, w)
          | (Panic _, w) => (StatusInternalServerError, w)
          end
      end
  end.

Definition DeleteProxy (now : Z) (id : option Z) (w : World) : Z * World :=
  match id with
  | None => (StatusBadRequest, w)
  | Some id =>
      match ProxyService.DeleteProxy now id w with
      | (Ok _, w) => (StatusNoContent, w)
      | (Err err, w) =>
          (if bool_decide (err = "proxy not found") then StatusNotFound
           else StatusInternalServerError, w)
      | (Panic _, w) => (StatusInternalServerError, w)
      end
  end.

Definition TestProxy (now finished : Z) (res : ProbeResult) (id : option Z) (w : World)
    : Z * World :=
  match id with
  | None => (StatusBadRequest, w)
  | Some id =>
      match ProxyService.TestProxy now finished res id w with
      | (Ok _, w) => (StatusOK, w)
      | (_, w) => (StatusInternalServerError, w)
      end
  end.


Definition AssignProxy (now : Z) (req : option ProxyAssignmentRequest) (w : World)
    : Z * World :=
  match req with
  | None => (StatusBadRequest, w)
  | Some req =>
      match ProxyService.AssignProxy now req w with
      | (Ok _, w) => (StatusOK, w)
      | (_, w) => (StatusInternalServerError, w)
      end
  end.

Definition GetProxyStats (w : World) : Z :=
  match ProxyService.GetProxyStats (db w) with
  | Ok _ => StatusOK
  | _ => StatusInternalServerError
  end.

End ProxyHandler.

Import HealthService.
Import ProxyService.

(** ** Observations the properties are stated with *)


(** The alerts in a log, and the proxies a log says were probed. *)
Definition alert_of (e : Event) : option (Proxy * Z) :=
  match e with
  | LogAlert p n => Some (p, n)
  | _ => None
  end.

Definition alerts_logged (l : list Event) : list (Proxy * Z) := omap alert_of l.

Definition probed_of (e : Event) : option Z :=
  match e with
  | LogChecking p => Some (ID p)
  | _ => None
  end.

Definition probed_ids (l : list Event) : list Z := omap probed_of l.

Definition probe_time (x : Z * ProbeResult * Proxy) : Z := x.1.1.

(** A run of health checks, as the sweeps make them one after the other: for
    each, its time, what the connection test gave, and the row the sweep had
    read. *)
Definition run_probes (env : Env) (probes : list (Z * ProbeResult * Proxy)) (w : World) : World :=
  foldl (λ w x, HealthService.checkProxyHealth env x.1.1 x.1.2 x.2 w) w probes.

(** Each time is less than an hour after the one before. *)
Fixpoint spaced (ts : list Z) : Prop :=
  match ts with
  | t :: ((t' :: _) as rest) => t ≤ t' < t + hour ∧ spaced rest
  | _ => True
  end.

(** The state of the failure counter of proxy [id]: absent ([c = 0]), or
    holding [c] with a time to live that ends after [now]. *)
Definition counter_is (id : Z) (c : Z) (now : Z) (w : World) : Prop :=
  (c = 0 ∧ redis_get now id (failures (rdb w)) = None)
  ∨ (0 < c ∧ ∃ t, failures (rdb w) !! id = Some (mkEntry c (Some t)) ∧ now < t).

(** Rows of proxy [id] all have status [st]. *)
Definition status_is (id : Z) (st : ProxyStatus) (d : DB) : Prop :=
  ∀ r, r ∈ proxies d → ID r = id → Status r = st.

(** The accounts table after [UPDATE accounts SET proxy_id = id WHERE id = acc]. *)
Definition accounts_assigned (now acc id : Z) (rows : list Account) : list Account :=
  sql_update (λ a, bool_decide (AccountID a = acc)) (set_proxy_id (Some id) now) rows.


(** A sequence of assignment calls, each with the time it is made at. *)
Fixpoint assign_all (calls : list (Z * ProxyAssignmentRequest)) (w : World)
    : list (Result ProxyAssignmentResponse) * World :=
  match calls with
  | [] => ([], w)
  | call :: calls =>
      let '(r, w) := AssignProxy call.1 call.2 w in
      let '(rs, w) := assign_all calls w in
      (r :: rs, w)
  end.

(** The proxy a call assigned, if it succeeded. *)
Definition assigned_proxy (r : Result ProxyAssignmentResponse) : option Z :=
  match r with
  | Ok resp => Some (RespProxyID resp)
  | _ => None
  end.

(** A call without explicit proxy, under the round-robin strategy, for type
    filter [t]. *)
Definition round_robin_call (t : option ProxyType) (call : Z * ProxyAssignmentRequest) : Prop :=
  ReqProxyID call.2 = None ∧ Strategy call.2 = "round_robin" ∧ ReqProxyType call.2 = t.

(** The round-robin index a selection starts from: 0 without key. *)
Definition cursor (t : option ProxyType) (w : World) : Z :=
  default 0 (round_robin (rdb w) !! round_robin_key t).

(** The alerts of proxy [id] in a log, and the probes of proxy [id] in a run. *)
Definition alerts_for (id : Z) (l : list Event) : list (Proxy * Z) :=
  filter (λ a, ID a.1 = id) (alerts_logged l).

Definition own_probes (id : Z) (probes : list (Z * ProbeResult * Proxy))
    : list (Z * ProbeResult * Proxy) :=
  filter (λ x, ID x.2 = id) probes.

(** What the tracker keeps for proxy [id] is the same in [w] and [w']. *)
Definition same_for (id : Z) (w w' : World) : Prop :=
  failures (rdb w') !! id = failures (rdb w) !! id
  ∧ (∀ t, alerts (rdb w') !! (id, t) = alerts (rdb w) !! (id, t))
  ∧ alerts_for id (logs w') = alerts_for id (logs w)
  ∧ (∀ r, r ∈ proxies (db w') → ID r = id → r ∈ proxies (db w))
  ∧ ID <$> proxies (db w') = ID <$> proxies (db w).

(** Every proxy an account points to is a row of [proxies]: the foreign key
    of [accounts.proxy_id]. *)
Definition refs_ok (d : DB) : Prop :=
  ∀ a id, a ∈ accounts d → proxy_id a = Some id → id ∈ ID <$> proxies d.

(** The sum of the account counts of a usage listing, and of the counts by
    type. *)
Definition total_accounts (l : list ProxyUsageDetail) : Z :=
  foldr (λ x n, AccountCount x + n) 0 l.

Definition total_by_type (l : list (ProxyType * Z)) : Z :=
  foldr (λ x n, x.2 + n) 0 l.

(** The calls of the service and the sweeps of the scheduler, each with what
    the world outside contributes to it. *)
Inductive Call :=
  | CallSweep (env : Env) (now : Z) (probe : Proxy → ProbeResult)
  | CallTest (now finished : Z) (res : ProbeResult) (id : Z)
  | CallAssign (now : Z) (req : ProxyAssignmentRequest)
  | CallRelease (now : Z) (accountID : Z)
  | CallDelete (now : Z) (id : Z)
  | CallUpdate (now : Z) (rejected : option string) (id : Z) (req : UpdateProxyRequest)
  | CallCreate (now finished : Z) (parse : string → string + URL) (inserted : Z + string)
      (res : ProbeResult) (req : CreateProxyRequest).

Definition run_call (c : Call) (w : World) : World :=
  match c with
  | CallSweep env now probe => runHealthCheckCycle env now probe w
  | CallTest now finished res id => (TestProxy now finished res id w).2
  | CallAssign now req => (AssignProxy now req w).2
  | CallRelease now accountID => ReleaseProxy now accountID w
  | CallDelete now id => (DeleteProxy now id w).2
  | CallUpdate now rejected id req => (UpdateProxy now rejected id req w).2
  | CallCreate now finished parse inserted res req =>
      (CreateProxy now finished parse inserted res req w).2
  end.

Definition run_calls (calls : list Call) (w : World) : World :=
  foldl (λ w c, run_call c w) w calls.

(** The key the database gives a new row is not in the table. *)
Definition fresh_key (c : Call) (w : World) : Prop :=
  match c with
  | CallCreate _ _ _ (inl id) _ _ => id ∉ ID <$> proxies (db w)
  | _ => True
  end.

Fixpoint fresh_keys (calls : list Call) (w : World) : Prop :=
  match calls with
  | [] => True
  | c :: calls => fresh_key c w ∧ fresh_keys calls (run_call c w)
  end.

(** Every round-robin cursor in Redis is a Go [int] that is not negative
    and below the largest. *)
Definition cursors_ok (w : World) : Prop :=
  ∀ key c, round_robin (rdb w) !! key = Some c → 0 ≤ c < max_int64.

Definition is_panic {A} (r : Result A) : Prop :=
  match r with
  | Panic _ => True
  | _ => False
  end.

(** ** Example registries *)

Definition sample_proxy (id : Z) (st : ProxyStatus) (ok : bool) (ms : Z) : Proxy :=
  {| ID := id; Name := "proxy"; PType := ProxyTypeHTTP; Host := "proxy.example.com";
     Port := 8080; Status := st; HealthCheckURL := None; LastHealthCheck := None;
     HealthCheckSuccess := ok; ResponseTimeMs := ms; UpdatedAt := 0 |}.

Definition empty_redis : Redis :=
  {| failures := ∅; health := ∅; alerts := ∅; round_robin := ∅ |}.

Definition world_of (ps : list Proxy) (acs : list Account) : World :=
  {| db := {| proxies := ps; accounts := acs |}; rdb := empty_redis; logs := [] |}.

Definition probe_fail : ProbeResult :=
  {| probe_err := Some "proxy connection failed"; probe_ms := 30000 |}.

Definition probe_ok : ProbeResult := {| probe_err := None; probe_ms := 120 |}.

Definition account_on (acc pid : Z) : Account :=
  {| AccountID := acc; proxy_id := Some pid; account_updated_at := 0 |}.

(** Three sweeps, five minutes apart, over proxies 1 and 2: proxy 1 fails
    each time, proxy 2 passes. *)
Definition example_probes : list (Z * ProbeResult * Proxy) :=
  [(0, probe_fail, sample_proxy 1 ProxyStatusActive true 100);
   (0, probe_ok, sample_proxy 2 ProxyStatusActive true 50);
   (300, probe_fail, sample_proxy 1 ProxyStatusActive false 30000);
   (300, probe_ok, sample_proxy 2 ProxyStatusActive true 120);
   (600, probe_fail, sample_proxy 1 ProxyStatusActive false 30000);
   (600, probe_ok, sample_proxy 2 ProxyStatusActive true 120)].

(** Three failed probes of proxy 1, each more than an hour after the one
    before (a health-check interval of 4000 seconds). *)
Definition slow_probes : list (Z * ProbeResult * Proxy) :=
  [(0, probe_fail, sample_proxy 1 ProxyStatusActive true 100);
   (4000, probe_fail, sample_proxy 1 ProxyStatusActive false 30000);
   (8000, probe_fail, sample_proxy 1 ProxyStatusActive false 30000)].

Definition example_world : World :=
  world_of [sample_proxy 1 ProxyStatusActive true 100;
            sample_proxy 2 ProxyStatusActive true 50] [].

(** Proxy 1 quarantined, with a failure counter of 2 still alive. *)
Definition recovering_world : World :=
  {| db := {| proxies := [sample_proxy 1 ProxyStatusError false 30000]; accounts := [] |};
     rdb := {| failures := {[ 1 := mkEntry 2 (Some 5000) ]}; health := ∅; alerts := ∅;
               round_robin := ∅ |};
     logs := [] |}.

Definition quarantined_world : World :=
  world_of [sample_proxy 1 ProxyStatusError false 30000;
            sample_proxy 2 ProxyStatusActive true 50] [].

(** Proxy 1 fails, every other proxy passes. *)
Definition proxy_1_fails (p : Proxy) : ProbeResult :=
  if bool_decide (ID p = 1) then probe_fail else probe_ok.

Definition failing_sweeps : list (Z * (Proxy → ProbeResult)) :=
  [(0, proxy_1_fails); (300, proxy_1_fails); (600, proxy_1_fails); (900, proxy_1_fails)].

Definition all_probes_pass : list (Z * (Proxy → ProbeResult)) :=
  [(0, λ _, probe_ok); (300, λ _, probe_ok); (600, λ _, probe_ok)].

(** A: proxy 1, no account, 250 ms.  B: proxy 2, one account, 50 ms. *)
Definition auto_example_world : World :=
  world_of [sample_proxy 1 ProxyStatusActive true 250;
            sample_proxy 2 ProxyStatusActive true 50] [account_on 10 2].

(** An unhealthy proxy without accounts against a healthy one with two. *)
Definition least_used_example_world : World :=
  world_of [sample_proxy 1 ProxyStatusActive false 10;
            sample_proxy 2 ProxyStatusActive true 400]
           [account_on 10 2; account_on 11 2].

Definition no_healthy_world : World :=
  world_of [sample_proxy 1 ProxyStatusError false 30000;
            sample_proxy 2 ProxyStatusInactive true 50;
            sample_proxy 3 ProxyStatusActive false 70] [account_on 10 3].

(** An account pointing to proxy 2; proxy 1 is quarantined and unhealthy. *)
Definition explicit_example_world : World :=
  world_of [sample_proxy 1 ProxyStatusError false 30000;
            sample_proxy 2 ProxyStatusActive true 50] [account_on 10 2].

Definition explicit_request (id : Z) : ProxyAssignmentRequest :=
  {| ReqAccountID := 10; ReqProxyID := Some id; ReqProxyType := None;
     Strategy := "fastest" |}.

Definition round_robin_request (acc : Z) : ProxyAssignmentRequest :=
  {| ReqAccountID := acc; ReqProxyID := None; ReqProxyType := None;
     Strategy := "round_robin" |}.

Definition round_robin_example_world : World :=
  world_of [sample_proxy 1 ProxyStatusActive true 250;
            sample_proxy 2 ProxyStatusActive true 50;
            sample_proxy 3 ProxyStatusActive true 120;
            sample_proxy 4 ProxyStatusError false 30000] [].

Definition round_robin_example_calls : list (Z * ProxyAssignmentRequest) :=
  [(1, round_robin_request 10); (2, round_robin_request 11); (3, round_robin_request 12)].

(** Two proxies out of service, each still assigned to an account. *)
Definition overbooked_world : World :=
  world_of [sample_proxy 1 ProxyStatusError false 30000;
            sample_proxy 2 ProxyStatusInactive true 50]
           [account_on 10 1; account_on 11 2].

(** A request for a new proxy at 10.0.0.9:3128, and a parser that accepts
    its URL. *)
Definition example_create_request : CreateProxyRequest :=
  {| CrName := "fresh"; CrType := ProxyTypeHTTP; CrHost := "10.0.0.9"; CrPort := 3128;
     CrUsername := None; CrPassword := None; CrHealthCheckURL := None |}.

Definition example_parse (u : string) : string + URL :=
  inr {| Scheme := "http"; URLHost := "10.0.0.9:3128" |}.

(** An assignment, a creation, a release, a deletion and a sweep. *)
Definition example_calls : list Call :=
  [CallAssign 7 (explicit_request 1);
   CallCreate 1000 1030 example_parse (inl 3) probe_fail example_create_request;
   CallRelease 8 10;
   CallDelete 9 1;
   CallSweep default_env 1300 (λ _, probe_ok)].

(** An environment with MAX_PROXY_FAILURES=0. *)
Definition zero_threshold_env : Env :=
  λ key, if bool_decide (key = "MAX_PROXY_FAILURES") then Some 0 else None.

(** An environment with MAX_CONCURRENT_HEALTH_CHECKS=0. *)
Definition zero_room_env : Env :=
  λ key, if bool_decide (key = "MAX_CONCURRENT_HEALTH_CHECKS") then Some 0 else None.

(** * Properties *)

(** ** SQL *)

Section sql_lemmas.
Context {A : Type}.
Implicit Types (cond : A → bool) (set : A → A) (rows : list A).


Lemma sql_update_fmap {B} (k : A → B) cond set rows :
  (∀ r, k (set r) = k r) → k <$> sql_update cond set rows = k <$> rows.
Proof.
  intros Hk. unfold sql_update. rewrite <- list_fmap_compose.
  apply list_fmap_ext. intros i r _. simpl. destruct (cond r); auto.
Qed.

Lemma sql_update_elem_of cond set rows r :
  r ∈ rows → cond r = false → r ∈ sql_update cond set rows.
Proof.
  intros Hin Hc. unfold sql_update. apply list_elem_of_fmap.
  exists r. by rewrite Hc.
Qed.

Lemma sql_update_elem_of_inv cond set rows r' :
  r' ∈ sql_update cond set rows →
  ∃ r, r ∈ rows ∧ r' = (if cond r then set r else r).
Proof.
  unfold sql_update. intros (r & -> & Hin)%list_elem_of_fmap. eauto.
Qed.
End sql_lemmas.

Lemma id_is_true id r : id_is id r = true ↔ ID r = id.
Proof. unfold id_is. apply bool_decide_eq_true. Qed.

Lemma id_is_false id r : id_is id r = false ↔ ID r ≠ id.
Proof. unfold id_is. apply bool_decide_eq_false. Qed.

(** [GetProxy] after an update of the row it reads. *)
Lemma GetProxy_update_same id f d r :
  (∀ p, ID (f p) = ID p) →
  GetProxy id d = Ok r →
  GetProxy id (with_proxies (sql_update (id_is id) f) d) = Ok (f r).
Proof.
  intros Hf. unfold GetProxy, with_proxies, sql_update. simpl.
  induction (proxies d) as [|p ps IH]; simpl; [done|].
  rewrite !filter_cons. destruct (decide (ID p = id)) as [E|E].
  - assert (id_is id p = true) as -> by by apply id_is_true.
    rewrite decide_True by by rewrite Hf. simpl. congruence.
  - assert (id_is id p = false) as -> by by apply id_is_false.
    rewrite decide_False by done. exact IH.
Qed.

Lemma GetProxy_Ok_inv id d r :
  GetProxy id d = Ok r → r ∈ proxies d ∧ ID r = id.
Proof.
  unfold GetProxy.
  destruct (head _) as [p|] eqn:E; [|done]. intros [= <-].
  apply head_Some_elem_of in E. by apply list_elem_of_filter in E as [? ?].
Qed.

Lemma GetProxy_elem_of id d r :
  r ∈ proxies d → ID r = id → ∃ r', GetProxy id d = Ok r'.
Proof.
  intros Hin Hid. unfold GetProxy.
  destruct (head _) as [p|] eqn:E; [eauto|].
  apply head_None in E.
  assert (r ∈ filter (λ p, ID p = id) (proxies d)) as Hr
    by (apply list_elem_of_filter; done).
  rewrite E in Hr. by apply elem_of_nil in Hr.
Qed.

Lemma GetProxy_NoDup id d r :
  NoDup (ID <$> proxies d) → r ∈ proxies d → ID r = id →
  GetProxy id d = Ok r.
Proof.
  intros Hnd Hin Hid. destruct (GetProxy_elem_of id d r Hin Hid) as [r' Hr'].
  rewrite Hr'. f_equal. apply GetProxy_Ok_inv in Hr' as [Hin' Hid'].
  apply list_elem_of_lookup in Hin as [i Hi]. apply list_elem_of_lookup in Hin' as [j Hj].
  assert (i = j) as ->.
  { eapply NoDup_lookup; [exact Hnd | |]; rewrite list_lookup_fmap.
    - rewrite Hi. simpl. reflexivity.
    - rewrite Hj. simpl. congruence. }
  congruence.
Qed.

Lemma candidates_elem_of t d p :
  p ∈ candidates t d ↔
  p ∈ proxies d ∧ Status p = ProxyStatusActive ∧ HealthCheckSuccess p = true
  ∧ type_matches t p.
Proof. unfold candidates. rewrite list_elem_of_filter. unfold available. tauto. Qed.

(** ** Redis *)

Section redis_lemmas.
Context {K : Type} `{Countable K} {A : Type}.
Implicit Types (m : gmap K (Entry A)) (k : K).

Lemma redis_get_insert now k e m :
  live now e = true → redis_get now k (<[k := e]> m) = Some e.
Proof. intros Hl. unfold redis_get. by rewrite lookup_insert_eq, Hl. Qed.

Lemma redis_get_absent now k m : m !! k = None → redis_get now k m = None.
Proof. intros Hm. unfold redis_get. by rewrite Hm. Qed.

Lemma live_hmset now k m (v : A) :
  live now (mkEntry v (redis_get now k m ≫= expire_at)) = true.
Proof.
  unfold redis_get, live. destruct (m !! k) as [e|]; simpl; [|done].
  destruct (expire_at e) as [t|] eqn:E; simpl; [|by rewrite E].
  destruct (bool_decide (now < t)) eqn:E'; simpl; [by rewrite E|done].
Qed.

(** HMSET then EXPIRE leaves the hash just written, with the new time to
    live, whatever the key held. *)
Lemma redis_expire_hmset now k ttl (v : A) m :
  redis_expire now k ttl (redis_hmset now k v m) = <[k := mkEntry v (Some (now + ttl))]> m.
Proof.
  unfold redis_expire, redis_hmset.
  rewrite redis_get_insert by apply live_hmset. simpl.
  apply insert_insert_eq.
Qed.

(** Commands on one key leave the other keys alone. *)
Lemma redis_expire_other now k k' ttl m :
  k ≠ k' → redis_expire now k ttl m !! k' = m !! k'.
Proof.
  intros Hne. unfold redis_expire. destruct (redis_get now k m); [|done].
  by rewrite lookup_insert_ne.
Qed.
End redis_lemmas.

(** INCR then EXPIRE on a counter that is absent, and on one that holds [c]
    and has not expired. *)
Lemma redis_incr_absent now (id : Z) (m : gmap Z (Entry Z)) :
  redis_get now id m = None →
  redis_incr now id m = Some (1, <[id := mkEntry 1 None]> m).
Proof. intros Hg. unfold redis_incr. by rewrite Hg. Qed.

Lemma redis_incr_live now (id : Z) (m : gmap Z (Entry Z)) c t :
  m !! id = Some (mkEntry c (Some t)) → now < t → c < max_int64 →
  redis_incr now id m = Some (c + 1, <[id := mkEntry (c + 1) (Some t)]> m).
Proof.
  intros Hm Ht Hc. unfold redis_incr, redis_get, live. rewrite Hm. simpl.
  rewrite bool_decide_eq_true_2 by done. simpl.
  by rewrite bool_decide_eq_true_2 by done.
Qed.

Lemma redis_expire_insert now (id : Z) (m : gmap Z (Entry Z)) c o ttl :
  live now (mkEntry c o) = true →
  redis_expire now id ttl (<[id := mkEntry c o]> m) = <[id := mkEntry c (Some (now + ttl))]> m.
Proof.
  intros Hl. unfold redis_expire. rewrite redis_get_insert by done. simpl.
  apply insert_insert_eq.
Qed.

Lemma redis_incr_other now (k k' : Z) (m m' : gmap Z (Entry Z)) f :
  redis_incr now k m = Some (f, m') → k ≠ k' → m' !! k' = m !! k'.
Proof.
  unfold redis_incr. intros Hi Hne.
  destruct (redis_get now k m) as [e|].
  - case_bool_decide; [|done]. injection Hi as <- <-. by rewrite lookup_insert_ne.
  - injection Hi as <- <-. by rewrite lookup_insert_ne.
Qed.

Lemma sql_update_other_inv id k f rows r :
  (∀ x, ID (f x) = ID x) → k ≠ id →
  r ∈ sql_update (id_is k) f rows → ID r = id → r ∈ rows.
Proof.
  intros Hf Hne (r1 & Hin & ->)%sql_update_elem_of_inv Hid.
  destruct (id_is k r1) eqn:E; [|done].
  apply id_is_true in E. rewrite Hf in Hid. congruence.
Qed.

(** ** The failure and recovery tracker *)

Lemma updateProxyHealthStatus_db now id s ms e w :
  db (updateProxyHealthStatus now id s ms e w)
  = with_proxies (sql_update (id_is id) (set_health s ms now)) (db w).
Proof. reflexivity. Qed.

Lemma incr_then_expire now id c w :
  counter_is id c now w → c < max_int64 →
  ∃ m, redis_incr now id (failures (rdb w)) = Some (c + 1, m)
       ∧ redis_expire now id hour m
         = <[id := mkEntry (c + 1) (Some (now + hour))]> (failures (rdb w)).
Proof.
  intros [[-> Hg]|[Hc (t & Hm & Ht)]] Hmax.
  - eexists. split; [by apply redis_incr_absent|].
    rewrite redis_expire_insert by done. reflexivity.
  - eexists. split; [by eapply redis_incr_live|].
    rewrite redis_expire_insert; [reflexivity|].
    unfold live. simpl. by apply bool_decide_eq_true_2.
Qed.

(** A failure below the threshold: the counter goes up by one and lives for
    another hour; nothing else of the tracker's state moves. *)
Lemma handleProxyFailure_below env now p c w :
  counter_is (ID p) c now w → c < max_int64 →
  c + 1 < GetEnvAsInt env "MAX_PROXY_FAILURES" 3 →
  handleProxyFailure env now p w
  = with_rdb (with_failures (λ _,
      <[ID p := mkEntry (c + 1) (Some (now + hour))]> (failures (rdb w)))) w.
Proof.
  intros Hc Hmax Hlt. unfold handleProxyFailure.
  destruct (incr_then_expire now (ID p) c w Hc Hmax) as (m & -> & Hm).
  assert ((c + 1 >=? GetEnvAsInt env "MAX_PROXY_FAILURES" 3) = false) as Hb.
  { rewrite Z.geb_leb. apply Z.leb_gt. lia. }
  rewrite Hb.
  unfold with_rdb, with_failures. simpl. by rewrite Hm.
Qed.

(** A failure that reaches the threshold. *)
Lemma handleProxyFailure_quarantine env now p c w :
  counter_is (ID p) c now w → c < max_int64 →
  GetEnvAsInt env "MAX_PROXY_FAILURES" 3 ≤ c + 1 →
  let w' := handleProxyFailure env now p w in
  db w' = with_proxies (sql_update (id_is (ID p)) (set_status ProxyStatusError now)) (db w)
  ∧ failures (rdb w') = delete (ID p) (failures (rdb w))
  ∧ alerts (rdb w')
    = <[(ID p, now) :=
          mkEntry (mkAlertData (ID p) (Name p) (Host p) (Port p) (c + 1) now "proxy_failure")
                  (Some (now + 7 * 24 * hour))]> (alerts (rdb w))
  ∧ logs w' = (logs w ++ [LogMarkError p (c + 1); LogAlert p (c + 1)])%list.
Proof.
  intros Hc Hmax Hge. unfold handleProxyFailure.
  destruct (incr_then_expire now (ID p) c w Hc Hmax) as (m & -> & Hm).
  assert ((c + 1 >=? GetEnvAsInt env "MAX_PROXY_FAILURES" 3) = true) as Hb.
  { rewrite Z.geb_leb. apply Z.leb_le. lia. }
  rewrite Hb.
  cbv zeta. unfold notifyProxyFailure, HealthService.updateProxyStatus. simpl.
  repeat split.
  - rewrite Hm. unfold redis_del. by rewrite delete_insert_eq.
  - apply redis_expire_hmset.
  - by rewrite <- app_assoc.
Qed.

Lemma checkProxyHealth_failure env now res p w err :
  probe_err res = Some err →
  checkProxyHealth env now res p w
  = handleProxyFailure env now p
      (updateProxyHealthStatus now (ID p) false (probe_ms res) err
         (log_event (LogCheckFailed p err) (log_event (LogChecking p) w))).
Proof. intros Hr. unfold checkProxyHealth. by rewrite Hr. Qed.

Lemma checkProxyHealth_success env now res p w :
  probe_err res = None →
  checkProxyHealth env now res p w
  = handleProxySuccess now p
      (updateProxyHealthStatus now (ID p) true (probe_ms res) ""
         (log_event (LogCheckPassed p (probe_ms res)) (log_event (LogChecking p) w))).
Proof. intros Hr. unfold checkProxyHealth. by rewrite Hr. Qed.

Lemma alerts_logged_app l1 l2 :
  alerts_logged (l1 ++ l2) = (alerts_logged l1 ++ alerts_logged l2)%list.
Proof. apply omap_app. Qed.

(** One failed probe below the threshold, seen from outside. *)
Lemma failed_probe_below env now res p c w :
  probe_err res ≠ None →
  counter_is (ID p) c now w → c < max_int64 →
  c + 1 < GetEnvAsInt env "MAX_PROXY_FAILURES" 3 →
  let w' := checkProxyHealth env now res p w in
  failures (rdb w') = <[ID p := mkEntry (c + 1) (Some (now + hour))]> (failures (rdb w))
  ∧ alerts (rdb w') = alerts (rdb w)
  ∧ alerts_logged (logs w') = alerts_logged (logs w)
  ∧ proxies (db w')
    = sql_update (id_is (ID p)) (set_health false (probe_ms res) now) (proxies (db w)).
Proof.
  intros Hr Hc Hmax Hlt. destruct (probe_err res) as [err|] eqn:E; [|done].
  intros w'. subst w'. rewrite (checkProxyHealth_failure _ _ _ _ _ err) by done.
  rewrite (handleProxyFailure_below env now p c) by done. simpl.
  repeat split. rewrite !alerts_logged_app. simpl. by rewrite !app_nil_r.
Qed.

(** The failed probe that reaches the threshold, seen from outside. *)
Lemma failed_probe_quarantine env now res p c w :
  probe_err res ≠ None →
  counter_is (ID p) c now w → c < max_int64 →
  GetEnvAsInt env "MAX_PROXY_FAILURES" 3 ≤ c + 1 →
  let w' := checkProxyHealth env now res p w in
  failures (rdb w') !! ID p = None
  ∧ alerts (rdb w')
    = <[(ID p, now) :=
          mkEntry (mkAlertData (ID p) (Name p) (Host p) (Port p) (c + 1) now "proxy_failure")
                  (Some (now + 7 * 24 * hour))]> (alerts (rdb w))
  ∧ alerts_logged (logs w') = (alerts_logged (logs w) ++ [(p, c + 1)])%list
  ∧ proxies (db w')
    = sql_update (id_is (ID p)) (set_status ProxyStatusError now)
        (sql_update (id_is (ID p)) (set_health false (probe_ms res) now) (proxies (db w))).
Proof.
  intros Hr Hc Hmax Hge. destruct (probe_err res) as [err|] eqn:E; [|done].
  intros w'. subst w'. rewrite (checkProxyHealth_failure _ _ _ _ _ err) by done.
  set (w1 := updateProxyHealthStatus _ _ _ _ _ _).
  destruct (handleProxyFailure_quarantine env now p c w1) as (Hdb & Hf & Ha & Hl); try done.
  rewrite Hdb, Hf, Ha, Hl. repeat split.
  - apply lookup_delete_eq.
  - subst w1. simpl. rewrite !alerts_logged_app. simpl. by rewrite !app_nil_r.
Qed.

Lemma status_is_updated id st now rows :
  status_is id st
    {| proxies := sql_update (id_is id) (set_status st now) rows; accounts := [] |}.
Proof.
  intros r Hin Hid. simpl in Hin.
  apply sql_update_elem_of_inv in Hin as (r1 & Hin & ->).
  destruct (id_is id r1) eqn:E; [done|].
  apply id_is_false in E. done.
Qed.

Lemma alerts_for_app id l1 l2 :
  alerts_for id (l1 ++ l2) = (alerts_for id l1 ++ alerts_for id l2)%list.
Proof. unfold alerts_for. by rewrite alerts_logged_app, filter_app. Qed.

Lemma same_for_refl id w : same_for id w w.
Proof. repeat split; done. Qed.

Lemma same_for_trans id w1 w2 w3 :
  same_for id w1 w2 → same_for id w2 w3 → same_for id w1 w3.
Proof.
  intros (F1 & A1 & L1 & R1 & I1) (F2 & A2 & L2 & R2 & I2).
  split; [congruence|]. split; [intros t; by rewrite A2|].
  split; [congruence|]. split; [|congruence].
  intros r Hin Hid. apply R1; [|done]. by apply R2.
Qed.

(** The five parts of [same_for] after a health check of another proxy:
    lookups under other keys, alert lines of other proxies, rows of other
    ids. *)
Ltac other_solve :=
  split; [|split; [|split; [|split]]];
  [ unfold redis_del; rewrite ?lookup_delete_ne, ?redis_expire_other by done;
    first [done | by eapply redis_incr_other]
  | intros t; rewrite ?redis_expire_hmset, ?lookup_insert_ne by done; done
  | rewrite !alerts_for_app; unfold alerts_for; simpl;
    rewrite ?filter_cons_False by done; by rewrite !app_nil_r
  | intros r Hin Hid; repeat (eapply sql_update_other_inv in Hin; [|done..]); done
  | by rewrite !sql_update_fmap ].

(** A health check of another proxy leaves what is kept for [id] alone. *)
Lemma checkProxyHealth_other env now res p w id :
  ID p ≠ id → same_for id w (checkProxyHealth env now res p w).
Proof.
  intros Hne.
  assert (Hkey : ∀ t, (ID p, now) ≠ (id, t)) by (intros t; congruence).
  unfold checkProxyHealth, same_for.
  destruct (probe_err res) as [err|]; simpl.
  - unfold handleProxyFailure. simpl.
    destruct (redis_incr now (ID p) (failures (rdb w))) as [[f m]|] eqn:E; simpl;
      [destruct (f >=? GetEnvAsInt env "MAX_PROXY_FAILURES" 3); simpl|];
      other_solve.
  - unfold handleProxySuccess. simpl.
    destruct (bool_decide (Status p = ProxyStatusError)); simpl; other_solve.
Qed.

Lemma run_probes_others env id probes : ∀ w,
  Forall (λ x, ID x.2 ≠ id) probes → same_for id w (run_probes env probes w).
Proof.
  induction probes as [|x rest IH]; intros w Hall; [apply same_for_refl|].
  apply Forall_cons in Hall as [Hx Hall].
  change (run_probes env (x :: rest) w)
    with (run_probes env rest (checkProxyHealth env (probe_time x) x.1.2 x.2 w)).
  eapply same_for_trans; [by apply checkProxyHealth_other|by apply IH].
Qed.

Lemma own_probes_nil id probes :
  own_probes id probes = [] → Forall (λ x, ID x.2 ≠ id) probes.
Proof.
  intros Hnil. apply Forall_forall. intros x Hin Hid.
  by apply (filter_nil_not_elem_of _ _ x Hnil).
Qed.

(** The run that the quarantine of proxy [id] ends: from a counter holding
    [c], the probes of [id] in the run are as many failures as are missing
    to the threshold, among probes of other proxies. *)
Lemma run_probes_interleaved env id probes : ∀ c w t0,
  let n := GetEnvAsInt env "MAX_PROXY_FAILURES" 3 in
  0 ≤ c → n ≤ max_int64 →
  Forall (λ x, probe_err x.1.2 ≠ None) (own_probes id probes) →
  spaced (probe_time <$> own_probes id probes) →
  head (probe_time <$> own_probes id probes) = Some t0 →
  counter_is id c t0 w →
  c + Z.of_nat (length (own_probes id probes)) = n →
  let w' := run_probes env probes w in
  status_is id ProxyStatusError (db w')
  ∧ ID <$> proxies (db w') = ID <$> proxies (db w)
  ∧ failures (rdb w') !! id = None
  ∧ ∃ x, last (own_probes id probes) = Some x
      ∧ alerts_for id (logs w') = (alerts_for id (logs w) ++ [(x.2, n)])%list
      ∧ alerts (rdb w') !! (id, probe_time x)
        = Some (mkEntry (mkAlertData id (Name x.2) (Host x.2) (Port x.2) n (probe_time x)
                           "proxy_failure")
                        (Some (probe_time x + 7 * 24 * hour)))
      ∧ ∀ t, t ≠ probe_time x → alerts (rdb w') !! (id, t) = alerts (rdb w) !! (id, t).
Proof.
  induction probes as [|x rest IH]; intros c w t0 n Hc Hn Hall Hsp Hhd Hcnt Hlen; [done|].
  intros w'. subst w'.
  change (run_probes env (x :: rest) w)
    with (run_probes env rest (checkProxyHealth env (probe_time x) x.1.2 x.2 w)).
  set (w1 := checkProxyHealth env (probe_time x) x.1.2 x.2 w).
  unfold own_probes in *. rewrite filter_cons in *.
  destruct (decide (ID x.2 = id)) as [Hid|Hid].
  - apply Forall_cons in Hall as [Hres Hall].
    simpl in Hhd. injection Hhd as <-. subst id.
    destruct (filter _ rest) as [|y own'] eqn:Eown.
    + clear IH. simpl in Hlen.
      destruct (failed_probe_quarantine env (probe_time x) x.1.2 x.2 c w)
        as (Hf & Ha & Hl & Hp); try done; try (fold n; lia).
      fold w1 in Hf, Ha, Hl, Hp.
      destruct (run_probes_others env (ID x.2) rest w1 (own_probes_nil _ _ Eown))
        as (F & A & L & R & I).
      split; [|split; [|split]].
      * intros r Hin Hr. apply R in Hin; [|done]. rewrite Hp in Hin.
        apply (status_is_updated (ID x.2) ProxyStatusError _ _ r Hin). done.
      * rewrite I, Hp. by rewrite !sql_update_fmap.
      * by rewrite F.
      * exists x. split; [done|]. replace n with (c + 1) by (fold n; lia).
        split; [|split].
        -- rewrite L. unfold alerts_for. rewrite Hl, filter_app. simpl.
           by rewrite filter_cons_True, filter_nil.
        -- by rewrite A, Ha, lookup_insert_eq.
        -- intros t Ht. rewrite A, Ha, lookup_insert_ne; [done|congruence].
    + simpl in Hsp. destruct Hsp as [Hty Hsp].
      assert (Hlen' : c + 1 + Z.of_nat (length (y :: own')) = n).
      { rewrite <- Hlen. simpl length. lia. }
      destruct (failed_probe_below env (probe_time x) x.1.2 x.2 c w)
        as (Hf & Ha & Hl & Hp); try done; try (fold n; simpl length in Hlen'; lia).
      fold w1 in Hf, Ha, Hl, Hp.
      destruct (IH (c + 1) w1 (probe_time y))
        as (Hst & Hids & Hfl & z & Hlast & Hlog & Hal & Hoth); try done; try lia.
      { right. split; [lia|]. exists (probe_time x + hour).
        rewrite Hf, lookup_insert_eq. split; [done|lia]. }
      split; [done|]. split; [|split; [done|]].
      * rewrite Hids, Hp. by rewrite sql_update_fmap.
      * exists z. split; [done|]. split; [|split].
        -- rewrite Hlog. unfold alerts_for. by rewrite Hl.
        -- done.
        -- intros t Ht. by rewrite Hoth, Ha.
  - destruct (checkProxyHealth_other env (probe_time x) x.1.2 x.2 w id Hid)
      as (F & A & L & R & I).
    fold w1 in F, A, L, R, I.
    destruct (IH c w1 t0)
      as (Hst & Hids & Hfl & z & Hlast & Hlog & Hal & Hoth); try done.
    { unfold counter_is, redis_get in *. by rewrite F. }
    split; [done|]. split; [congruence|]. split; [done|].
    exists z. split; [done|]. split; [by rewrite Hlog, L|]. split; [done|].
    intros t Ht. by rewrite Hoth, A.
Qed.

Lemma status_is_GetProxy id st d d' r :
  status_is id st d' → ID <$> proxies d' = ID <$> proxies d →
  GetProxy id d = Ok r →
  ∃ r', GetProxy id d' = Ok r' ∧ Status r' = st.
Proof.
  intros Hst Hids [Hin Hid]%GetProxy_Ok_inv.
  assert (id ∈ ID <$> proxies d') as (r1 & Hid1 & Hin1)%list_elem_of_fmap.
  { rewrite Hids. apply list_elem_of_fmap. eauto. }
  destruct (GetProxy_elem_of id d' r1 Hin1 (eq_sym Hid1)) as [r' Hr'].
  exists r'. split; [done|].
  apply GetProxy_Ok_inv in Hr' as [? ?]. by apply Hst.
Qed.

(** C1. Take any run of probes in which proxy [id], whose failure counter
    is absent at the start, is probed [MAX_PROXY_FAILURES] times (default 3,
    at least 1), every time failing, each time less than an hour (the
    counter's time to live) after the time before; other proxies may be
    probed in between.  Afterwards every row of the proxy has status
    [error], the row the registry returns for it has status [error], the
    failure counter is absent, and exactly one alert of this proxy was
    recorded: one more alert line for it in the log, and one more alert hash
    for it in Redis, under the time of the last probe; both carry the proxy
    and the failure count that reached the threshold. *)
Theorem quarantine_after_max_failures env id probes w :
  let n := GetEnvAsInt env "MAX_PROXY_FAILURES" 3 in
  let own := own_probes id probes in
  1 ≤ n ≤ max_int64 →
  Z.of_nat (length own) = n →
  Forall (λ x, probe_err x.1.2 ≠ None) own →
  spaced (probe_time <$> own) →
  failures (rdb w) !! id = None →
  let w' := run_probes env probes w in
  status_is id ProxyStatusError (db w')
  ∧ (∀ r, GetProxy id (db w) = Ok r →
       ∃ r', GetProxy id (db w') = Ok r' ∧ Status r' = ProxyStatusError)
  ∧ failures (rdb w') !! id = None
  ∧ ∃ x, last own = Some x
      ∧ alerts_for id (logs w') = (alerts_for id (logs w) ++ [(x.2, n)])%list
      ∧ alerts (rdb w') !! (id, probe_time x)
        = Some (mkEntry (mkAlertData id (Name x.2) (Host x.2) (Port x.2) n (probe_time x)
                           "proxy_failure")
                        (Some (probe_time x + 7 * 24 * hour)))
      ∧ ∀ t, t ≠ probe_time x → alerts (rdb w') !! (id, t) = alerts (rdb w) !! (id, t).
Proof.
  intros n own Hn Hlen Hall Hsp Habs w'.
  assert (∃ t0, head (probe_time <$> own) = Some t0) as [t0 Ht0].
  { destruct own; [simpl in Hlen; lia|]. simpl. eauto. }
  destruct (run_probes_interleaved env id probes 0 w t0)
    as (Hst & Hids & Hf & Hal); try done; try (fold n; lia).
  { left. split; [done|]. by apply redis_get_absent. }
  fold w' in Hst, Hids, Hf, Hal. split; [done|]. split; [|split; [done|exact Hal]].
  intros r Hr. by eapply status_is_GetProxy.
Qed.

Lemma quarantine_after_max_failures_witness :
  let w' := run_probes default_env example_probes example_world in
  status_is 1 ProxyStatusError (db w')
  ∧ (∀ r, GetProxy 1 (db example_world) = Ok r →
       ∃ r', GetProxy 1 (db w') = Ok r' ∧ Status r' = ProxyStatusError)
  ∧ failures (rdb w') !! 1 = None
  ∧ ∃ x, last (own_probes 1 example_probes) = Some x
      ∧ alerts_for 1 (logs w') = (alerts_for 1 (logs example_world) ++ [(x.2, 3)])%list
      ∧ alerts (rdb w') !! (1, probe_time x)
        = Some (mkEntry (mkAlertData 1 (Name x.2) (Host x.2) (Port x.2) 3 (probe_time x)
                           "proxy_failure")
                        (Some (probe_time x + 7 * 24 * hour)))
      ∧ ∀ t, t ≠ probe_time x →
             alerts (rdb w') !! (1, t) = alerts (rdb example_world) !! (1, t).
Proof.
  apply (quarantine_after_max_failures default_env 1 example_probes example_world).
  - change (1 ≤ 3 ≤ 9223372036854775807). lia.
  - reflexivity.
  - repeat constructor; discriminate.
  - change (0 ≤ 300 < 0 + 3600 ∧ 300 ≤ 600 < 300 + 3600 ∧ True). lia.
  - reflexivity.
Defined.

(** Without the bound on the time between probes the counter never gets to
    the threshold: three consecutive failed probes of proxy 1, 4000 seconds
    apart, under the default threshold of 3, leave proxy 1 active, record no
    alert, and leave a counter of 1 behind. *)
Lemma quarantine_missed_when_counter_expires :
  let w' := run_probes default_env slow_probes example_world in
  GetEnvAsInt default_env "MAX_PROXY_FAILURES" 3
  = Z.of_nat (length (own_probes 1 slow_probes))
  ∧ Forall (λ x, probe_err x.1.2 ≠ None) (own_probes 1 slow_probes)
  ∧ failures (rdb example_world) !! 1 = None
  ∧ ¬ status_is 1 ProxyStatusError (db w')
  ∧ GetProxy 1 (db w')
    = Ok (set_health false 30000 8000 (sample_proxy 1 ProxyStatusActive true 100))
  ∧ alerts_for 1 (logs w') = []
  ∧ alerts (rdb w') = ∅
  ∧ failures (rdb w') !! 1 = Some (mkEntry 1 (Some (8000 + hour))).
Proof.
  split; [reflexivity|]. split; [repeat constructor; discriminate|].
  split; [reflexivity|]. split; [|repeat split; reflexivity].
  intros Hst.
  specialize (Hst (set_health false 30000 8000 (sample_proxy 1 ProxyStatusActive true 100))).
  discriminate Hst; [apply list_elem_of_here|reflexivity].
Qed.

(** The same through the scheduler: three sweeps five minutes apart in
    which proxy 1 fails and proxy 2 passes quarantine proxy 1 in the third
    sweep, with one alert and no counter left; the fourth sweep checks
    proxy 2 only. *)
Example three_failing_sweeps_quarantine :
  let w' := StartHealthCheckScheduler default_env failing_sweeps example_world in
  Status <$> proxies (db w') = [ProxyStatusError; ProxyStatusActive]
  ∧ failures (rdb w') !! 1 = None
  ∧ alerts_for 1 (logs w') = [(set_health false 30000 300
                                 (sample_proxy 1 ProxyStatusActive true 100), 3)]
  ∧ dom (alerts (rdb w')) = {[ (1, 600) ]}
  ∧ probed_ids (logs w') = [1; 2; 1; 2; 1; 2; 2].
Proof. vm_compute. repeat split. Qed.

(** What [handleProxySuccess] does: the counter is deleted in any case; the
    status is set to [active] when the row handed in says [error]. *)
Lemma handleProxySuccess_spec now p w :
  let w' := handleProxySuccess now p w in
  failures (rdb w') = delete (ID p) (failures (rdb w))
  ∧ (Status p = ProxyStatusError →
       db w' = with_proxies
                 (sql_update (id_is (ID p)) (set_status ProxyStatusActive now)) (db w))
  ∧ (Status p ≠ ProxyStatusError → db w' = db w).
Proof.
  intros w'. subst w'. unfold handleProxySuccess.
  case_bool_decide as E; simpl; split; try done; split; done.
Qed.

(** C2. A successful probe of a proxy deletes the proxy's failure counter,
    whatever it held.  When the row of the proxy that was probed has status
    [error], every row of the proxy has status [active] afterwards and the
    registry returns the row with status [active] and the health of this
    probe; with any other status the probe changes the health columns
    only. *)
Theorem success_resets_counter_and_recovers env now res p w :
  probe_err res = None →
  let w' := checkProxyHealth env now res p w in
  failures (rdb w') = delete (ID p) (failures (rdb w))
  ∧ failures (rdb w') !! ID p = None
  ∧ (Status p = ProxyStatusError →
       status_is (ID p) ProxyStatusActive (db w')
       ∧ ∀ r, GetProxy (ID p) (db w) = Ok r →
              GetProxy (ID p) (db w')
              = Ok (set_status ProxyStatusActive now (set_health true (probe_ms res) now r)))
  ∧ (Status p ≠ ProxyStatusError →
       db w' = with_proxies
                 (sql_update (id_is (ID p)) (set_health true (probe_ms res) now)) (db w)).
Proof.
  intros Hres w'. subst w'. rewrite checkProxyHealth_success by done.
  set (w1 := updateProxyHealthStatus _ _ _ _ _ _).
  destruct (handleProxySuccess_spec now p w1) as (Hf & Herr & Hother).
  split; [exact Hf|]. split; [rewrite Hf; apply lookup_delete_eq|]. split.
  - intros Hst. rewrite (Herr Hst). split.
    + intros r Hin. apply (status_is_updated (ID p) ProxyStatusActive now _ r Hin).
    + intros r Hr. subst w1. rewrite updateProxyHealthStatus_db.
      apply (GetProxy_update_same (ID p)); [done|].
      by apply (GetProxy_update_same (ID p)).
  - intros Hst. by rewrite (Hother Hst).
Qed.

Lemma success_resets_counter_and_recovers_witness :
  let w' := checkProxyHealth default_env 100 probe_ok
              (sample_proxy 1 ProxyStatusError false 30000) recovering_world in
  failures (rdb recovering_world) !! 1 = Some (mkEntry 2 (Some 5000))
  ∧ failures (rdb w') !! 1 = None
  ∧ GetProxy 1 (db w')
    = Ok (set_status ProxyStatusActive 100
            (set_health true 120 100 (sample_proxy 1 ProxyStatusError false 30000))).
Proof.
  destruct (success_resets_counter_and_recovers default_env 100 probe_ok
              (sample_proxy 1 ProxyStatusError false 30000) recovering_world eq_refl)
    as (_ & Hf & Hrec & _).
  split; [reflexivity|]. split; [exact Hf|].
  destruct (Hrec eq_refl) as (_ & Hg). apply Hg. reflexivity.
Defined.

(** ** The sweep *)

Lemma probed_ids_app l1 l2 :
  probed_ids (l1 ++ l2) = (probed_ids l1 ++ probed_ids l2)%list.
Proof. apply omap_app. Qed.

(** Rows of another proxy survive updates by id; ids and the probe list are
    read off the goal. *)
Ltac frame_solve :=
  split; [|split];
  [ intros r Hin Hne; repeat (apply sql_update_elem_of; [|by apply id_is_false]); exact Hin
  | by rewrite !sql_update_fmap
  | rewrite !probed_ids_app; simpl; by rewrite !app_nil_r ].

(** What one health check does to the registry and to the list of probed
    proxies: rows of other proxies are not touched. *)
Lemma checkProxyHealth_frame env now res p w :
  let w' := checkProxyHealth env now res p w in
  (∀ r, r ∈ proxies (db w) → ID r ≠ ID p → r ∈ proxies (db w'))
  ∧ ID <$> proxies (db w') = ID <$> proxies (db w)
  ∧ probed_ids (logs w') = (probed_ids (logs w) ++ [ID p])%list.
Proof.
  intros w'. subst w'. unfold checkProxyHealth.
  destruct (probe_err res) as [err|]; simpl.
  - unfold handleProxyFailure. simpl.
    destruct (redis_incr now (ID p) (failures (rdb w))) as [[f m]|]; simpl;
      [destruct (f >=? GetEnvAsInt env "MAX_PROXY_FAILURES" 3); simpl|];
      frame_solve.
  - unfold handleProxySuccess. simpl.
    destruct (bool_decide (Status p = ProxyStatusError)); simpl; frame_solve.
Qed.

Lemma check_all_frame env now probe ps : ∀ w,
  let w' := foldl (λ w p, checkProxyHealth env now (probe p) p w) w ps in
  (∀ r, r ∈ proxies (db w) → ID r ∉ ID <$> ps → r ∈ proxies (db w'))
  ∧ ID <$> proxies (db w') = ID <$> proxies (db w)
  ∧ probed_ids (logs w') = (probed_ids (logs w) ++ (ID <$> ps))%list.
Proof.
  induction ps as [|p ps IH]; intros w; simpl.
  - repeat split; [done|by rewrite app_nil_r].
  - destruct (checkProxyHealth_frame env now (probe p) p w) as (H1 & H2 & H3).
    destruct (IH (checkProxyHealth env now (probe p) p w)) as (I1 & I2 & I3).
    repeat split.
    + intros r Hin Hnot. apply not_elem_of_cons in Hnot as [Hne Hnot].
      apply I1; [|done]. by apply H1.
    + by rewrite I2, H2.
    + rewrite I3, H3. by rewrite <- app_assoc.
Qed.

Lemma getActiveProxies_elem_of d p :
  p ∈ getActiveProxies d ↔ p ∈ proxies d ∧ Status p = ProxyStatusActive.
Proof.
  unfold getActiveProxies. rewrite merge_sort_Permutation.
  rewrite list_elem_of_filter. tauto.
Qed.

(** With [id] as primary key, a row that is not active shares its id with no
    row the sweep selects. *)
Lemma not_active_not_selected d r :
  NoDup (ID <$> proxies d) → r ∈ proxies d → Status r ≠ ProxyStatusActive →
  ID r ∉ ID <$> getActiveProxies d.
Proof.
  intros Hnd Hin Hst (p & Hid & Hp)%list_elem_of_fmap.
  apply getActiveProxies_elem_of in Hp as [Hp Hact].
  pose proof (GetProxy_NoDup (ID r) d r Hnd Hin eq_refl) as Hr.
  pose proof (GetProxy_NoDup (ID r) d p Hnd Hp (eq_sym Hid)) as Hp'.
  rewrite Hr in Hp'. injection Hp' as ->. done.
Qed.

Lemma runHealthCheckCycle_frame env now probe w r :
  NoDup (ID <$> proxies (db w)) → r ∈ proxies (db w) → Status r ≠ ProxyStatusActive →
  let w' := runHealthCheckCycle env now probe w in
  NoDup (ID <$> proxies (db w')) ∧ r ∈ proxies (db w')
  ∧ ∃ new, probed_ids (logs w') = (probed_ids (logs w) ++ new)%list ∧ ID r ∉ new.
Proof.
  intros Hnd Hin Hst w'. subst w'. unfold runHealthCheckCycle. simpl.
  destruct (bool_decide (length _ = _)); simpl.
  - split; [done|split; [done|]]. exists []. rewrite !probed_ids_app. simpl.
    split; [by rewrite !app_nil_r|]. apply not_elem_of_nil.
  - destruct (bool_decide (_ < 1)); simpl.
    { split; [done|split; [done|]]. exists []. rewrite !probed_ids_app. simpl.
      split; [by rewrite !app_nil_r|]. apply not_elem_of_nil. }
    destruct (check_all_frame env now probe (getActiveProxies (db w))
                (log_event (LogCycleChecking (length (getActiveProxies (db w))))
                   (log_event LogCycleStart w))) as (H1 & H2 & H3).
    split; [|split].
    + by rewrite H2.
    + apply H1; [done|]. by apply not_active_not_selected.
    + exists (ID <$> getActiveProxies (db w)). split.
      * rewrite probed_ids_app, H3. simpl. rewrite !probed_ids_app. simpl.
        by rewrite !app_nil_r.
      * by apply not_active_not_selected.
Qed.

Lemma scheduler_frame env ticks : ∀ w r,
  NoDup (ID <$> proxies (db w)) → r ∈ proxies (db w) → Status r ≠ ProxyStatusActive →
  let w' := StartHealthCheckScheduler env ticks w in
  NoDup (ID <$> proxies (db w')) ∧ r ∈ proxies (db w')
  ∧ ∃ new, probed_ids (logs w') = (probed_ids (logs w) ++ new)%list ∧ ID r ∉ new.
Proof.
  induction ticks as [|[now probe] ticks IH]; intros w r Hnd Hin Hst w'; subst w'.
  - simpl. split; [done|]. split; [done|]. exists []. split; [by rewrite app_nil_r|].
    apply not_elem_of_nil.
  - change (StartHealthCheckScheduler env ((now, probe) :: ticks) w)
      with (if sweep_returns env w
            then StartHealthCheckScheduler env ticks (runHealthCheckCycle env now probe w)
            else runHealthCheckCycle env now probe w).
    destruct (runHealthCheckCycle_frame env now probe w r Hnd Hin Hst)
      as (Hnd' & Hin' & new1 & Hl1 & Hn1).
    destruct (sweep_returns env w).
    + destruct (IH _ r Hnd' Hin' Hst) as (Hnd'' & Hin'' & new2 & Hl2 & Hn2).
      split; [done|]. split; [done|]. exists (new1 ++ new2)%list. split.
      * rewrite Hl2, Hl1. by rewrite <- app_assoc.
      * rewrite elem_of_app. tauto.
    + split; [done|]. split; [done|]. by exists new1.
Qed.

(** C3, as the code has it.  A quarantined proxy (status [error]) is never
    selected by a sweep: whatever the connection tests would give and
    however many sweeps run, no sweep logs a check of that proxy, its row
    stays exactly as it is, and it stays out of the pool of available
    proxies. *)
Theorem quarantined_proxy_never_probed env ticks w r :
  NoDup (ID <$> proxies (db w)) → r ∈ proxies (db w) → Status r = ProxyStatusError →
  let w' := StartHealthCheckScheduler env ticks w in
  GetProxy (ID r) (db w') = Ok r
  ∧ (∃ new, probed_ids (logs w') = (probed_ids (logs w) ++ new)%list ∧ ID r ∉ new)
  ∧ ∀ t, ID r ∉ ID <$> GetAvailableProxies t (db w').
Proof.
  intros Hnd Hin Hst w'.
  destruct (scheduler_frame env ticks w r Hnd Hin) as (Hnd' & Hin' & Hnew); [congruence|].
  fold w' in Hnd', Hin', Hnew.
  pose proof (GetProxy_NoDup (ID r) (db w') r Hnd' Hin' eq_refl) as Hr.
  split; [exact Hr|]. split; [exact Hnew|].
  intros t (p & Hid & Hp)%list_elem_of_fmap.
  unfold GetAvailableProxies in Hp. rewrite merge_sort_Permutation in Hp.
  apply candidates_elem_of in Hp as (Hp & Hact & _).
  pose proof (GetProxy_NoDup (ID r) (db w') p Hnd' Hp (eq_sym Hid)) as Hp'.
  rewrite Hr in Hp'. injection Hp' as ->. congruence.
Qed.

Lemma quarantined_proxy_never_probed_witness :
  let w' := StartHealthCheckScheduler default_env all_probes_pass quarantined_world in
  GetProxy 1 (db w') = Ok (sample_proxy 1 ProxyStatusError false 30000)
  ∧ (∃ new, probed_ids (logs w') = (probed_ids (logs quarantined_world) ++ new)%list
            ∧ 1 ∉ new)
  ∧ ∀ t, 1 ∉ ID <$> GetAvailableProxies t (db w').
Proof.
  apply (quarantined_proxy_never_probed default_env all_probes_pass quarantined_world
           (sample_proxy 1 ProxyStatusError false 30000)).
  - eapply bool_decide_eq_true_1. reflexivity.
  - apply list_elem_of_here.
  - reflexivity.
Defined.

(** The same on one registry: three sweeps in which every connection test
    passes leave the quarantined proxy 1 in status [error], unprobed. *)
Example quarantined_proxy_stays_quarantined :
  let w' := StartHealthCheckScheduler default_env all_probes_pass quarantined_world in
  (Status <$> proxies (db w')) = [ProxyStatusError; ProxyStatusActive]
  ∧ probed_ids (logs w') = [2; 2; 2]
  ∧ ProxyService.GetAvailableProxies None (db w')
    = [set_health true 120 600 (sample_proxy 2 ProxyStatusActive true 50)].
Proof. vm_compute. repeat split. Qed.

(** ** The registry's health update *)


Lemma updateProxyHealthStatus_eq now id s ms e w :
  updateProxyHealthStatus now id s ms e w
  = {| db := with_proxies (sql_update (id_is id) (set_health s ms now)) (db w);
       rdb := with_health
                (insert id (mkEntry (mkHealthData s ms now e) (Some (now + 24 * hour))))
                (rdb w);
       logs := logs w |}.
Proof.
  unfold updateProxyHealthStatus, with_rdb, with_db, with_health. simpl.
  by rewrite redis_expire_hmset.
Qed.



(** ** ORDER BY ... LIMIT 1 *)

Section order_by.
Context {A : Type} (R : relation A) `{∀ x y, Decision (R x y)}.

Lemma order_by_limit1_None rows : order_by_limit1 R rows = None ↔ rows = [].
Proof.
  unfold order_by_limit1. rewrite head_None. split.
  - intros E. apply Permutation_nil_r. rewrite <- E. by rewrite merge_sort_Permutation.
  - by intros ->.
Qed.

Lemma order_by_limit1_is_Some rows :
  rows ≠ [] → ∃ x, order_by_limit1 R rows = Some x.
Proof.
  intros Hne. destruct (order_by_limit1 R rows) as [x|] eqn:E; [eauto|].
  by apply order_by_limit1_None in E.
Qed.

(** The row returned is a row of the input, and no row of the input sorts
    strictly before it. *)
Lemma order_by_limit1_Some `{!Transitive R, !Total R} rows x :
  order_by_limit1 R rows = Some x → x ∈ rows ∧ ∀ y, y ∈ rows → R x y.
Proof.
  unfold order_by_limit1. intros Hh.
  pose proof (StronglySorted_merge_sort R rows) as Hs.
  pose proof (merge_sort_Permutation R rows) as Hp.
  destruct (merge_sort R rows) as [|x' l] eqn:E; [done|].
  simpl in Hh. injection Hh as ->.
  apply StronglySorted_cons in Hs as [Hall _].
  split.
  - rewrite <- Hp. apply list_elem_of_here.
  - intros y Hy. rewrite <- Hp in Hy.
    apply elem_of_cons in Hy as [->|Hy].
    + destruct (total R x x); done.
    + rewrite Forall_forall in Hall. by apply Hall.
Qed.
End order_by.

Global Instance response_time_le_trans : Transitive response_time_le.
Proof. unfold response_time_le. intros p q r. lia. Qed.

Global Instance response_time_le_total : Total response_time_le.
Proof. unfold response_time_le. intros p q. lia. Qed.

Global Instance least_used_le_trans d : Transitive (least_used_le d).
Proof. unfold least_used_le. intros p q r. lia. Qed.

Global Instance least_used_le_total d : Total (least_used_le d).
Proof. unfold least_used_le. intros p q. lia. Qed.

Global Instance score_le_trans d : Transitive (score_le d).
Proof. unfold score_le. intros p q r. lia. Qed.

Global Instance score_le_total d : Total (score_le d).
Proof. unfold score_le. intros p q. lia. Qed.

Lemma scan_id_Ok row id : scan_id row = Ok id → ∃ p, row = Some p ∧ ID p = id.
Proof. destruct row as [p|]; [|done]. intros [= <-]. eauto. Qed.

(** C4. The strategy named auto is the combined-score selection.  It
    returns a candidate (status [active], health check passed, of the type
    asked for) of least score [usage_count * 100 + ResponseTimeMs], and
    returns one whenever there is a candidate.  With the two candidates A
    (no account, 250 ms: score 250) and B (one account, 50 ms: score 150),
    it returns B. *)
Theorem auto_selects_least_score t w :
  selectProxyByStrategy "auto" t w = (selectBestProxy t w, w)
  ∧ (∀ id, selectBestProxy t w = Ok id →
     ∃ p, ID p = id ∧ p ∈ proxies (db w)
          ∧ Status p = ProxyStatusActive ∧ HealthCheckSuccess p = true ∧ type_matches t p
          ∧ ∀ q, q ∈ candidates t (db w) → score (db w) p ≤ score (db w) q)
  ∧ (candidates t (db w) ≠ [] → ∃ id, selectBestProxy t w = Ok id)
  ∧ (∀ A B, candidates t (db w) ≡ₚ [A; B] →
       usage_count (db w) A = 0 → ResponseTimeMs A = 250 →
       usage_count (db w) B = 1 → ResponseTimeMs B = 50 →
       score (db w) A = 250 ∧ score (db w) B = 150 ∧ selectBestProxy t w = Ok (ID B)).
Proof.
  assert (Hmin : ∀ id, selectBestProxy t w = Ok id →
     ∃ p, ID p = id ∧ p ∈ candidates t (db w)
          ∧ ∀ q, q ∈ candidates t (db w) → score (db w) p ≤ score (db w) q).
  { intros id (p & Hp & Hid)%scan_id_Ok.
    apply order_by_limit1_Some in Hp as [Hin Hle]; [|apply _..].
    exists p. done. }
  assert (Hcand : ∀ p, p ∈ candidates t (db w) →
     p ∈ proxies (db w) ∧ Status p = ProxyStatusActive ∧ HealthCheckSuccess p = true
     ∧ type_matches t p) by (intros p; apply candidates_elem_of).
  assert (Hsome : candidates t (db w) ≠ [] → ∃ id, selectBestProxy t w = Ok id).
  { intros Hne. unfold selectBestProxy.
    destruct (order_by_limit1_is_Some (score_le (db w)) _ Hne) as [p ->]. simpl. eauto. }
  split; [reflexivity|]. split.
  { intros id Hid. destruct (Hmin id Hid) as (p & Hp & Hin & Hle).
    destruct (Hcand p Hin) as (? & ? & ? & ?). exists p. done. }
  split; [exact Hsome|].
  intros A B Hperm HuA HrA HuB HrB.
  assert (HsA : score (db w) A = 250) by (unfold score; lia).
  assert (HsB : score (db w) B = 150) by (unfold score; lia).
  split; [done|]. split; [done|].
  destruct Hsome as [id Hid].
  { intros E. rewrite E in Hperm. by apply Permutation_nil_cons in Hperm. }
  rewrite Hid. f_equal.
  destruct (Hmin id Hid) as (p & <- & Hin & Hle).
  rewrite Hperm in Hin. apply elem_of_cons in Hin as [->|Hin].
  - specialize (Hle B). rewrite Hperm in Hle.
    assert (score (db w) A ≤ score (db w) B)
      by (apply Hle; apply list_elem_of_further, list_elem_of_here).
    lia.
  - apply list_elem_of_singleton in Hin. by subst.
Qed.

Lemma auto_selects_least_score_witness :
  score (db auto_example_world) (sample_proxy 1 ProxyStatusActive true 250) = 250
  ∧ score (db auto_example_world) (sample_proxy 2 ProxyStatusActive true 50) = 150
  ∧ selectBestProxy None auto_example_world = Ok 2.
Proof.
  apply (proj2 (proj2 (proj2 (auto_selects_least_score None auto_example_world)))
           (sample_proxy 1 ProxyStatusActive true 250)
           (sample_proxy 2 ProxyStatusActive true 50)); reflexivity.
Defined.

(** C6. The strategy named least_used returns only a proxy that is active,
    has passed its last health check and is of the type asked for; among
    these candidates it is first by number of assigned accounts, then by
    response time.  With [id] as primary key, a proxy whose health check
    failed is never returned, however few accounts it has.  There is a
    result whenever there is a candidate, and the error for no rows
    otherwise. *)
Theorem least_used_draws_from_healthy t w :
  selectProxyByStrategy "least_used" t w = (selectLeastUsedProxy t w, w)
  ∧ (∀ id, selectLeastUsedProxy t w = Ok id →
     ∃ p, ID p = id ∧ p ∈ proxies (db w)
          ∧ Status p = ProxyStatusActive ∧ HealthCheckSuccess p = true ∧ type_matches t p
          ∧ ∀ q, q ∈ candidates t (db w) →
              usage_count (db w) p < usage_count (db w) q
              ∨ (usage_count (db w) p = usage_count (db w) q
                 ∧ ResponseTimeMs p ≤ ResponseTimeMs q))
  ∧ (NoDup (ID <$> proxies (db w)) →
     ∀ p, p ∈ proxies (db w) → HealthCheckSuccess p = false →
          selectLeastUsedProxy t w ≠ Ok (ID p))
  ∧ (candidates t (db w) ≠ [] → ∃ id, selectLeastUsedProxy t w = Ok id)
  ∧ (candidates t (db w) = [] → selectLeastUsedProxy t w = Err ErrNoAvailableProxies).
Proof.
  assert (Hsel : ∀ id, selectLeastUsedProxy t w = Ok id →
     ∃ p, ID p = id ∧ p ∈ proxies (db w)
          ∧ Status p = ProxyStatusActive ∧ HealthCheckSuccess p = true ∧ type_matches t p
          ∧ ∀ q, q ∈ candidates t (db w) → least_used_le (db w) p q).
  { intros id (p & Hp & Hid)%scan_id_Ok.
    apply order_by_limit1_Some in Hp as [Hin Hle]; [|apply _..].
    apply candidates_elem_of in Hin as (? & ? & ? & ?).
    exists p. done. }
  split; [reflexivity|]. split; [exact Hsel|]. split; [|split].
  - intros Hnd p Hin Hbad Hsome.
    destruct (Hsel _ Hsome) as (q & Hid & Hq & _ & Hok & _).
    pose proof (GetProxy_NoDup (ID p) (db w) p Hnd Hin eq_refl) as Hp.
    pose proof (GetProxy_NoDup (ID p) (db w) q Hnd Hq Hid) as Hq'.
    rewrite Hp in Hq'. injection Hq' as ->. congruence.
  - intros Hne. unfold selectLeastUsedProxy.
    destruct (order_by_limit1_is_Some (least_used_le (db w)) _ Hne) as [p ->].
    simpl. eauto.
  - intros Hnil. unfold selectLeastUsedProxy. by rewrite Hnil.
Qed.

Lemma least_used_draws_from_healthy_witness :
  selectLeastUsedProxy None least_used_example_world ≠ Ok 1
  ∧ ∃ id, selectLeastUsedProxy None least_used_example_world = Ok id.
Proof.
  destruct (least_used_draws_from_healthy None least_used_example_world)
    as (_ & _ & Hbad & Hsome & _).
  split.
  - refine (Hbad _ (sample_proxy 1 ProxyStatusActive false 10) _ _).
    + simpl. apply NoDup_cons. split; [|apply NoDup_singleton].
      intros Hin%list_elem_of_singleton. discriminate.
    + apply list_elem_of_here.
    + reflexivity.
  - apply Hsome. discriminate.
Defined.

Lemma GetAvailableProxies_nil t d : candidates t d = [] → GetAvailableProxies t d = [].
Proof. unfold GetAvailableProxies. by intros ->. Qed.

(** C7. With no active proxy that passed its health check (of the type asked
    for), each of the four strategies gives the error for no available
    proxy, so does the dispatch for every strategy name, and [AssignProxy]
    without an explicit proxy fails with that error and writes nothing. *)
Theorem empty_pool_reports_no_available_proxy strategy t w :
  candidates t (db w) = [] →
  selectLeastUsedProxy t w = Err ErrNoAvailableProxies
  ∧ selectFastestProxy t w = Err ErrNoAvailableProxies
  ∧ selectRoundRobinProxy t w = (Err ErrNoAvailableProxies, w)
  ∧ selectBestProxy t w = Err ErrNoAvailableProxies
  ∧ selectProxyByStrategy strategy t w = (Err ErrNoAvailableProxies, w)
  ∧ ∀ now req, ReqProxyID req = None → ReqProxyType req = t →
      AssignProxy now req w
      = (Err "failed to select proxy: no available proxies found", w).
Proof.
  intros Hnil.
  assert (H1 : selectLeastUsedProxy t w = Err ErrNoAvailableProxies)
    by (unfold selectLeastUsedProxy; by rewrite Hnil).
  assert (H2 : selectFastestProxy t w = Err ErrNoAvailableProxies)
    by (unfold selectFastestProxy; by rewrite Hnil).
  assert (H3 : selectRoundRobinProxy t w = (Err ErrNoAvailableProxies, w))
    by (unfold selectRoundRobinProxy; by rewrite GetAvailableProxies_nil).
  assert (H4 : selectBestProxy t w = Err ErrNoAvailableProxies)
    by (unfold selectBestProxy; by rewrite Hnil).
  assert (H5 : ∀ s, selectProxyByStrategy s t w = (Err ErrNoAvailableProxies, w)).
  { intros s. unfold selectProxyByStrategy. repeat case_bool_decide; congruence. }
  repeat split; try done.
  intros now req Hid Hty. unfold AssignProxy. rewrite Hid, Hty, H5. reflexivity.
Qed.

Lemma empty_pool_reports_no_available_proxy_witness :
  selectLeastUsedProxy None no_healthy_world = Err ErrNoAvailableProxies
  ∧ selectFastestProxy None no_healthy_world = Err ErrNoAvailableProxies
  ∧ selectRoundRobinProxy None no_healthy_world = (Err ErrNoAvailableProxies, no_healthy_world)
  ∧ selectBestProxy None no_healthy_world = Err ErrNoAvailableProxies
  ∧ selectProxyByStrategy "round_robin" None no_healthy_world
    = (Err ErrNoAvailableProxies, no_healthy_world)
  ∧ ∀ now req, ReqProxyID req = None → ReqProxyType req = None →
      AssignProxy now req no_healthy_world
      = (Err "failed to select proxy: no available proxies found", no_healthy_world).
Proof.
  apply (empty_pool_reports_no_available_proxy "round_robin" None no_healthy_world).
  reflexivity.
Defined.

Lemma accounts_assigned_pointer now acc id rows a :
  a ∈ accounts_assigned now acc id rows → AccountID a = acc → proxy_id a = Some id.
Proof.
  intros (a0 & Hin & ->)%sql_update_elem_of_inv Hacc.
  destruct (bool_decide (AccountID a0 = acc)) eqn:E; [done|].
  apply bool_decide_eq_false in E. done.
Qed.

Lemma GetProxy_missing id d :
  id ∉ ID <$> proxies d → GetProxy id d = Err ErrProxyNotFound.
Proof.
  intros Hnot. unfold GetProxy. destruct (head _) as [p|] eqn:E; [|done].
  apply head_Some_elem_of, list_elem_of_filter in E as [Hid Hin].
  exfalso. apply Hnot. apply list_elem_of_fmap. eauto.
Qed.





(** ** Round robin *)

Lemma wrap64_small z : min_int64 ≤ z ≤ max_int64 → wrap64 z = z.
Proof.
  unfold wrap64, min_int64, max_int64. intros Hz.
  rewrite Z.mod_small; lia.
Qed.

(** One round-robin selection: the proxy at [cursor mod len], and
    [(cursor + 1) mod len] written back. *)
Lemma selectRoundRobinProxy_step t w :
  let pool := GetAvailableProxies t (db w) in
  let N := Z.of_nat (length pool) in
  N ≠ 0 → 0 ≤ cursor t w < max_int64 →
  ∃ p, pool !! Z.to_nat (cursor t w `mod` N) = Some p
     ∧ selectRoundRobinProxy t w
       = (Ok (ID p),
          with_rdb (with_round_robin (insert (round_robin_key t) ((cursor t w + 1) `mod` N))) w).
Proof.
  intros pool N HN Hc.
  assert (0 < N) as HN' by lia.
  pose proof (Z.mod_pos_bound (cursor t w) N HN') as Hb.
  destruct (lookup_lt_is_Some_2 pool (Z.to_nat (cursor t w `mod` N))) as [p Hp]; [lia|].
  exists p. split; [done|].
  unfold selectRoundRobinProxy. fold pool. fold N. fold (cursor t w).
  rewrite bool_decide_eq_false_2 by done.
  rewrite Z.rem_mod_nonneg by lia.
  rewrite bool_decide_eq_true_2 by lia.
  rewrite Hp.
  rewrite wrap64_small by (unfold min_int64, max_int64 in *; lia).
  rewrite Z.rem_mod_nonneg by lia. reflexivity.
Qed.

Lemma GetAvailableProxies_elem_of t d p :
  p ∈ GetAvailableProxies t d → p ∈ proxies d.
Proof.
  unfold GetAvailableProxies. rewrite merge_sort_Permutation.
  intros Hin%candidates_elem_of. tauto.
Qed.

Lemma AssignProxy_round_robin now req t w :
  let pool := GetAvailableProxies t (db w) in
  let N := Z.of_nat (length pool) in
  round_robin_call t (now, req) →
  N ≠ 0 → 0 ≤ cursor t w < max_int64 →
  ∃ p r w',
    pool !! Z.to_nat (cursor t w `mod` N) = Some p
    ∧ AssignProxy now req w = (r, w')
    ∧ assigned_proxy r = Some (ID p)
    ∧ proxies (db w') = proxies (db w)
    ∧ cursor t w' = (cursor t w + 1) `mod` N.
Proof.
  intros pool N (Hid & Hs & Hty) HN Hc. simpl in Hid, Hs, Hty.
  destruct (selectRoundRobinProxy_step t w HN Hc) as (p & Hp & Hsel).
  fold pool in Hp. fold N in Hp, Hsel.
  assert (p ∈ proxies (db w)) as Hin.
  { apply (GetAvailableProxies_elem_of t). by eapply list_elem_of_lookup_2. }
  destruct (GetProxy_elem_of (ID p) (db w) p Hin eq_refl) as [proxy Hproxy].
  exists p. eexists. eexists. split; [done|]. split.
  - unfold AssignProxy. rewrite Hid, Hs, Hty.
    rewrite bool_decide_eq_false_2 by done.
    unfold selectProxyByStrategy.
    rewrite !bool_decide_eq_false_2 by done.
    rewrite bool_decide_eq_true_2 by done.
    rewrite Hsel. simpl. rewrite Hproxy. reflexivity.
  - simpl. split; [done|]. split; [done|].
    unfold cursor. simpl. by rewrite lookup_insert_eq.
Qed.

(** The proxies chosen by a run of round-robin calls over a pool that stays
    the same, from cursor [c]. *)
Lemma assign_all_round_robin t pool : ∀ calls w,
  let N := Z.of_nat (length pool) in
  GetAvailableProxies t (db w) = pool →
  N ≠ 0 → N ≤ max_int64 → 0 ≤ cursor t w < max_int64 →
  Forall (round_robin_call t) calls →
  assigned_proxy <$> (assign_all calls w).1
  = (λ i, ID <$> pool !! Z.to_nat ((cursor t w + Z.of_nat i) `mod` N))
      <$> seq 0 (length calls).
Proof.
  induction calls as [|[now req] calls IH]; intros w N Hpool HN Hmax Hc Hall; [done|].
  apply Forall_cons in Hall as [Hcall Hall].
  assert (0 < N) as HN' by lia.
  destruct (AssignProxy_round_robin now req t w Hcall) as (p & r & w' & Hp & Ha & Hr & Hdb & Hcur).
  { by rewrite Hpool. }
  { done. }
  rewrite Hpool in Hp, Hcur. fold N in Hp, Hcur.
  pose proof (Z.mod_pos_bound (cursor t w + 1) N HN') as Hb.
  simpl assign_all. simpl fst. simpl snd. rewrite Ha.
  specialize (IH w').
  destruct (assign_all calls w') as [rs w''] eqn:E.
  cbn [fst length seq] in *. rewrite !fmap_cons.
  rewrite Hr. f_equal.
  - simpl. by rewrite Z.add_0_r, Hp.
  - rewrite IH; try done.
    + rewrite <- fmap_S_seq, <- list_fmap_compose.
      apply list_fmap_ext. intros i j _. simpl. rewrite Hcur.
      do 3 f_equal. rewrite Zplus_mod_idemp_l. f_equal. lia.
    + unfold GetAvailableProxies, candidates in *. by rewrite Hdb.
    + rewrite Hcur. lia.
Qed.

Lemma rotate_Permutation {A} n (l : list A) : rotate n l ≡ₚ l.
Proof.
  unfold rotate. rewrite Permutation_app_comm. by rewrite take_drop.
Qed.

Lemma ring_is_rotate (pool : list Proxy) c :
  0 ≤ c →
  (λ i, ID <$> pool !! Z.to_nat ((c + Z.of_nat i) `mod` Z.of_nat (length pool)))
    <$> seq 0 (length pool)
  = (λ p, Some (ID p)) <$> rotate (Z.to_nat c) pool.
Proof.
  intros Hc. apply list_eq. intros i. rewrite !list_lookup_fmap.
  destruct (decide (i < length pool)%nat) as [Hi|Hi].
  - rewrite lookup_seq_lt by done. rewrite lookup_rotate_r by done.
    unfold rotate_nat_add. rewrite Z2Nat.id by done. simpl.
    destruct (pool !! _) eqn:E; [done|].
    apply lookup_ge_None in E.
    pose proof (Z.mod_pos_bound (c + Z.of_nat i) (Z.of_nat (length pool))). lia.
  - rewrite lookup_ge_None_2 by (rewrite length_seq; lia).
    rewrite lookup_ge_None_2 by (rewrite length_rotate; lia). done.
Qed.

Lemma GetAvailableProxies_NoDup t d :
  NoDup (ID <$> proxies d) → NoDup (ID <$> GetAvailableProxies t d).
Proof.
  intros Hnd. unfold GetAvailableProxies. rewrite merge_sort_Permutation.
  eapply sublist_NoDup; [exact Hnd|].
  apply fmap_sublist. unfold candidates. apply sublist_filter.
Qed.

(** C5. Over the pool [GetAvailableProxies] returns (which the assignments
    themselves do not change), as many consecutive round-robin assignments
    as the pool has proxies are all served, by the pool's proxies in ring
    order from the cursor: every proxy exactly once.  Each selection takes
    the proxy at index [cursor mod len] (cursor 0 when the key is absent)
    and writes [(cursor + 1) mod len] back. *)
Theorem round_robin_visits_all t calls w :
  let pool := GetAvailableProxies t (db w) in
  let N := Z.of_nat (length pool) in
  NoDup (ID <$> proxies (db w)) →
  N ≤ max_int64 → 0 ≤ cursor t w < max_int64 →
  Forall (round_robin_call t) calls → length calls = length pool →
  let ids := assigned_proxy <$> (assign_all calls w).1 in
  ids = (λ p, Some (ID p)) <$> rotate (Z.to_nat (cursor t w)) pool
  ∧ ids ≡ₚ (λ p, Some (ID p)) <$> pool
  ∧ NoDup ids
  ∧ (N ≠ 0 →
     ∃ p, pool !! Z.to_nat (cursor t w `mod` N) = Some p
        ∧ selectRoundRobinProxy t w
          = (Ok (ID p),
             with_rdb (with_round_robin
               (insert (round_robin_key t) ((cursor t w + 1) `mod` N))) w)).
Proof.
  intros pool N Hnd Hmax Hc Hall Hlen ids.
  assert (Hids : ids = (λ p, Some (ID p)) <$> rotate (Z.to_nat (cursor t w)) pool).
  { subst ids. destruct (decide (N = 0)) as [HN|HN].
    - assert (pool = []) as Hnil by (apply nil_length_inv; lia).
      rewrite Hnil in *. destruct calls; [|simpl in Hlen; lia].
      unfold rotate. by rewrite drop_nil, take_nil.
    - rewrite (assign_all_round_robin t pool calls w); try done.
      rewrite Hlen. apply ring_is_rotate. lia. }
  assert (Hperm : ids ≡ₚ (λ p, Some (ID p)) <$> pool).
  { rewrite Hids. by rewrite rotate_Permutation. }
  split; [exact Hids|]. split; [exact Hperm|]. split.
  - rewrite Hperm. rewrite (list_fmap_compose ID Some).
    apply (NoDup_fmap_2 Some). by apply GetAvailableProxies_NoDup.
  - intros HN. by apply selectRoundRobinProxy_step.
Qed.

Lemma round_robin_visits_all_witness :
  let pool := GetAvailableProxies None (db round_robin_example_world) in
  let ids := assigned_proxy <$> (assign_all round_robin_example_calls
                                   round_robin_example_world).1 in
  ids = (λ p, Some (ID p)) <$> rotate (Z.to_nat (cursor None round_robin_example_world)) pool
  ∧ ids ≡ₚ (λ p, Some (ID p)) <$> pool
  ∧ NoDup ids
  ∧ (Z.of_nat (length pool) ≠ 0 →
     ∃ p, pool !! Z.to_nat (cursor None round_robin_example_world
                            `mod` Z.of_nat (length pool)) = Some p
        ∧ selectRoundRobinProxy None round_robin_example_world
          = (Ok (ID p),
             with_rdb (with_round_robin
               (insert (round_robin_key None)
                  ((cursor None round_robin_example_world + 1)
                   `mod` Z.of_nat (length pool)))) round_robin_example_world)).
Proof.
  apply (round_robin_visits_all None round_robin_example_calls round_robin_example_world).
  - eapply bool_decide_eq_true_1. reflexivity.
  - change (3 ≤ 9223372036854775807). lia.
  - change (0 ≤ 0 < 9223372036854775807). lia.
  - repeat constructor.
  - reflexivity.
Defined.

(** The three assignments of the example, in order of response time. *)
Example round_robin_example_order :
  assigned_proxy <$> (assign_all round_robin_example_calls round_robin_example_world).1
  = [Some 2; Some 3; Some 1].
Proof. reflexivity. Qed.

(** * Further properties of the registry, the pool and the sweep *)

(** ** The pool listing and the fastest strategy *)

Lemma sorted_lookup {A} (R : relation A) (l : list A) : ∀ i j x y,
  StronglySorted R l → (i < j)%nat → l !! i = Some x → l !! j = Some y → R x y.
Proof.
  induction l as [|a l IH]; intros i j x y Hs Hij Hi Hj; [done|].
  apply StronglySorted_inv in Hs as [Hs Hall].
  destruct j as [|j]; [lia|]. simpl in Hj.
  destruct i as [|i]; simpl in Hi.
  - injection Hi as <-. rewrite Forall_forall in Hall. apply Hall.
    by eapply list_elem_of_lookup_2.
  - eapply IH; [done| |done..]. lia.
Qed.

Lemma same_id_same_row d p q :
  NoDup (ID <$> proxies d) → p ∈ proxies d → q ∈ proxies d → ID p = ID q → p = q.
Proof.
  intros Hnd Hp Hq Hid.
  pose proof (GetProxy_NoDup (ID p) d p Hnd Hp eq_refl) as H1.
  pose proof (GetProxy_NoDup (ID p) d q Hnd Hq (eq_sym Hid)) as H2.
  congruence.
Qed.

Lemma GetAvailableProxies_elem_of_iff t d p :
  p ∈ GetAvailableProxies t d ↔
  p ∈ proxies d ∧ Status p = ProxyStatusActive ∧ HealthCheckSuccess p = true
  ∧ type_matches t p.
Proof.
  unfold GetAvailableProxies. rewrite merge_sort_Permutation. apply candidates_elem_of.
Qed.

(** X1.  [GetAvailableProxies] lists the rows that are active, healthy and of the
    requested type, each as often as the table holds it, in ascending order
    of response time; the listing for a type is the part of that type of the
    listing for all types. *)
Theorem GetAvailableProxies_lists_candidates_by_response_time t d :
  GetAvailableProxies t d ≡ₚ filter (available t) (proxies d)
  ∧ (∀ p, p ∈ GetAvailableProxies t d ↔
       p ∈ proxies d ∧ Status p = ProxyStatusActive ∧ HealthCheckSuccess p = true
       ∧ type_matches t p)
  ∧ (∀ i j p q, (i ≤ j)%nat →
       GetAvailableProxies t d !! i = Some p → GetAvailableProxies t d !! j = Some q →
       ResponseTimeMs p ≤ ResponseTimeMs q)
  ∧ (∀ ty p, p ∈ GetAvailableProxies (Some ty) d ↔
       p ∈ GetAvailableProxies None d ∧ PType p = ty).
Proof.
  pose proof (λ t', GetAvailableProxies_elem_of_iff t' d) as Hmem.
  split; [|split; [|split]].
  - unfold GetAvailableProxies, candidates. apply merge_sort_Permutation.
  - apply Hmem.
  - intros i j p q Hij Hi Hj.
    destruct (decide (i = j)) as [->|Hne].
    + rewrite Hi in Hj. injection Hj as ->. lia.
    + eapply (sorted_lookup response_time_le); [|  |exact Hi|exact Hj].
      * unfold GetAvailableProxies. apply (StronglySorted_merge_sort _).
      * lia.
  - intros ty p. rewrite !Hmem. simpl. tauto.
Qed.

(** X2.  The fastest strategy returns an active, healthy proxy of the
    requested type whose response time no candidate beats; which one, when
    several have that response time, is not determined.  It fails only when
    there is no candidate. *)
Theorem fastest_selects_least_response_time t w :
  selectProxyByStrategy "fastest" t w = (selectFastestProxy t w, w)
  ∧ (∀ id, selectFastestProxy t w = Ok id →
     ∃ p, ID p = id ∧ p ∈ proxies (db w)
          ∧ Status p = ProxyStatusActive ∧ HealthCheckSuccess p = true ∧ type_matches t p
          ∧ ∀ q, q ∈ candidates t (db w) → ResponseTimeMs p ≤ ResponseTimeMs q)
  ∧ (candidates t (db w) ≠ [] → ∃ id, selectFastestProxy t w = Ok id)
  ∧ (candidates t (db w) = [] → selectFastestProxy t w = Err ErrNoAvailableProxies).
Proof.
  split; [done|]. split; [|split].
  - intros id (p & Hrow & Hid)%scan_id_Ok.
    apply order_by_limit1_Some in Hrow as [Hin Hmin]; [|apply _..].
    apply candidates_elem_of in Hin as Hin'. destruct Hin' as (H1 & H2 & H3 & H4).
    exists p. repeat (split; [done|]). exact Hmin.
  - intros Hne. unfold selectFastestProxy.
    destruct (order_by_limit1_is_Some response_time_le _ Hne) as [x ->]. by exists (ID x).
  - intros Hnil. unfold selectFastestProxy. by rewrite Hnil.
Qed.

(** ** What a sweep probes, and the pool it leaves *)

Global Instance last_check_le_trans : Transitive last_check_le.
Proof.
  unfold last_check_le. intros p q r.
  destruct (LastHealthCheck p), (LastHealthCheck q), (LastHealthCheck r); try done. lia.
Qed.

Global Instance last_check_le_total : Total last_check_le.
Proof.
  unfold last_check_le. intros p q.
  destruct (LastHealthCheck p), (LastHealthCheck q); try tauto. lia.
Qed.

Lemma getActiveProxies_NoDup d :
  NoDup (ID <$> proxies d) → NoDup (ID <$> getActiveProxies d).
Proof.
  intros Hnd. unfold getActiveProxies. rewrite merge_sort_Permutation.
  eapply sublist_NoDup; [exact Hnd|]. apply fmap_sublist, sublist_filter.
Qed.

(** A health check writes to table [proxies] only. *)
Lemma checkProxyHealth_accounts env now res p w :
  accounts (db (checkProxyHealth env now res p w)) = accounts (db w).
Proof.
  unfold checkProxyHealth, handleProxyFailure, handleProxySuccess.
  destruct (probe_err res); simpl.
  - destruct (redis_incr _ _ _) as [[f m]|]; simpl; [|done].
    by destruct (f >=? _).
  - by destruct (bool_decide _).
Qed.

Lemma check_all_accounts env now probe ps : ∀ w,
  accounts (db (foldl (λ w p, checkProxyHealth env now (probe p) p w) w ps))
  = accounts (db w).
Proof.
  induction ps as [|p ps IH]; intros w; [done|].
  simpl. rewrite IH. apply checkProxyHealth_accounts.
Qed.

(** A sweep adds and removes no proxy row and leaves the accounts alone. *)
Lemma runHealthCheckCycle_stores env now probe w :
  let w' := runHealthCheckCycle env now probe w in
  ID <$> proxies (db w') = ID <$> proxies (db w)
  ∧ accounts (db w') = accounts (db w).
Proof.
  intros w'. subst w'. unfold runHealthCheckCycle. simpl.
  destruct (bool_decide (length _ = _)); simpl; [done|].
  destruct (bool_decide (_ < 1)); simpl; [done|].
  destruct (check_all_frame env now probe (getActiveProxies (db w))
              (log_event (LogCycleChecking (length (getActiveProxies (db w))))
                 (log_event LogCycleStart w))) as (_ & H2 & _).
  split; [by rewrite H2|]. by rewrite check_all_accounts.
Qed.

(** With room in the semaphore, the checks a sweep logs. *)
Lemma runHealthCheckCycle_probed env now probe w :
  1 ≤ GetEnvAsInt env "MAX_CONCURRENT_HEALTH_CHECKS" 10 →
  probed_ids (logs (runHealthCheckCycle env now probe w))
  = (probed_ids (logs w) ++ (ID <$> getActiveProxies (db w)))%list.
Proof.
  intros Hroom. unfold runHealthCheckCycle. simpl.
  destruct (bool_decide_reflect (length (getActiveProxies (db w)) = 0%nat)) as [Hlen|Hlen];
    simpl.
  - apply nil_length_inv in Hlen. rewrite Hlen. rewrite !probed_ids_app. simpl.
    by rewrite !app_nil_r.
  - rewrite bool_decide_eq_false_2 by lia. simpl.
    destruct (check_all_frame env now probe (getActiveProxies (db w))
                (log_event (LogCycleChecking (length (getActiveProxies (db w))))
                   (log_event LogCycleStart w))) as (_ & _ & H3).
    rewrite probed_ids_app, H3. simpl. rewrite !probed_ids_app. simpl.
    by rewrite !app_nil_r.
Qed.

(** Without room in the semaphore no check is made. *)
Lemma runHealthCheckCycle_blocked env now probe w :
  GetEnvAsInt env "MAX_CONCURRENT_HEALTH_CHECKS" 10 < 1 →
  let w' := runHealthCheckCycle env now probe w in
  probed_ids (logs w') = probed_ids (logs w) ∧ db w' = db w ∧ rdb w' = rdb w.
Proof.
  intros Hroom w'. subst w'. unfold runHealthCheckCycle. simpl.
  destruct (bool_decide (length _ = _)); simpl.
  - rewrite !probed_ids_app. simpl. by rewrite !app_nil_r.
  - rewrite bool_decide_eq_true_2 by done. simpl.
    rewrite !probed_ids_app. simpl. by rewrite !app_nil_r.
Qed.

(** X3.  With room in the semaphore (MAX_CONCURRENT_HEALTH_CHECKS at least
    1, as by default), a sweep checks exactly the proxies that are active
    when it starts, each once: the checks it logs are the ids of those
    proxies, in some order.  Without room it checks no proxy and changes
    neither store.  The query hands the active proxies to the sweep with
    the never-checked first and then the longest unchecked.  In every case
    the sweep adds and removes no row and leaves the accounts alone, and
    when no proxy is active it changes neither store. *)
Theorem sweep_probes_each_active_proxy_once env now probe w :
  let w' := runHealthCheckCycle env now probe w in
  let active := getActiveProxies (db w) in
  let room := GetEnvAsInt env "MAX_CONCURRENT_HEALTH_CHECKS" 10 in
  (1 ≤ room →
     ∃ new, probed_ids (logs w') = (probed_ids (logs w) ++ new)%list
          ∧ new ≡ₚ ID <$> active)
  ∧ (room < 1 →
     probed_ids (logs w') = probed_ids (logs w) ∧ db w' = db w ∧ rdb w' = rdb w)
  ∧ active ≡ₚ filter (λ p, Status p = ProxyStatusActive) (proxies (db w))
  ∧ (∀ i j p q, (i < j)%nat → active !! i = Some p → active !! j = Some q →
       last_check_le p q)
  ∧ (NoDup (ID <$> proxies (db w)) → NoDup (ID <$> active))
  ∧ ID <$> proxies (db w') = ID <$> proxies (db w)
  ∧ accounts (db w') = accounts (db w)
  ∧ (active = [] → db w' = db w ∧ rdb w' = rdb w).
Proof.
  intros w' active room.
  destruct (runHealthCheckCycle_stores env now probe w) as (Hids & Hacc).
  fold w' in Hids, Hacc.
  split; [|split; [|split; [|split; [|split; [|split; [|split]]]]]].
  - intros Hroom. exists (ID <$> active). split; [|done].
    by apply runHealthCheckCycle_probed.
  - intros Hroom. by apply runHealthCheckCycle_blocked.
  - apply merge_sort_Permutation.
  - intros i j p q Hij Hi Hj.
    eapply (sorted_lookup last_check_le); [|exact Hij|exact Hi|exact Hj].
    apply (StronglySorted_merge_sort _).
  - apply getActiveProxies_NoDup.
  - done.
  - done.
  - intros Hnil. subst w' active. unfold runHealthCheckCycle. simpl.
    rewrite Hnil. done.
Qed.

Lemma sweep_probes_each_active_proxy_once_witness :
  let w' := runHealthCheckCycle default_env 0 proxy_1_fails example_world in
  (∃ new, probed_ids (logs w') = (probed_ids (logs example_world) ++ new)%list
        ∧ new ≡ₚ ID <$> getActiveProxies (db example_world))
  ∧ ID <$> getActiveProxies (db example_world) = [1; 2]
  ∧ probed_ids
      (logs (runHealthCheckCycle zero_room_env 0 proxy_1_fails example_world)) = [].
Proof.
  destruct (sweep_probes_each_active_proxy_once default_env 0 proxy_1_fails example_world)
    as (H1 & _).
  destruct (sweep_probes_each_active_proxy_once zero_room_env 0 proxy_1_fails example_world)
    as (_ & H2 & _).
  split; [apply H1; by vm_compute|]. split; [reflexivity|].
  apply H2. by vm_compute.
Defined.

Lemma sql_update_elem_of_hit {A} (cond : A → bool) (set : A → A) rows r :
  r ∈ rows → cond r = true → set r ∈ sql_update cond set rows.
Proof.
  intros Hin Hc. unfold sql_update. apply list_elem_of_fmap.
  exists r. by rewrite Hc.
Qed.

Lemma set_health_rows id s ms now rows r :
  r ∈ sql_update (id_is id) (set_health s ms now) rows → ID r = id →
  HealthCheckSuccess r = s.
Proof.
  intros (r0 & Hin & ->)%sql_update_elem_of_inv Hid.
  destruct (id_is id r0) eqn:E; [done|]. by apply id_is_false in E.
Qed.

Lemma set_status_rows id st now rows r :
  r ∈ sql_update (id_is id) (set_status st now) rows →
  ∃ r0, r0 ∈ rows ∧ ID r0 = ID r ∧ HealthCheckSuccess r0 = HealthCheckSuccess r.
Proof.
  intros (r0 & Hin & ->)%sql_update_elem_of_inv. exists r0.
  by destruct (id_is id r0).
Qed.

(** A passed check of a row that is not in error rewrites the health columns
    of that proxy and nothing else of the table. *)
Lemma checkProxyHealth_pass_rows env now res p w :
  probe_err res = None → Status p ≠ ProxyStatusError →
  proxies (db (checkProxyHealth env now res p w))
  = sql_update (id_is (ID p)) (set_health true (probe_ms res) now) (proxies (db w)).
Proof.
  intros Hr Hst. rewrite checkProxyHealth_success by done.
  unfold handleProxySuccess. rewrite bool_decide_eq_false_2 by done. reflexivity.
Qed.

(** After a failed check every row of the proxy is marked unhealthy. *)
Lemma checkProxyHealth_fail_rows env now res p w r :
  probe_err res ≠ None →
  r ∈ proxies (db (checkProxyHealth env now res p w)) → ID r = ID p →
  HealthCheckSuccess r = false.
Proof.
  intros Hr. destruct (probe_err res) as [err|] eqn:Herr; [|done].
  rewrite (checkProxyHealth_failure _ _ _ _ _ err) by done.
  unfold handleProxyFailure.
  destruct (redis_incr _ _ _) as [[f m]|]; simpl.
  - destruct (f >=? _); simpl.
    + intros (r0 & Hin & Hid & <-)%set_status_rows Hid'.
      eapply set_health_rows; [exact Hin|congruence].
    + apply set_health_rows.
  - apply set_health_rows.
Qed.

Lemma check_all_back env now probe ps : ∀ w r,
  r ∈ proxies (db (foldl (λ w p, checkProxyHealth env now (probe p) p w) w ps)) →
  ID r ∉ ID <$> ps → r ∈ proxies (db w).
Proof.
  induction ps as [|p ps IH]; intros w r Hin Hid; [done|].
  simpl in Hin. rewrite fmap_cons, not_elem_of_cons in Hid. destruct Hid as [Hne Hid].
  apply IH in Hin; [|done].
  destruct (checkProxyHealth_other env now (probe p) p w (ID r)) as (_ & _ & _ & Hback & _).
  - congruence.
  - by apply Hback.
Qed.

(** The row of a proxy the sweep checks, after the sweep ([id] being the
    key of the table). *)
Lemma check_all_row env now probe ps p w :
  NoDup (ID <$> ps) → NoDup (ID <$> proxies (db w)) →
  p ∈ ps → p ∈ proxies (db w) → Status p = ProxyStatusActive →
  let w' := foldl (λ w p, checkProxyHealth env now (probe p) p w) w ps in
  (probe_err (probe p) = None →
     set_health true (probe_ms (probe p)) now p ∈ proxies (db w')
     ∧ ∀ r, r ∈ proxies (db w') → ID r = ID p →
            r = set_health true (probe_ms (probe p)) now p)
  ∧ (probe_err (probe p) ≠ None →
     ∀ r, r ∈ proxies (db w') → ID r = ID p → HealthCheckSuccess r = false).
Proof.
  intros Hndp Hnd Hp Hin Hact w'. subst w'.
  apply list_elem_of_split in Hp as (l1 & l2 & ->).
  rewrite fmap_app, fmap_cons in Hndp.
  apply NoDup_app in Hndp as (_ & Hl1 & Hndp).
  apply NoDup_cons in Hndp as [Hl2 _].
  assert (ID p ∉ ID <$> l1) as Hl1'.
  { intros Hc. eapply Hl1; [exact Hc|]. apply list_elem_of_here. }
  rewrite foldl_app. simpl.
  destruct (check_all_frame env now probe l1 w) as (Hf1 & Hids1 & _).
  set (w1 := foldl (λ w p, checkProxyHealth env now (probe p) p w) w l1) in *.
  assert (p ∈ proxies (db w1)) as Hin1 by (by apply Hf1).
  assert (NoDup (ID <$> proxies (db w1))) as Hnd1 by (by rewrite Hids1).
  destruct (check_all_frame env now probe l2 (checkProxyHealth env now (probe p) p w1))
    as (Hf2 & _ & _).
  split.
  - intros Hpass.
    assert (Status p ≠ ProxyStatusError) as Hst by (by rewrite Hact).
    pose proof (checkProxyHealth_pass_rows env now (probe p) p w1 Hpass Hst) as Hrows.
    split.
    + apply Hf2; [|done]. rewrite Hrows.
      apply sql_update_elem_of_hit; [done|]. by apply id_is_true.
    + intros r Hr Hid. apply check_all_back in Hr; [|congruence].
      rewrite Hrows in Hr. apply sql_update_elem_of_inv in Hr as (r0 & Hr0 & ->).
      destruct (id_is (ID p) r0) eqn:E.
      * apply id_is_true in E.
        by rewrite (same_id_same_row (db w1) r0 p Hnd1 Hr0 Hin1 E).
      * apply id_is_false in E. done.
  - intros Hfail r Hr Hid. apply check_all_back in Hr; [|congruence].
    by eapply checkProxyHealth_fail_rows.
Qed.

Lemma runHealthCheckCycle_db env now probe w :
  1 ≤ GetEnvAsInt env "MAX_CONCURRENT_HEALTH_CHECKS" 10 →
  ∃ w0, db w0 = db w
    ∧ db (runHealthCheckCycle env now probe w)
      = db (foldl (λ w p, checkProxyHealth env now (probe p) p w) w0
              (getActiveProxies (db w))).
Proof.
  intros Hroom. unfold runHealthCheckCycle. simpl.
  destruct (bool_decide_reflect (length (getActiveProxies (db w)) = 0%nat)) as [Hlen|Hlen].
  - exists w. apply nil_length_inv in Hlen. by rewrite Hlen.
  - rewrite bool_decide_eq_false_2 by lia.
    by eexists (log_event _ (log_event LogCycleStart w)).
Qed.

(** The rows of the table after a sweep ([id] being the key). *)
Lemma runHealthCheckCycle_rows env now probe w :
  1 ≤ GetEnvAsInt env "MAX_CONCURRENT_HEALTH_CHECKS" 10 →
  NoDup (ID <$> proxies (db w)) →
  let w' := runHealthCheckCycle env now probe w in
  NoDup (ID <$> proxies (db w'))
  ∧ ID <$> proxies (db w') = ID <$> proxies (db w)
  ∧ (∀ p, p ∈ proxies (db w) → Status p = ProxyStatusActive →
      (probe_err (probe p) = None →
         set_health true (probe_ms (probe p)) now p ∈ proxies (db w'))
      ∧ (probe_err (probe p) ≠ None →
         ∀ r, r ∈ proxies (db w') → ID r = ID p → HealthCheckSuccess r = false))
  ∧ (∀ p, p ∈ proxies (db w) → Status p ≠ ProxyStatusActive → p ∈ proxies (db w')).
Proof.
  intros Hroom Hnd w'. subst w'.
  destruct (runHealthCheckCycle_db env now probe w Hroom) as (w0 & Hdb0 & ->).
  set (ps := getActiveProxies (db w)).
  set (w' := foldl (λ w p, checkProxyHealth env now (probe p) p w) w0 ps).
  assert (NoDup (ID <$> ps)) as Hndp by (by apply getActiveProxies_NoDup).
  assert (NoDup (ID <$> proxies (db w0))) as Hnd0 by (by rewrite Hdb0).
  destruct (check_all_frame env now probe ps w0) as (Hfwd & Hids & _). fold w' in Hfwd, Hids.
  split; [by rewrite Hids|]. split; [by rewrite Hids, Hdb0|]. split.
  - intros p Hin Hact.
    destruct (check_all_row env now probe ps p w0) as [Hpass Hfail]; try done.
    + by apply getActiveProxies_elem_of.
    + by rewrite Hdb0.
    + split; [|done]. intros Hp. by destruct (Hpass Hp).
  - intros p Hin Hst. apply Hfwd; [by rewrite Hdb0|]. by apply not_active_not_selected.
Qed.

(** X4.  After a sweep that has room in its semaphore
    (MAX_CONCURRENT_HEALTH_CHECKS at least 1, as by default) the pool of
    available proxies is exactly the set of proxies that were active when
    the sweep started and whose connection test passed ([id] being the key
    of the table): a proxy that failed this one test is out of the pool at
    once, whatever its failure count, and a proxy that was unhealthy and
    passed is back in.  The row of a proxy that passed holds the new
    response time; a row that is not active is left as it is. *)
Theorem sweep_pool_is_the_passing_active_proxies env now probe w :
  1 ≤ GetEnvAsInt env "MAX_CONCURRENT_HEALTH_CHECKS" 10 →
  NoDup (ID <$> proxies (db w)) →
  let w' := runHealthCheckCycle env now probe w in
  (∀ t id, id ∈ ID <$> GetAvailableProxies t (db w') ↔
      ∃ p, p ∈ proxies (db w) ∧ ID p = id ∧ Status p = ProxyStatusActive
           ∧ type_matches t p ∧ probe_err (probe p) = None)
  ∧ (∀ p, p ∈ proxies (db w) → Status p = ProxyStatusActive →
       probe_err (probe p) = None →
       GetProxy (ID p) (db w') = Ok (set_health true (probe_ms (probe p)) now p))
  ∧ (∀ p, p ∈ proxies (db w) → Status p = ProxyStatusActive →
       probe_err (probe p) ≠ None →
       ∃ r, GetProxy (ID p) (db w') = Ok r ∧ HealthCheckSuccess r = false)
  ∧ (∀ p, p ∈ proxies (db w) → Status p ≠ ProxyStatusActive →
       GetProxy (ID p) (db w') = Ok p).
Proof.
  intros Hroom Hnd w'.
  destruct (runHealthCheckCycle_rows env now probe w Hroom Hnd)
    as (Hnd' & Hids & Hrow & Hkeep).
  fold w' in Hnd', Hids, Hrow, Hkeep.
  split; [|split; [|split]].
  - intros t id. split.
    + intros (r & -> & Hr)%list_elem_of_fmap.
      apply GetAvailableProxies_elem_of_iff in Hr as (Hr & Hact & Hok & Hty).
      assert (ID r ∈ ID <$> proxies (db w)) as (p & Hid & Hp)%list_elem_of_fmap.
      { rewrite <- Hids. apply list_elem_of_fmap. eauto. }
      destruct (decide (Status p = ProxyStatusActive)) as [Hpa|Hpa].
      * destruct (Hrow p Hp Hpa) as [Hpass Hfail].
        destruct (probe_err (probe p)) as [err|] eqn:Herr.
        -- rewrite (Hfail ltac:(done) r Hr Hid) in Hok. done.
        -- exists p. split; [done|]. split; [done|]. split; [done|]. split; [|done].
           rewrite (same_id_same_row (db w') r _ Hnd' Hr (Hpass eq_refl) Hid) in Hty.
           by destruct t.
      * pose proof (Hkeep p Hp Hpa) as Hp'.
        rewrite (same_id_same_row (db w') r p Hnd' Hr Hp' Hid) in Hact. done.
    + intros (p & Hp & <- & Hact & Hty & Hpass).
      destruct (Hrow p Hp Hact) as [Hin _].
      apply list_elem_of_fmap. exists (set_health true (probe_ms (probe p)) now p).
      split; [done|].
      apply GetAvailableProxies_elem_of_iff.
      split; [by apply Hin|]. split; [done|]. split; [done|]. by destruct t.
  - intros p Hp Hact Hpass. destruct (Hrow p Hp Hact) as [Hin _].
    apply GetProxy_NoDup; [done|by apply Hin|done].
  - intros p Hp Hact Hfail. destruct (Hrow p Hp Hact) as [_ Hf].
    assert (ID p ∈ ID <$> proxies (db w')) as (r & Hid & Hr)%list_elem_of_fmap.
    { rewrite Hids. apply list_elem_of_fmap. eauto. }
    exists r. split; [by apply GetProxy_NoDup|]. apply Hf; [done|done|by symmetry].
  - intros p Hp Hst. apply GetProxy_NoDup; try done. by apply Hkeep.
Qed.

Lemma sweep_pool_is_the_passing_active_proxies_witness :
  let w' := runHealthCheckCycle default_env 0 proxy_1_fails example_world in
  (∀ t id, id ∈ ID <$> GetAvailableProxies t (db w') ↔
      ∃ p, p ∈ proxies (db example_world) ∧ ID p = id ∧ Status p = ProxyStatusActive
           ∧ type_matches t p ∧ probe_err (proxy_1_fails p) = None)
  ∧ ID <$> GetAvailableProxies None (db w') = [2].
Proof.
  split; [|reflexivity].
  apply (sweep_pool_is_the_passing_active_proxies default_env 0 proxy_1_fails example_world).
  - by vm_compute.
  - eapply bool_decide_eq_true_1. reflexivity.
Defined.

(** ** Manual tests *)



(** ** Deleting and releasing *)

Lemma sql_update_none {A} (cond : A → bool) (set : A → A) rows :
  (∀ r, r ∈ rows → cond r = false) → sql_update cond set rows = rows.
Proof.
  unfold sql_update. induction rows as [|r rows IH]; intros Hc; [done|].
  rewrite fmap_cons, (Hc r) by apply list_elem_of_here.
  f_equal. apply IH. intros r' Hr'. apply Hc. by apply list_elem_of_further.
Qed.


Lemma isProxyInUse_true id d :
  isProxyInUse id d = true ↔ ∃ a, a ∈ accounts d ∧ proxy_id a = Some id.
Proof. unfold isProxyInUse. rewrite bool_decide_eq_true. apply Exists_exists. Qed.

Lemma isProxyInUse_false id d :
  isProxyInUse id d = false ↔ ∀ a, a ∈ accounts d → proxy_id a ≠ Some id.
Proof.
  unfold isProxyInUse. rewrite bool_decide_eq_false, <- Forall_Exists_neg, Forall_forall.
  done.
Qed.

Lemma DeleteProxy_unused now id w :
  id ∈ ID <$> proxies (db w) → (∀ a, a ∈ accounts (db w) → proxy_id a ≠ Some id) →
  DeleteProxy now id w
  = (Ok (), with_db (with_proxies (filter (λ p, ID p ≠ id))) w).
Proof.
  intros (p & Hid & Hp)%list_elem_of_fmap Hfree. unfold DeleteProxy.
  destruct (GetProxy_elem_of id (db w) p Hp (eq_sym Hid)) as [r' ->].
  rewrite (proj2 (isProxyInUse_false id (db w))) by done.
  f_equal. unfold with_db, sql_delete_proxy, with_proxies. f_equal. f_equal.
  apply sql_update_none. intros a Ha. apply bool_decide_eq_false. by apply Hfree.
Qed.

Lemma DeleteProxy_in_use now id w :
  id ∈ ID <$> proxies (db w) → (∃ a, a ∈ accounts (db w) ∧ proxy_id a = Some id) →
  DeleteProxy now id w = (Err ErrProxyInUse, w).
Proof.
  intros (p & Hid & Hp)%list_elem_of_fmap Hused. unfold DeleteProxy.
  destruct (GetProxy_elem_of id (db w) p Hp (eq_sym Hid)) as [r' ->].
  by rewrite (proj2 (isProxyInUse_true id (db w))).
Qed.




(** X8.  A proxy that has just been assigned to an existing account cannot be
    deleted; once that account is released, and no other account points to
    the proxy, the deletion goes through and the proxy is gone. *)
Theorem assigned_proxy_is_deleted_only_after_release now now1 now2 req id w :
  ReqProxyID req = Some id →
  id ∈ ID <$> proxies (db w) →
  ReqAccountID req ∈ AccountID <$> accounts (db w) →
  let w1 := (AssignProxy now req w).2 in
  let w2 := ReleaseProxy now1 (ReqAccountID req) w1 in
  DeleteProxy now1 id w1 = (Err ErrProxyInUse, w1)
  ∧ ((∀ a, a ∈ accounts (db w) → proxy_id a = Some id → AccountID a = ReqAccountID req) →
     (DeleteProxy now2 id w2).1 = Ok ()
     ∧ GetProxy id (db (DeleteProxy now2 id w2).2) = Err ErrProxyNotFound).
Proof.
  intros Hreq Hid Hacc w1 w2.
  assert (w1 = with_db (with_accounts (accounts_assigned now (ReqAccountID req) id)) w)
    as Hw1.
  { subst w1. unfold AssignProxy. rewrite Hreq.
    apply list_elem_of_fmap in Hid as (p & Hp & Hin).
    destruct (GetProxy_elem_of id (db w) p Hin (eq_sym Hp)) as [r' ->]. done. }
  clearbody w1. subst w1 w2.
  split.
  - apply DeleteProxy_in_use; [done|].
    apply list_elem_of_fmap in Hacc as (a & Ha & Hin).
    exists (set_proxy_id (Some id) now a). split; [|done].
    simpl. apply sql_update_elem_of_hit; [done|]. by apply bool_decide_eq_true.
  - intros Honly.
    set (w2 := ReleaseProxy now1 (ReqAccountID req) _).
    assert (id ∈ ID <$> proxies (db w2)) as Hid2 by done.
    assert (∀ a, a ∈ accounts (db w2) → proxy_id a ≠ Some id) as Hfree.
    { intros a. subst w2. unfold ReleaseProxy. simpl.
      intros (a1 & Ha1 & ->)%sql_update_elem_of_inv.
      destruct (bool_decide_reflect (AccountID a1 = ReqAccountID req)) as [He|He]; [done|].
      apply sql_update_elem_of_inv in Ha1 as (a0 & Ha0 & ->).
      destruct (bool_decide_reflect (AccountID a0 = ReqAccountID req)) as [He0|He0];
        [done|].
      intros Hp. by apply He0, Honly. }
    rewrite (DeleteProxy_unused now2 id w2 Hid2 Hfree). simpl. split; [done|].
    apply GetProxy_missing. simpl.
    intros (p & Hp & Hin)%list_elem_of_fmap. apply list_elem_of_filter in Hin as [Hne _].
    by apply Hne.
Qed.

Lemma assigned_proxy_is_deleted_only_after_release_witness :
  let w1 := (AssignProxy 7 (explicit_request 1) explicit_example_world).2 in
  let w2 := ReleaseProxy 8 10 w1 in
  DeleteProxy 8 1 w1 = (Err ErrProxyInUse, w1)
  ∧ (DeleteProxy 9 1 w2).1 = Ok ()
  ∧ GetProxy 1 (db (DeleteProxy 9 1 w2).2) = Err ErrProxyNotFound.
Proof.
  assert (1 ∈ ID <$> proxies (db explicit_example_world)) as H1.
  { eapply bool_decide_eq_true_1. reflexivity. }
  assert (ReqAccountID (explicit_request 1)
          ∈ AccountID <$> accounts (db explicit_example_world)) as H2.
  { eapply bool_decide_eq_true_1. reflexivity. }
  destruct (assigned_proxy_is_deleted_only_after_release 7 8 9 (explicit_request 1) 1
              explicit_example_world eq_refl H1 H2) as [Ha Hb].
  split; [exact Ha|]. apply Hb.
  intros a Ha' Hp. apply list_elem_of_singleton in Ha' as ->. done.
Defined.

(** ** Counts *)

Section counting.
Context {A : Type}.
Implicit Types (P Q : A → Prop) (rows : list A).

Lemma count_rows_nonneg P `{∀ x, Decision (P x)} rows : 0 ≤ count_rows P rows.
Proof. unfold count_rows. lia. Qed.

Lemma count_rows_le_length P `{∀ x, Decision (P x)} rows :
  count_rows P rows ≤ Z.of_nat (length rows).
Proof. unfold count_rows. pose proof (length_filter P rows). lia. Qed.

Lemma count_rows_iff P Q `{∀ x, Decision (P x)} `{∀ x, Decision (Q x)} rows :
  (∀ x, P x ↔ Q x) → count_rows P rows = count_rows Q rows.
Proof. intros HPQ. unfold count_rows. by rewrite (list_filter_iff P Q). Qed.


Lemma count_rows_split P Q `{∀ x, Decision (P x)} `{∀ x, Decision (Q x)} rows :
  count_rows P rows
  = count_rows (λ x, P x ∧ Q x) rows + count_rows (λ x, P x ∧ ¬ Q x) rows.
Proof.
  unfold count_rows. induction rows as [|a rows IH]; [done|].
  rewrite !filter_cons. repeat case_decide; simpl length; try lia; tauto.
Qed.
End counting.


Lemma total_accounts_Permutation l1 l2 :
  l1 ≡ₚ l2 → total_accounts l1 = total_accounts l2.
Proof.
  unfold total_accounts. induction 1; simpl; lia.
Qed.

(** The accounts of all proxies together, counted proxy by proxy. *)
Lemma usage_count_cons a acs ps :
  foldr (λ p n, usage_count {| proxies := ps; accounts := a :: acs |} p + n) 0 ps
  = Z.of_nat (length (filter (λ p, proxy_id a = Some (ID p)) ps))
    + foldr (λ p n, usage_count {| proxies := ps; accounts := acs |} p + n) 0 ps.
Proof.
  unfold usage_count. simpl accounts.
  induction ps as [|q qs IH]; [done|].
  simpl foldr. rewrite IH. rewrite !filter_cons.
  repeat case_decide; simpl length; try lia; congruence.
Qed.

Lemma one_row_per_id (o : option Z) id ps :
  o = Some id → NoDup (ID <$> ps) → id ∈ ID <$> ps →
  length (filter (λ p, o = Some (ID p)) ps) = 1%nat.
Proof.
  intros Ho. induction ps as [|p ps IH]; intros Hnd Hin.
  - by apply elem_of_nil in Hin.
  - rewrite fmap_cons in Hnd, Hin. apply NoDup_cons in Hnd as [Hp Hnd].
    rewrite filter_cons. case_decide as Hc.
    + simpl. f_equal.
      destruct (filter _ ps) as [|q qs] eqn:Hf; [done|]. exfalso.
      assert (q ∈ filter (λ p0, o = Some (ID p0)) ps) as Hq.
      { rewrite Hf. apply list_elem_of_here. }
      apply list_elem_of_filter in Hq as [Hq1 Hq2].
      apply Hp. replace (ID p) with (ID q) by congruence. apply list_elem_of_fmap. eauto.
    + apply IH; [done|]. apply elem_of_cons in Hin as [->|Hin]; done.
Qed.

Lemma no_row_without_pointer (o : option Z) (ps : list Proxy) :
  o = None → length (filter (λ p, o = Some (ID p)) ps) = 0%nat.
Proof.
  intros Ho. induction ps as [|p ps IH]; [done|].
  rewrite filter_cons_False; [done|]. by rewrite Ho.
Qed.

Lemma usage_counts_add_up ps acs :
  NoDup (ID <$> ps) →
  (∀ a id, a ∈ acs → proxy_id a = Some id → id ∈ ID <$> ps) →
  foldr (λ p n, usage_count {| proxies := ps; accounts := acs |} p + n) 0 ps
  = count_rows (λ a, proxy_id a ≠ None) acs.
Proof.
  intros Hnd. induction acs as [|a acs IH]; intros Hrefs.
  - unfold usage_count, count_rows. simpl. generalize ps at 1. intros qs.
    by induction qs as [|q qs IHq].
  - rewrite usage_count_cons, IH.
    + unfold count_rows. rewrite (filter_cons _ a).
      destruct (decide (proxy_id a = None)) as [Hn|Hs].
      * rewrite no_row_without_pointer by done.
        rewrite decide_False by (intros H; by apply H). lia.
      * destruct (proxy_id a) as [id|] eqn:Hpid; [|done].
        rewrite (one_row_per_id _ id); [|done|done|].
        -- rewrite decide_True by done. simpl length. lia.
        -- eapply Hrefs; [apply list_elem_of_here|done].
    + intros a' id Ha'. apply Hrefs. by apply list_elem_of_further.
Qed.

Lemma usage_by_type_adds_up d (ps : list Proxy) :
  foldr (λ p n, usage_count d p + n) 0 (filter (λ p, PType p = ProxyTypeHTTP) ps)
  + foldr (λ p n, usage_count d p + n) 0 (filter (λ p, PType p = ProxyTypeSOCKS5) ps)
  = foldr (λ p n, usage_count d p + n) 0 ps.
Proof.
  induction ps as [|p ps IH]; [done|].
  rewrite !filter_cons. simpl foldr. destruct (PType p); repeat case_decide; try done;
    simpl foldr; lia.
Qed.

Lemma total_accounts_details d (ps : list Proxy) :
  total_accounts (usage_detail d <$> ps) = foldr (λ p n, usage_count d p + n) 0 ps.
Proof.
  unfold total_accounts. induction ps as [|p ps IH]; [done|].
  rewrite fmap_cons. simpl. by rewrite IH.
Qed.

(** X10.  In what [GetProxyUsage] reports, [AvailableProxies] is the number of
    active proxies minus the number of proxies with an account, whether
    active or not: the number of active proxies without account less the
    number of proxies out of service that still have one.  The listing by
    proxy has one entry for each row, most used first; the counts by type
    add up to the counts by proxy, and, with [id] as key and the foreign key
    of [accounts.proxy_id] in place, to the number of accounts that have a
    proxy. *)
Theorem GetProxyUsage_counts d :
  let u := GetProxyUsage d in
  AvailableProxies u
  = count_rows (λ p, Status p = ProxyStatusActive ∧ ¬ is_assigned d p) (proxies d)
    - count_rows (λ p, is_assigned d p ∧ Status p ≠ ProxyStatusActive) (proxies d)
  ∧ 0 ≤ AssignedProxies u ≤ TotalProxies u
  ∧ UsageByProxy u ≡ₚ usage_detail d <$> proxies d
  ∧ (∀ i j x y, (i < j)%nat → UsageByProxy u !! i = Some x → UsageByProxy u !! j = Some y →
       AccountCount y ≤ AccountCount x)
  ∧ total_by_type (UsageByType u) = total_accounts (UsageByProxy u)
  ∧ (NoDup (ID <$> proxies d) → refs_ok d →
       total_accounts (UsageByProxy u) = count_rows (λ a, proxy_id a ≠ None) (accounts d)).
Proof.
  simpl. split; [|split; [|split; [|split; [|split]]]].
  - pose proof (count_rows_split (λ p, Status p = ProxyStatusActive) (is_assigned d)
                  (proxies d)) as H1.
    pose proof (count_rows_split (is_assigned d) (λ p, Status p = ProxyStatusActive)
                  (proxies d)) as H2.
    cbv beta in H1, H2.
    assert (count_rows (λ p, is_assigned d p ∧ Status p = ProxyStatusActive) (proxies d)
            = count_rows (λ p, Status p = ProxyStatusActive ∧ is_assigned d p) (proxies d))
      as E.
    { apply count_rows_iff. tauto. }
    lia.
  - split; [apply count_rows_nonneg|apply count_rows_le_length].
  - apply merge_sort_Permutation.
  - intros i j x y Hij Hi Hj.
    eapply (sorted_lookup account_count_ge); [|exact Hij|exact Hi|exact Hj].
    apply StronglySorted_merge_sort.
    + unfold account_count_ge. intros a b c. lia.
    + unfold account_count_ge. intros a b. lia.
  - rewrite (total_accounts_Permutation _ _ (merge_sort_Permutation _ _)).
    rewrite total_accounts_details, <- (usage_by_type_adds_up d (proxies d)).
    unfold usage_of_type, total_by_type.
    repeat case_bool_decide; simpl;
      repeat match goal with H : filter _ _ = [] |- _ => rewrite H end; simpl; lia.
  - intros Hnd Hrefs.
    rewrite (total_accounts_Permutation _ _ (merge_sort_Permutation _ _)).
    rewrite total_accounts_details. destruct d as [ps acs]. simpl in *.
    apply usage_counts_add_up; [done|]. intros a id Ha Hp. by eapply Hrefs.
Qed.

(** With both proxies out of service and still assigned, the report gives
    minus two available proxies. *)
Example GetProxyUsage_negative_available :
  AvailableProxies (GetProxyUsage (db overbooked_world)) = -2.
Proof. reflexivity. Qed.

(** ** Pagination *)

Lemma Paginate_eq page pageSize totalItems :
  let limit := (Paginate page pageSize totalItems).1.2 in
  min_int64 ≤ page ≤ max_int64 → (Z.max page 1 - 1) * limit ≤ max_int64 →
  0 ≤ totalItems ≤ max_int64 - 100 →
  1 ≤ limit ≤ 100
  ∧ (1 ≤ pageSize ≤ 100 → limit = pageSize)
  ∧ (pageSize < 1 → limit = 10)
  ∧ (100 < pageSize → limit = 100)
  ∧ Paginate page pageSize totalItems
    = ((Z.max page 1 - 1) * limit, limit, (totalItems + limit - 1) `div` limit).
Proof.
  unfold Paginate. simpl.
  set (L := if bool_decide (100 < (if bool_decide (pageSize < 1) then 10 else pageSize))
            then 100 else if bool_decide (pageSize < 1) then 10 else pageSize).
  intros Hpage Hoff Hitems.
  assert (1 ≤ L ≤ 100) as HL by (subst L; repeat case_bool_decide; lia).
  split; [done|]. split; [subst L; repeat case_bool_decide; lia|].
  split; [subst L; repeat case_bool_decide; lia|].
  split; [subst L; repeat case_bool_decide; lia|].
  unfold max_int64, min_int64 in *.
  set (P := if bool_decide (page < 1) then 1 else page).
  assert (P = Z.max page 1) as HP by (subst P; case_bool_decide; lia).
  rewrite <- HP in Hoff.
  rewrite (wrap64_small (P - 1)) by (unfold max_int64, min_int64; lia).
  rewrite (wrap64_small ((P - 1) * L)) by (unfold max_int64, min_int64; nia).
  rewrite (wrap64_small (totalItems + L)) by (unfold max_int64, min_int64; lia).
  rewrite (wrap64_small (totalItems + L - 1)) by (unfold max_int64, min_int64; lia).
  rewrite Z.quot_div_nonneg by lia. by rewrite HP.
Qed.

(** X11.  [Paginate] clamps the page size into 1..100 (10 when it is below 1) and
    a page below 1 to page 1.  With numbers that do not overflow, the offset
    is [(page - 1) * limit], the number of pages is the least that holds
    all items, and every item index below [totalItems] lies in the window
    [offset, offset + limit) of exactly one page between 1 and that
    number. *)
Theorem Paginate_pages_cover_the_items page pageSize totalItems :
  min_int64 ≤ page ≤ max_int64 `div` 100 →
  0 ≤ totalItems ≤ max_int64 - 100 →
  let offset_of q := (Paginate q pageSize totalItems).1.1 in
  let limit := (Paginate page pageSize totalItems).1.2 in
  let totalPages := (Paginate page pageSize totalItems).2 in
  1 ≤ limit ≤ 100
  ∧ (1 ≤ pageSize ≤ 100 → limit = pageSize)
  ∧ (pageSize < 1 → limit = 10)
  ∧ (100 < pageSize → limit = 100)
  ∧ offset_of page = (Z.max page 1 - 1) * limit
  ∧ (totalPages - 1) * limit < totalItems ≤ totalPages * limit
  ∧ (∀ k, 0 ≤ k < totalItems →
       ∃ q, 1 ≤ q ≤ totalPages
          ∧ offset_of q ≤ k < offset_of q + limit
          ∧ ∀ q', 1 ≤ q' ≤ totalPages → offset_of q' ≤ k < offset_of q' + limit → q' = q).
Proof.
  intros Hpage Hitems offset_of limit totalPages.
  assert (max_int64 `div` 100 = 92233720368547758) as Hdiv by reflexivity.
  assert (1 ≤ limit ≤ 100) as HL.
  { subst limit. unfold Paginate. simpl. repeat case_bool_decide; lia. }
  destruct (Paginate_eq page pageSize totalItems) as (_ & H1 & H2 & H3 & Heq); [| |done|].
  { unfold max_int64, min_int64 in *. lia. }
  { fold limit. unfold max_int64, min_int64 in *. nia. }
  fold limit in H1, H2, H3, Heq.
  assert (totalPages = (totalItems + limit - 1) `div` limit) as Ht.
  { subst totalPages. by rewrite Heq. }
  pose proof (Z.div_mod (totalItems + limit - 1) limit ltac:(lia)) as Hdm.
  pose proof (Z.mod_pos_bound (totalItems + limit - 1) limit ltac:(lia)) as Hmb.
  rewrite <- Ht in Hdm.
  assert (∀ q, 1 ≤ q ≤ totalPages → offset_of q = (q - 1) * limit) as Hoff.
  { intros q Hq. subst offset_of. cbv beta.
    assert ((Paginate q pageSize totalItems).1.2 = limit) as Hl by reflexivity.
    destruct (Paginate_eq q pageSize totalItems) as (_ & _ & _ & _ & Hq'); [| |done|].
    - unfold max_int64, min_int64 in *. nia.
    - rewrite Hl. unfold max_int64, min_int64 in *. nia.
    - rewrite Hl in Hq'. rewrite Hq'. simpl. f_equal. lia. }
  split; [done|]. split; [done|]. split; [done|]. split; [done|]. split; [|split].
  - subst offset_of. cbv beta. by rewrite Heq.
  - nia.
  - intros k Hk.
    pose proof (Z.div_mod k limit ltac:(lia)) as Hkd.
    pose proof (Z.mod_pos_bound k limit ltac:(lia)) as Hkb.
    assert (0 ≤ k `div` limit) by (apply Z.div_pos; lia).
    assert (k `div` limit + 1 ≤ totalPages) by nia.
    exists (k `div` limit + 1). split; [lia|]. split.
    + rewrite Hoff by lia. nia.
    + intros q' Hq' Hwin. rewrite Hoff in Hwin by lia. nia.
Qed.

Lemma Paginate_pages_cover_the_items_witness :
  (Paginate 3 20 45).1.1 = 40 ∧ (Paginate 3 20 45).1.2 = 20 ∧ (Paginate 3 20 45).2 = 3
  ∧ (Paginate 0 1000 45).1.1 = 0 ∧ (Paginate 0 1000 45).1.2 = 100.
Proof.
  assert (min_int64 ≤ 3 ≤ max_int64 `div` 100) as H1 by (by vm_compute).
  assert (0 ≤ 45 ≤ max_int64 - 100) as H2 by (by vm_compute).
  pose proof (Paginate_pages_cover_the_items 3 20 45 H1 H2) as (_ & Hl & _ & _ & Ho & _).
  split; [exact Ho|]. split; [apply Hl; lia|]. by vm_compute.
Defined.

(** ** Updating a proxy *)

Lemma set_columns_ID req now p : ID (set_columns req now p) = ID p.
Proof. done. Qed.

Lemma UpdateProxy_accepted now id req w r :
  GetProxy id (db w) = Ok r → ¬ no_updates req →
  UpdateProxy now None id req w
  = (Ok (set_columns req now r),
     with_db (with_proxies (sql_update (id_is id) (set_columns req now))) w).
Proof.
  intros Hr Hreq. unfold UpdateProxy. rewrite Hr, bool_decide_eq_false_2 by done.
  simpl. by rewrite (GetProxy_update_same id (set_columns req now) (db w) r).
Qed.


(** X13.  The way back from quarantine.  Once [UpdateProxy] has set the
    status of a proxy that is out of service to active (the database
    executing the statement), the next sweep that has room in its semaphore
    (MAX_CONCURRENT_HEALTH_CHECKS at least 1, as by default) checks the
    proxy, and if the connection test passes the proxy is in the pool after
    the sweep ([id] being the key of the table). *)
Theorem reactivated_proxy_is_checked_by_the_next_sweep env now now1 probe req w r :
  1 ≤ GetEnvAsInt env "MAX_CONCURRENT_HEALTH_CHECKS" 10 →
  NoDup (ID <$> proxies (db w)) → r ∈ proxies (db w) →
  Status r ≠ ProxyStatusActive → UpdStatus req = Some ProxyStatusActive →
  let w1 := (UpdateProxy now None (ID r) req w).2 in
  let w2 := runHealthCheckCycle env now1 probe w1 in
  let r1 := set_columns req now r in
  (ID r ∉ ID <$> getActiveProxies (db w))
  ∧ GetProxy (ID r) (db w1) = Ok r1
  ∧ (∃ new, probed_ids (logs w2) = (probed_ids (logs w1) ++ new)%list ∧ ID r ∈ new)
  ∧ (probe_err (probe r1) = None →
     GetProxy (ID r) (db w2) = Ok (set_health true (probe_ms (probe r1)) now1 r1)
     ∧ ID r ∈ ID <$> GetAvailableProxies (Some (PType r)) (db w2)
     ∧ ID r ∈ ID <$> GetAvailableProxies None (db w2)).
Proof.
  intros Hroom Hnd Hin Hst Hreq w1 w2 r1.
  assert (¬ no_updates req) as Hupd.
  { intros (_ & _ & _ & _ & _ & Hs & _). congruence. }
  pose proof (GetProxy_NoDup (ID r) (db w) r Hnd Hin eq_refl) as Hget.
  assert (w1 = with_db (with_proxies (sql_update (id_is (ID r)) (set_columns req now))) w)
    as Hw1.
  { subst w1. by rewrite (UpdateProxy_accepted now (ID r) req w r). }
  assert (GetProxy (ID r) (db w1) = Ok r1) as Hget1.
  { rewrite Hw1. simpl. by apply GetProxy_update_same. }
  assert (NoDup (ID <$> proxies (db w1))) as Hnd1.
  { rewrite Hw1. simpl. by rewrite sql_update_fmap. }
  apply GetProxy_Ok_inv in Hget1 as Hin1. destruct Hin1 as [Hin1 _].
  assert (Status r1 = ProxyStatusActive) as Hact1.
  { subst r1. simpl. by rewrite Hreq. }
  split; [by apply not_active_not_selected|]. split; [done|]. split.
  - exists (ID <$> getActiveProxies (db w1)). split.
    + by apply runHealthCheckCycle_probed.
    + apply list_elem_of_fmap. exists r1. split; [done|].
      by apply getActiveProxies_elem_of.
  - intros Hpass.
    destruct (runHealthCheckCycle_rows env now1 probe w1 Hroom Hnd1)
      as (Hnd2 & _ & Hrow & _).
    destruct (Hrow r1 Hin1 Hact1) as [Hrow1 _]. specialize (Hrow1 Hpass).
    fold w2 in Hnd2, Hrow1.
    split; [by apply GetProxy_NoDup|].
    split; apply list_elem_of_fmap;
      exists (set_health true (probe_ms (probe r1)) now1 r1);
      (split; [done|]); apply GetAvailableProxies_elem_of_iff; done.
Qed.

Lemma reactivated_proxy_is_checked_by_the_next_sweep_witness :
  let req := {| UpdName := None; UpdHost := None; UpdPort := None; UpdUsername := None;
                UpdPassword := None; UpdStatus := Some ProxyStatusActive;
                UpdHealthCheckURL := None |} in
  let w1 := (UpdateProxy 1000 None 1 req quarantined_world).2 in
  let w2 := runHealthCheckCycle default_env 1300 (λ _, probe_ok) w1 in
  (1 ∉ ID <$> getActiveProxies (db quarantined_world))
  ∧ (∃ new, probed_ids (logs w2) = (probed_ids (logs w1) ++ new)%list ∧ 1 ∈ new)
  ∧ 1 ∈ ID <$> GetAvailableProxies None (db w2).
Proof.
  intros req w1 w2.
  assert (NoDup (ID <$> proxies (db quarantined_world))) as Hnd.
  { eapply bool_decide_eq_true_1. reflexivity. }
  assert (sample_proxy 1 ProxyStatusError false 30000 ∈ proxies (db quarantined_world))
    as Hin by apply list_elem_of_here.
  destruct (reactivated_proxy_is_checked_by_the_next_sweep default_env 1000 1300
              (λ _, probe_ok) req quarantined_world _ ltac:(by vm_compute) Hnd Hin
              ltac:(done) eq_refl)
    as (H1 & _ & H3 & H4).
  split; [exact H1|]. split; [exact H3|]. by apply H4.
Defined.

(** ** Creating a proxy *)

Lemma proxyExists_true host port d :
  proxyExists host port d = true ↔ ∃ p, p ∈ proxies d ∧ Host p = host ∧ Port p = port.
Proof. unfold proxyExists. rewrite bool_decide_eq_true. apply Exists_exists. Qed.

Lemma proxyExists_false host port d :
  proxyExists host port d = false ↔ ∀ p, p ∈ proxies d → ¬ (Host p = host ∧ Port p = port).
Proof.
  unfold proxyExists. rewrite bool_decide_eq_false, <- Forall_Exists_neg, Forall_forall.
  done.
Qed.

Lemma GetProxy_app_new id row d :
  id ∉ ID <$> proxies d → ID row = id →
  GetProxy id {| proxies := proxies d ++ [row]; accounts := accounts d |} = Ok row.
Proof.
  intros Hid Hrow. unfold GetProxy. simpl. rewrite filter_app.
  assert (filter (λ p, ID p = id) (proxies d) = []) as ->.
  { destruct (filter _ (proxies d)) as [|q qs] eqn:Hf; [done|]. exfalso.
    assert (q ∈ filter (λ p, ID p = id) (proxies d)) as Hq.
    { rewrite Hf. apply list_elem_of_here. }
    apply list_elem_of_filter in Hq as [Hq1 Hq2]. apply Hid.
    apply list_elem_of_fmap. eauto. }
  simpl. by rewrite filter_cons_True.
Qed.

(** What a successful [CreateProxy] leaves: the new row at the end of the
    table, with the status the connection test decided. *)
Lemma CreateProxy_created now finished parse id res req w :
  ValidateProxyURL parse (proxy_url req) = None →
  proxyExists (CrHost req) (CrPort req) (db w) = false →
  let st := if bool_decide (probe_err res = None) then ProxyStatusActive
            else ProxyStatusError in
  let t := if bool_decide (probe_err res = None) then now else finished in
  ∃ w', CreateProxy now finished parse (inl id) res req w
        = (Ok (with_status st (inserted_row id now req)), w')
    ∧ (id ∉ ID <$> proxies (db w) →
       proxies (db w')
       = (proxies (db w) ++ [set_status st t (inserted_row id now req)])%list)
    ∧ ID <$> proxies (db w') = ((ID <$> proxies (db w)) ++ [id])%list
    ∧ accounts (db w') = accounts (db w) ∧ rdb w' = rdb w ∧ logs w' = logs w.
Proof.
  intros Hvalid Hnew st t. unfold CreateProxy. rewrite Hvalid, Hnew.
  subst st t. destruct (probe_err res) as [err|]; eexists; (split; [reflexivity|]); simpl.
  - split; [|split; [|done]].
    + intros Hid. unfold sql_update. rewrite fmap_app. f_equal.
      * apply (sql_update_none (id_is id)). intros r Hr. apply id_is_false.
        intros He. apply Hid. apply list_elem_of_fmap. eauto.
      * simpl. unfold id_is. by rewrite bool_decide_eq_true_2.
    + rewrite sql_update_fmap by done. by rewrite fmap_app.
  - split; [|split; [|done]].
    + done.
    + by rewrite fmap_app.
Qed.

(** X14.  [CreateProxy] refuses, without writing, a configuration that does not
    pass [ValidateProxyURL] and a host and port some proxy already has.
    Otherwise, with the key the database gives the row, the new proxy is
    the last row of the table: healthy, response time 0, never checked,
    and active if its first connection test passed, in error if it failed;
    nothing else is written.  So a proxy whose first test passed is in the
    pool at once, and one whose first test failed is not. *)
Theorem CreateProxy_adds_one_row now finished parse inserted res req w :
  (∀ err, ValidateProxyURL parse (proxy_url req) = Some err →
     CreateProxy now finished parse inserted res req w
     = (Err ("invalid proxy configuration: " +:+ err), w))
  ∧ (ValidateProxyURL parse (proxy_url req) = None →
     (∃ p, p ∈ proxies (db w) ∧ Host p = CrHost req ∧ Port p = CrPort req) →
     CreateProxy now finished parse inserted res req w = (Err (ErrProxyExists req), w))
  ∧ (ValidateProxyURL parse (proxy_url req) = None →
     (∀ p, p ∈ proxies (db w) → ¬ (Host p = CrHost req ∧ Port p = CrPort req)) →
     (∀ err, inserted = inr err →
        CreateProxy now finished parse inserted res req w
        = (Err ("failed to create proxy: " +:+ err), w))
     ∧ (∀ id, inserted = inl id → id ∉ ID <$> proxies (db w) →
        NoDup (ID <$> proxies (db w)) →
        let st := if bool_decide (probe_err res = None) then ProxyStatusActive
            else ProxyStatusError in
        ∃ row w', CreateProxy now finished parse inserted res req w
                  = (Ok (with_status st (inserted_row id now req)), w')
          ∧ GetProxy id (db w') = Ok row
          ∧ proxies (db w') = (proxies (db w) ++ [row])%list
          ∧ Name row = CrName req ∧ PType row = CrType req ∧ Host row = CrHost req
          ∧ Port row = CrPort req ∧ Status row = st
          ∧ HealthCheckSuccess row = true ∧ ResponseTimeMs row = 0
          ∧ LastHealthCheck row = None
          ∧ accounts (db w') = accounts (db w) ∧ rdb w' = rdb w ∧ logs w' = logs w
          ∧ (∀ t, id ∈ ID <$> GetAvailableProxies t (db w') ↔
                  probe_err res = None ∧ type_matches t row))).
Proof.
  split; [|split].
  - intros err Hv. unfold CreateProxy. by rewrite Hv.
  - intros Hv Hex. unfold CreateProxy.
    by rewrite Hv, (proj2 (proxyExists_true _ _ _) Hex).
  - intros Hv Hnew. apply proxyExists_false in Hnew. split.
    + intros err ->. unfold CreateProxy. by rewrite Hv, Hnew.
    + intros id -> Hid Hnd st.
      destruct (CreateProxy_created now finished parse id res req w Hv Hnew)
        as (w' & Hres & Hrows & Hids & Hacc & Hrdb & Hlogs).
      specialize (Hrows Hid).
      set (row := set_status st (if bool_decide (probe_err res = None) then now else finished)
                    (inserted_row id now req)) in *.
      fold st in Hres, Hrows.
      assert (GetProxy id (db w') = Ok row) as Hget.
      { pose proof (GetProxy_app_new id row (db w) Hid eq_refl) as Hg.
        unfold GetProxy in *. simpl in Hg. by rewrite Hrows. }
      exists row, w'. split; [done|]. split; [done|]. split; [done|].
      do 8 (split; [done|]). split; [done|]. split; [done|]. split; [done|].
      intros t.
      assert (NoDup (ID <$> proxies (db w'))) as Hnd'.
      { rewrite Hids. apply NoDup_app. split; [done|]. split; [|apply NoDup_singleton].
        intros x Hx ->%list_elem_of_singleton. done. }
      apply GetProxy_Ok_inv in Hget as [Hin _].
      split.
      * intros (q & Hq & Hqin)%list_elem_of_fmap.
        apply GetAvailableProxies_elem_of_iff in Hqin as (Hqin & Hact & _ & Hty).
        rewrite (same_id_same_row _ q row Hnd' Hqin Hin (eq_sym Hq)) in Hact, Hty.
        split; [|done]. subst row st. simpl in Hact. by destruct (probe_err res).
      * intros [Hpass Hty]. apply list_elem_of_fmap. exists row. split; [done|].
        apply GetAvailableProxies_elem_of_iff. split; [done|]. split; [|done].
        subst row st. simpl. by rewrite Hpass.
Qed.

(** X15.  A proxy whose connection test fails when it is created starts in error,
    and no sweep ever checks it: however many sweeps run and whatever the
    connection tests would give, it is never probed and never in the pool. *)
Theorem proxy_created_in_error_is_never_checked now finished parse id res req env ticks w :
  NoDup (ID <$> proxies (db w)) → id ∉ ID <$> proxies (db w) →
  ValidateProxyURL parse (proxy_url req) = None →
  (∀ p, p ∈ proxies (db w) → ¬ (Host p = CrHost req ∧ Port p = CrPort req)) →
  probe_err res ≠ None →
  let w1 := (CreateProxy now finished parse (inl id) res req w).2 in
  let w2 := StartHealthCheckScheduler env ticks w1 in
  (∃ row, GetProxy id (db w1) = Ok row ∧ GetProxy id (db w2) = Ok row
          ∧ Status row = ProxyStatusError)
  ∧ (∃ new, probed_ids (logs w2) = (probed_ids (logs w1) ++ new)%list ∧ id ∉ new)
  ∧ ∀ t, id ∉ ID <$> GetAvailableProxies t (db w2).
Proof.
  intros Hnd Hid Hv Hnew Hfail w1 w2. apply proxyExists_false in Hnew.
  destruct (CreateProxy_created now finished parse id res req w Hv Hnew)
    as (w' & Hres & Hrows & Hids & _).
  specialize (Hrows Hid).
  assert (w1 = w') as Hw1 by (subst w1; by rewrite Hres).
  clearbody w1. subst w'.
  destruct (probe_err res) as [err|] eqn:Herr; [|done].
  set (row := set_status ProxyStatusError finished (inserted_row id now req)) in *.
  assert (NoDup (ID <$> proxies (db w1))) as Hnd1.
  { rewrite Hids. apply NoDup_app. split; [done|]. split; [|apply NoDup_singleton].
    intros x Hx ->%list_elem_of_singleton. done. }
  assert (row ∈ proxies (db w1)) as Hin1.
  { rewrite Hrows. apply elem_of_app. right. apply list_elem_of_here. }
  destruct (scheduler_frame env ticks w1 row Hnd1 Hin1 ltac:(done))
    as (Hnd2 & Hin2 & Hnew2).
  fold w2 in Hnd2, Hin2, Hnew2.
  split; [|split].
  - exists row. split; [by apply GetProxy_NoDup|]. split; [by apply GetProxy_NoDup|done].
  - exact Hnew2.
  - intros t (q & Hq & Hqin)%list_elem_of_fmap.
    apply GetAvailableProxies_elem_of_iff in Hqin as (Hqin & Hact & _).
    rewrite (same_id_same_row _ q row Hnd2 Hqin Hin2 (eq_sym Hq)) in Hact. done.
Qed.

Lemma proxy_created_in_error_is_never_checked_witness :
  let w1 := (CreateProxy 1000 1030 example_parse (inl 3) probe_fail
               example_create_request example_world).2 in
  let w2 := StartHealthCheckScheduler default_env all_probes_pass w1 in
  (∃ row, GetProxy 3 (db w1) = Ok row ∧ GetProxy 3 (db w2) = Ok row
          ∧ Status row = ProxyStatusError)
  ∧ (∃ new, probed_ids (logs w2) = (probed_ids (logs w1) ++ new)%list ∧ 3 ∉ new)
  ∧ ∀ t, 3 ∉ ID <$> GetAvailableProxies t (db w2).
Proof.
  apply (proxy_created_in_error_is_never_checked 1000 1030 example_parse 3 probe_fail
           example_create_request default_env all_probes_pass example_world).
  - eapply bool_decide_eq_true_1. reflexivity.
  - eapply bool_decide_eq_true_1. reflexivity.
  - reflexivity.
  - intros p Hp [Hh _]. revert Hh. apply elem_of_cons in Hp as [->|Hp]; [done|].
    apply list_elem_of_singleton in Hp as ->. done.
  - done.
Defined.

(** ** Invariants of the registry *)

Lemma selectProxyByStrategy_db s t w : db (selectProxyByStrategy s t w).2 = db w.
Proof.
  unfold selectProxyByStrategy, selectRoundRobinProxy.
  repeat case_bool_decide; simpl; try done.
  by destruct (GetAvailableProxies t (db w) !! _).
Qed.

(** An assignment writes to table [accounts] only, and the proxy it writes
    is a row of [proxies]. *)
Lemma AssignProxy_db now req w :
  let w' := (AssignProxy now req w).2 in
  proxies (db w') = proxies (db w)
  ∧ (accounts (db w') = accounts (db w)
     ∨ ∃ id, id ∈ ID <$> proxies (db w)
          ∧ accounts (db w')
            = accounts_assigned now (ReqAccountID req) id (accounts (db w))).
Proof.
  intros w'. subst w'. unfold AssignProxy.
  destruct (ReqProxyID req) as [id|].
  - destruct (GetProxy id (db w)) as [p|e|m] eqn:Hg; simpl; [|by auto..].
    split; [done|]. right. exists id. split; [|done].
    apply GetProxy_Ok_inv in Hg as [Hin <-]. apply list_elem_of_fmap; eauto.
  - pose proof (selectProxyByStrategy_db
                  (if bool_decide (Strategy req = "") then "auto" else Strategy req)
                  (ReqProxyType req) w) as Hdb.
    destruct (selectProxyByStrategy _ _ w) as [[id|e|m] w1]; simpl in *;
      [|rewrite Hdb; auto..].
    destruct (GetProxy id (db w1)) as [p|e|m] eqn:Hg; simpl; rewrite ?Hdb; [|auto..].
    split; [done|]. right. exists id. split; [|done].
    rewrite Hdb in Hg. apply GetProxy_Ok_inv in Hg as [Hin <-].
    apply list_elem_of_fmap; eauto.
Qed.

Lemma invariants_same_ids d d' :
  ID <$> proxies d' = ID <$> proxies d → accounts d' = accounts d →
  NoDup (ID <$> proxies d) → refs_ok d →
  NoDup (ID <$> proxies d') ∧ refs_ok d'
  ∧ AccountID <$> accounts d' = AccountID <$> accounts d.
Proof.
  intros Hids Hacc Hnd Hrefs. unfold refs_ok. rewrite Hids, Hacc. done.
Qed.

Lemma run_call_invariants c w :
  NoDup (ID <$> proxies (db w)) → refs_ok (db w) → fresh_key c w →
  let w' := run_call c w in
  NoDup (ID <$> proxies (db w')) ∧ refs_ok (db w')
  ∧ AccountID <$> accounts (db w') = AccountID <$> accounts (db w).
Proof.
  intros Hnd Hrefs Hfresh w'. subst w'.
  destruct c as [env now probe|now finished res id|now req|now acc|now id
                |now rejected id req|now finished parse inserted res req]; simpl.
  - destruct (runHealthCheckCycle_stores env now probe w) as (Hids & Hacc).
    by apply invariants_same_ids.
  - unfold TestProxy. destruct (GetProxy id (db w)) as [p0|e0|m0]; [|done..].
    cbn [snd]. apply invariants_same_ids; try done.
    unfold updateProxyHealth. simpl. by apply sql_update_fmap.
  - destruct (AssignProxy_db now req w) as [Hp [Ha|(id & Hid & Ha)]].
    + apply invariants_same_ids; try done. by rewrite Hp.
    + rewrite Hp, Ha. split; [done|]. split; [|by apply sql_update_fmap].
      intros a id' Hin Hptr. rewrite Hp. rewrite Ha in Hin.
      apply sql_update_elem_of_inv in Hin as (a0 & Ha0 & ->).
      destruct (bool_decide (AccountID a0 = ReqAccountID req)).
      * simpl in Hptr. by injection Hptr as <-.
      * by eapply Hrefs.
  - split; [done|]. split; [|by apply sql_update_fmap].
    intros a id' Hin Hptr. simpl in *.
    apply sql_update_elem_of_inv in Hin as (a0 & Ha0 & ->).
    destruct (bool_decide (AccountID a0 = acc)); [done|]. by eapply Hrefs.
  - unfold DeleteProxy. destruct (GetProxy id (db w)) as [p0|e0|m0]; simpl; [|done..].
    destruct (isProxyInUse id (db w)); simpl; [done|].
    split; [|split; [|by apply sql_update_fmap]].
    + eapply sublist_NoDup; [exact Hnd|]. apply fmap_sublist, sublist_filter.
    + intros a id' Hin Hptr. simpl in *.
      apply sql_update_elem_of_inv in Hin as (a0 & Ha0 & ->).
      destruct (bool_decide_reflect (proxy_id a0 = Some id)) as [He|He]; [done|].
      destruct (proj1 (list_elem_of_fmap _ _ _) (Hrefs a0 id' Ha0 Hptr)) as (p & -> & Hp).
      apply list_elem_of_fmap. exists p. split; [done|].
      apply list_elem_of_filter. split; [|done]. congruence.
  - unfold UpdateProxy. destruct (GetProxy id (db w)) as [p0|e0|m0]; [|done..].
    case_bool_decide; [done|]. destruct rejected as [e1|]; [done|].
    cbn [snd]. apply invariants_same_ids; try done. simpl. by apply sql_update_fmap.
  - unfold CreateProxy.
    destruct (ValidateProxyURL _ _) as [e0|]; simpl; [done|].
    destruct (proxyExists _ _ _); simpl; [done|].
    destruct inserted as [id|err]; simpl; [|done].
    assert (NoDup (ID <$> (proxies (db w) ++ [inserted_row id now req])%list)
            ∧ refs_ok {| proxies := proxies (db w) ++ [inserted_row id now req];
                         accounts := accounts (db w) |}) as [Hnd' Hrefs'].
    { split.
      - rewrite fmap_app. apply NoDup_app. split; [done|].
        split; [|apply NoDup_singleton].
        intros x Hx ->%list_elem_of_singleton. done.
      - intros a id' Hin Hptr. simpl in *. rewrite fmap_app, elem_of_app. left.
        by eapply Hrefs. }
    destruct (probe_err res) as [e1|]; simpl; [|done].
    split; [by rewrite sql_update_fmap|]. split; [|done].
    intros a id' Hin Hptr. simpl in *. rewrite sql_update_fmap by done.
    by eapply Hrefs'.
Qed.

(** X16.  Whatever calls are made and whatever sweeps run, in whatever order:
    the ids of table [proxies] stay pairwise different, no account ever
    points to a proxy that is not in the table, and the service adds and
    removes no account.  The only assumption is on the database: the key
    it gives a new row is not in the table. *)
Theorem registry_invariants_hold calls : ∀ w,
  NoDup (ID <$> proxies (db w)) → refs_ok (db w) → fresh_keys calls w →
  let w' := run_calls calls w in
  NoDup (ID <$> proxies (db w')) ∧ refs_ok (db w')
  ∧ AccountID <$> accounts (db w') = AccountID <$> accounts (db w).
Proof.
  induction calls as [|c calls IH]; intros w Hnd Hrefs Hfresh w'; subst w'.
  - done.
  - destruct Hfresh as [Hc Hfresh].
    destruct (run_call_invariants c w Hnd Hrefs Hc) as (Hnd1 & Hrefs1 & Hacc1).
    destruct (IH (run_call c w) Hnd1 Hrefs1 Hfresh) as (Hnd2 & Hrefs2 & Hacc2).
    change (run_calls (c :: calls) w) with (run_calls calls (run_call c w)).
    split; [done|]. split; [done|]. by rewrite Hacc2.
Qed.

Lemma registry_invariants_hold_witness :
  let w' := run_calls example_calls explicit_example_world in
  NoDup (ID <$> proxies (db w')) ∧ refs_ok (db w')
  ∧ AccountID <$> accounts (db w') = AccountID <$> accounts (db explicit_example_world).
Proof.
  apply (registry_invariants_hold example_calls explicit_example_world).
  - eapply bool_decide_eq_true_1. reflexivity.
  - intros a id Hin Hptr. apply list_elem_of_singleton in Hin as ->.
    injection Hptr as <-. eapply bool_decide_eq_true_1. reflexivity.
  - split; [exact I|]. split; [|repeat split].
    eapply bool_decide_eq_true_1. reflexivity.
Defined.

Example registry_after_example_calls :
  ID <$> proxies (db (run_calls example_calls explicit_example_world)) = [2; 3]
  ∧ proxy_id <$> accounts (db (run_calls example_calls explicit_example_world)) = [None].
Proof. by vm_compute. Qed.

(** ** Automatic assignment *)

Lemma selectProxyByStrategy_Ok s t w id w1 :
  selectProxyByStrategy s t w = (Ok id, w1) →
  db w1 = db w ∧ ∃ p, p ∈ GetAvailableProxies t (db w) ∧ ID p = id.
Proof.
  intros Hsel. split.
  { pose proof (selectProxyByStrategy_db s t w) as Hdb. by rewrite Hsel in Hdb. }
  assert (∀ (R : relation Proxy) `{∀ x y, Decision (R x y)} `{!Transitive R} `{!Total R},
            scan_id (order_by_limit1 R (candidates t (db w))) = Ok id →
            ∃ p, p ∈ GetAvailableProxies t (db w) ∧ ID p = id) as Hscan.
  { intros R ? ? ? (p & Hrow & Hid)%scan_id_Ok.
    apply order_by_limit1_Some in Hrow as [Hin _]; [|done..].
    exists p. split; [|done]. unfold GetAvailableProxies.
    by rewrite merge_sort_Permutation. }
  unfold selectProxyByStrategy in Hsel. repeat case_bool_decide.
  - injection Hsel as Hsel _. by eapply Hscan; [..|exact Hsel]; apply _.
  - injection Hsel as Hsel _. by eapply Hscan; [..|exact Hsel]; apply _.
  - unfold selectRoundRobinProxy in Hsel. case_bool_decide; [done|].
    case_bool_decide; [|done].
    destruct (GetAvailableProxies t (db w) !! _) as [p|] eqn:Hp; [|done].
    injection Hsel as <- _. exists p. split; [|done]. by eapply list_elem_of_lookup_2.
  - injection Hsel as Hsel _. by eapply Hscan; [..|exact Hsel]; apply _.
Qed.

(** X17.  Under every strategy, named or not, an assignment that names no proxy
    and succeeds has drawn the proxy from the pool: the proxy is active,
    healthy and of the requested type.  The answer carries that proxy and
    the account of the request, and the only change to the database is the
    proxy written to that account. *)
Theorem automatic_assignment_draws_from_the_pool now req w resp w' :
  ReqProxyID req = None →
  AssignProxy now req w = (Ok resp, w') →
  ∃ p, p ∈ GetAvailableProxies (ReqProxyType req) (db w)
     ∧ ID p = RespProxyID resp
     ∧ p ∈ proxies (db w) ∧ Status p = ProxyStatusActive ∧ HealthCheckSuccess p = true
     ∧ type_matches (ReqProxyType req) p
     ∧ RespAccountID resp = ReqAccountID req ∧ AssignedAt resp = now
     ∧ db w' = with_accounts (accounts_assigned now (ReqAccountID req) (ID p)) (db w)
     ∧ ∀ a, a ∈ accounts (db w') → AccountID a = ReqAccountID req →
            proxy_id a = Some (ID p).
Proof.
  intros Hreq Hres. unfold AssignProxy in Hres. rewrite Hreq in Hres.
  destruct (selectProxyByStrategy _ (ReqProxyType req) w) as [[id|e|m] w1] eqn:Hsel;
    [|done..].
  apply selectProxyByStrategy_Ok in Hsel as (Hdb & p & Hp & Hid).
  destruct (GetProxy id (db w1)) as [q|e|m] eqn:Hg; [|done..].
  unfold assign_to_account in Hres. injection Hres as <- <-. simpl.
  apply GetAvailableProxies_elem_of_iff in Hp as Hp'. destruct Hp' as (H1 & H2 & H3 & H4).
  exists p. rewrite Hid, Hdb.
  do 8 (split; [done|]). split; [done|].
  intros a Ha Ha'. by eapply accounts_assigned_pointer.
Qed.

Lemma automatic_assignment_draws_from_the_pool_witness :
  ∃ p, p ∈ GetAvailableProxies None (db auto_example_world)
     ∧ ID p = 2 ∧ Status p = ProxyStatusActive ∧ HealthCheckSuccess p = true.
Proof.
  destruct (automatic_assignment_draws_from_the_pool 5
              {| ReqAccountID := 10; ReqProxyID := None; ReqProxyType := None;
                 Strategy := "" |} auto_example_world _ _ eq_refl eq_refl)
    as (p & H1 & H2 & _ & H4 & H5 & _).
  exists p. done.
Defined.

(** ** Statistics *)

Lemma count_by_status (rows : list Proxy) :
  count_rows (λ p, Status p = ProxyStatusActive) rows
  + count_rows (λ p, Status p = ProxyStatusInactive) rows
  + count_rows (λ p, Status p = ProxyStatusError) rows
  = Z.of_nat (length rows).
Proof.
  unfold count_rows. induction rows as [|p rows IH]; [done|].
  rewrite !filter_cons. destruct (Status p); repeat case_decide; try done;
    simpl length; lia.
Qed.

Lemma count_by_health (rows : list Proxy) :
  count_rows (λ p, HealthCheckSuccess p = true) rows
  + count_rows (λ p, HealthCheckSuccess p = false) rows
  = Z.of_nat (length rows).
Proof.
  unfold count_rows. induction rows as [|p rows IH]; [done|].
  rewrite !filter_cons. destruct (HealthCheckSuccess p); repeat case_decide; try done;
    simpl length; lia.
Qed.

Lemma count_rows_filter {A} (P Q : A → Prop) `{∀ x, Decision (P x)} `{∀ x, Decision (Q x)}
    (rows : list A) :
  count_rows P (filter Q rows) = count_rows (λ x, Q x ∧ P x) rows.
Proof.
  unfold count_rows. induction rows as [|a rows IH]; [done|].
  rewrite !filter_cons. repeat case_decide; rewrite ?filter_cons;
    repeat case_decide; simpl length; try lia; tauto.
Qed.

(** X18.  [GetProxyStats] fails whenever no proxy is active, an empty table
    included: the average it reads into a [float64] is then NULL.  When it
    answers, the counts by status are those of the table and add up to its
    size, healthy and unhealthy add up to the active proxies, and the
    healthy count is the one [GetHealthMetrics] reports. *)
Theorem GetProxyStats_needs_an_active_proxy d :
  ((∀ p, p ∈ proxies d → Status p ≠ ProxyStatusActive) →
     GetProxyStats d = Err ErrNullAverage)
  ∧ (∀ p, p ∈ proxies d → Status p = ProxyStatusActive →
       ∃ stats, GetProxyStats d = Ok stats
         ∧ StatsActiveProxies stats
           = count_rows (λ p, Status p = ProxyStatusActive) (proxies d)
         ∧ StatsInactiveProxies stats
           = count_rows (λ p, Status p = ProxyStatusInactive) (proxies d)
         ∧ StatsErrorProxies stats
           = count_rows (λ p, Status p = ProxyStatusError) (proxies d)
         ∧ 1 ≤ StatsActiveProxies stats
         ∧ StatsHealthyProxies stats + StatsUnhealthyProxies stats
           = StatsActiveProxies stats
         ∧ StatsHealthyProxies stats = healthy_proxies (GetHealthMetrics d)
         ∧ (Z.of_nat (length (proxies d)) ≤ max_int64 →
            StatsTotalProxies stats = Z.of_nat (length (proxies d))
            ∧ StatsActiveProxies stats + StatsInactiveProxies stats
              + StatsErrorProxies stats = StatsTotalProxies stats)).
Proof.
  split.
  - intros Hnone. unfold GetProxyStats. rewrite bool_decide_eq_true_2; [done|].
    induction (proxies d) as [|p ps IH]; [done|].
    rewrite filter_cons_False.
    + apply IH. intros q Hq. apply Hnone. by apply list_elem_of_further.
    + apply Hnone. apply list_elem_of_here.
  - intros p Hp Hact. unfold GetProxyStats.
    rewrite bool_decide_eq_false_2.
    2:{ intros Hnil. assert (p ∈ filter (λ p, Status p = ProxyStatusActive) (proxies d)) as Hin.
        { by apply list_elem_of_filter. }
        rewrite Hnil in Hin. by apply elem_of_nil in Hin. }
    eexists. split; [reflexivity|]. simpl.
    pose proof (count_by_status (proxies d)) as Hsum.
    pose proof (count_by_health (filter (λ p, Status p = ProxyStatusActive) (proxies d)))
      as Hhealth.
    pose proof (count_rows_nonneg (λ p, Status p = ProxyStatusActive) (proxies d)) as Ha.
    pose proof (count_rows_nonneg (λ p, Status p = ProxyStatusInactive) (proxies d)) as Hi.
    pose proof (count_rows_nonneg (λ p, Status p = ProxyStatusError) (proxies d)) as He.
    assert (1 ≤ count_rows (λ p, Status p = ProxyStatusActive) (proxies d)) as Hone.
    { unfold count_rows.
      assert (p ∈ filter (λ p, Status p = ProxyStatusActive) (proxies d)) as Hin.
      { by apply list_elem_of_filter. }
      destruct (filter _ (proxies d)); [by apply elem_of_nil in Hin|]. simpl length. lia. }
    set (a := count_rows (λ p, Status p = ProxyStatusActive) (proxies d)) in *.
    set (i := count_rows (λ p, Status p = ProxyStatusInactive) (proxies d)) in *.
    set (e := count_rows (λ p, Status p = ProxyStatusError) (proxies d)) in *.
    unfold group_count. simpl omap.
    split; [|split; [|split; [|split; [|split; [|split]]]]].
    + repeat case_bool_decide; simpl; lia.
    + repeat case_bool_decide; simpl; lia.
    + repeat case_bool_decide; simpl; lia.
    + repeat case_bool_decide; simpl; lia.
    + assert (Z.of_nat (length (filter (λ p, Status p = ProxyStatusActive) (proxies d))) = a)
        as Hlen by done.
      repeat case_bool_decide; simpl; lia.
    + rewrite count_rows_filter. done.
    + intros Hmax. unfold max_int64 in Hmax.
      repeat case_bool_decide; simpl;
        repeat match goal with
               | |- context [wrap64 ?z] =>
                   rewrite (wrap64_small z) by (unfold max_int64, min_int64; lia)
               end; lia.
Qed.

(** ** What the handlers answer *)



(** X20.  What the service refuses is answered with 500: the deletion of a proxy
    that accounts use, an automatic assignment when the pool is empty, the
    statistics when no proxy is active.  The deletion of an unused proxy is
    answered with 204. *)
Theorem handlers_answer_refusals_with_500 w :
  (∀ now id, id ∈ ID <$> proxies (db w) →
     (∃ a, a ∈ accounts (db w) ∧ proxy_id a = Some id) →
     ProxyHandler.DeleteProxy now (Some id) w = (500, w))
  ∧ (∀ now id, id ∈ ID <$> proxies (db w) →
     (∀ a, a ∈ accounts (db w) → proxy_id a ≠ Some id) →
     (ProxyHandler.DeleteProxy now (Some id) w).1 = 204)
  ∧ (∀ now req, ReqProxyID req = None → candidates (ReqProxyType req) (db w) = [] →
     ProxyHandler.AssignProxy now (Some req) w = (500, w))
  ∧ ((∀ p, p ∈ proxies (db w) → Status p ≠ ProxyStatusActive) →
     ProxyHandler.GetProxyStats w = 500).
Proof.
  split; [|split; [|split]].
  - intros now id Hid Hused. unfold ProxyHandler.DeleteProxy.
    by rewrite (DeleteProxy_in_use now id w Hid Hused).
  - intros now id Hid Hfree. unfold ProxyHandler.DeleteProxy.
    by rewrite (DeleteProxy_unused now id w Hid Hfree).
  - intros now req Hreq Hnil. unfold ProxyHandler.AssignProxy, AssignProxy.
    rewrite Hreq.
    assert (∀ s, selectProxyByStrategy s (ReqProxyType req) w
                 = (Err ErrNoAvailableProxies, w)) as Hsel.
    { intros s. unfold selectProxyByStrategy, selectLeastUsedProxy, selectFastestProxy,
        selectBestProxy, selectRoundRobinProxy, GetAvailableProxies.
      rewrite Hnil. by repeat case_bool_decide. }
    by rewrite Hsel.
  - intros Hnone. unfold ProxyHandler.GetProxyStats, GetProxyStats.
    rewrite bool_decide_eq_true_2; [done|].
    induction (proxies (db w)) as [|p ps IH]; [done|].
    rewrite filter_cons_False.
    + apply IH. intros q Hq. apply Hnone. by apply list_elem_of_further.
    + apply Hnone. apply list_elem_of_here.
Qed.

(** ** Edges of the failure tracker *)

(** X21.  With MAX_PROXY_FAILURES set to 1, 0 or a negative number, one failed
    check of a proxy whose failure counter is absent or expired puts the
    proxy in quarantine: status error, one alert with count 1, no counter
    left, and the proxy out of the pool. *)
Theorem threshold_below_two_quarantines_on_first_failure env now res p w :
  GetEnvAsInt env "MAX_PROXY_FAILURES" 3 ≤ 1 →
  probe_err res ≠ None →
  redis_get now (ID p) (failures (rdb w)) = None →
  let w' := checkProxyHealth env now res p w in
  status_is (ID p) ProxyStatusError (db w')
  ∧ failures (rdb w') !! ID p = None
  ∧ alerts_logged (logs w') = (alerts_logged (logs w) ++ [(p, 1)])%list
  ∧ alerts (rdb w') !! (ID p, now)
    = Some (mkEntry (mkAlertData (ID p) (Name p) (Host p) (Port p) 1 now "proxy_failure")
                    (Some (now + 7 * 24 * hour)))
  ∧ ∀ t, ID p ∉ ID <$> GetAvailableProxies t (db w').
Proof.
  intros Hn Hfail Hctr w'.
  destruct (failed_probe_quarantine env now res p 0 w Hfail) as (H1 & H2 & H3 & H4).
  { by left. }
  { by unfold max_int64. }
  { lia. }
  fold w' in H1, H2, H3, H4.
  assert (status_is (ID p) ProxyStatusError (db w')) as Hst.
  { intros r Hr Hid. rewrite H4 in Hr.
    by apply (status_is_updated (ID p) ProxyStatusError now _ r Hr). }
  split; [done|]. split; [done|]. split; [done|]. split.
  - rewrite H2. by rewrite lookup_insert_eq.
  - intros t (q & Hq & Hqin)%list_elem_of_fmap.
    apply GetAvailableProxies_elem_of_iff in Hqin as (Hqin & Hact & _).
    rewrite (Hst q Hqin (eq_sym Hq)) in Hact. done.
Qed.

Lemma threshold_below_two_quarantines_on_first_failure_witness :
  let w' := checkProxyHealth zero_threshold_env 0 probe_fail
              (sample_proxy 1 ProxyStatusActive true 100) example_world in
  status_is 1 ProxyStatusError (db w')
  ∧ failures (rdb w') !! 1 = None
  ∧ alerts_logged (logs w') = [(sample_proxy 1 ProxyStatusActive true 100, 1)].
Proof.
  destruct (threshold_below_two_quarantines_on_first_failure zero_threshold_env 0 probe_fail
              (sample_proxy 1 ProxyStatusActive true 100) example_world)
    as (H1 & H2 & H3 & _).
  - by vm_compute.
  - done.
  - reflexivity.
  - split; [exact H1|]. split; [exact H2|exact H3].
Defined.

Lemma handleProxyFailure_health env now p w :
  health (rdb (handleProxyFailure env now p w)) = health (rdb w).
Proof.
  unfold handleProxyFailure. destruct (redis_incr _ _ _) as [[f m]|]; simpl; [|done].
  by destruct (f >=? _).
Qed.

Lemma handleProxySuccess_health now p w :
  health (rdb (handleProxySuccess now p w)) = health (rdb w).
Proof. unfold handleProxySuccess. by destruct (bool_decide _). Qed.

(** X22.  After a check, the hash [proxy_health:<id>] of the proxy holds the
    outcome of that check, whatever it held before, and is readable for 24
    hours from the check: a proxy that is no longer checked loses its
    health record a day after its last check.  The records of the other
    proxies are not touched. *)
Theorem health_record_lives_a_day_after_the_check env now res p w :
  let w' := checkProxyHealth env now res p w in
  let record :=
    mkHealthData (bool_decide (probe_err res = None)) (probe_ms res) now
      (default "" (probe_err res)) in
  (∀ t, redis_get t (ID p) (health (rdb w'))
        = if bool_decide (t < now + 24 * hour)
          then Some (mkEntry record (Some (now + 24 * hour))) else None)
  ∧ (∀ id, id ≠ ID p → health (rdb w') !! id = health (rdb w) !! id).
Proof.
  intros w' record.
  assert (health (rdb w')
          = <[ID p := mkEntry record (Some (now + 24 * hour))]> (health (rdb w))) as Hh.
  { subst w' record. unfold checkProxyHealth.
    destruct (probe_err res) as [err|]; simpl negb; cbv iota.
    - by rewrite handleProxyFailure_health, updateProxyHealthStatus_eq.
    - by rewrite handleProxySuccess_health, updateProxyHealthStatus_eq. }
  split.
  - intros t. unfold redis_get. rewrite Hh, lookup_insert_eq. unfold live. simpl.
    by case_bool_decide.
  - intros id Hid. rewrite Hh. by rewrite lookup_insert_ne.
Qed.

(** ** A new proxy and the strategies *)

Lemma usage_count_nonneg d p : 0 ≤ usage_count d p.
Proof. unfold usage_count. lia. Qed.

Lemma usage_count_unreferenced d p :
  refs_ok d → ID p ∉ ID <$> proxies d → usage_count d p = 0.
Proof.
  intros Hrefs Hid. unfold usage_count.
  destruct (filter _ (accounts d)) as [|a l] eqn:Hf; [done|]. exfalso.
  assert (a ∈ filter (λ a, proxy_id a = Some (ID p)) (accounts d)) as Ha.
  { rewrite Hf. apply list_elem_of_here. }
  apply list_elem_of_filter in Ha as [Hptr Ha]. apply Hid. by eapply Hrefs.
Qed.

(** X23.  A proxy that has just been created with a passing connection test has
    response time 0 and no account.  So, when every proxy that was in the
    pool has a positive response time, the new proxy is the one the
    fastest, the least-used and the automatic strategy select next (the key
    of the new row being new and no account pointing to a missing
    proxy). *)
Theorem new_proxy_is_selected_next now finished parse id res req t w :
  refs_ok (db w) → id ∉ ID <$> proxies (db w) →
  ValidateProxyURL parse (proxy_url req) = None →
  (∀ p, p ∈ proxies (db w) → ¬ (Host p = CrHost req ∧ Port p = CrPort req)) →
  probe_err res = None →
  type_matches t (inserted_row id now req) →
  (∀ q, q ∈ candidates t (db w) → 0 < ResponseTimeMs q) →
  let w' := (CreateProxy now finished parse (inl id) res req w).2 in
  selectFastestProxy t w' = Ok id
  ∧ selectLeastUsedProxy t w' = Ok id
  ∧ selectBestProxy t w' = Ok id.
Proof.
  intros Hrefs Hid Hv Hnew Hpass Hty Hpos w'. apply proxyExists_false in Hnew.
  assert (w' = with_db (with_proxies (λ rows, (rows ++ [inserted_row id now req])%list)) w)
    as Hw'.
  { subst w'. unfold CreateProxy. by rewrite Hv, Hnew, Hpass. }
  clearbody w'. subst w'.
  set (row := inserted_row id now req) in *.
  set (w' := with_db _ w).
  assert (candidates t (db w') = (candidates t (db w) ++ [row])%list) as Hcand.
  { unfold candidates. simpl. rewrite filter_app. f_equal.
    by rewrite filter_cons_True. }
  assert (usage_count (db w') row = 0) as Hrow0.
  { apply (usage_count_unreferenced (db w) row); done. }
  assert (∀ (R : relation Proxy) `{∀ x y, Decision (R x y)} `{!Transitive R} `{!Total R},
            (∀ x, x ∈ candidates t (db w) → R x row → False) →
            scan_id (order_by_limit1 R (candidates t (db w'))) = Ok id) as Hsel.
  { intros R ? ? ? Hlose.
    destruct (order_by_limit1_is_Some R (candidates t (db w'))) as [x Hx].
    { rewrite Hcand. by destruct (candidates t (db w)). }
    rewrite Hx. simpl. f_equal.
    apply order_by_limit1_Some in Hx as [Hin Hmin]; [|done..].
    rewrite Hcand in Hin, Hmin. apply elem_of_app in Hin as [Hin|Hin].
    - exfalso. apply (Hlose x Hin). apply Hmin. apply elem_of_app. right.
      apply list_elem_of_here.
    - by apply list_elem_of_singleton in Hin as ->. }
  assert (ResponseTimeMs row = 0) as Hms by done.
  split; [|split].
  - apply (Hsel response_time_le _ _ _). intros x Hx. unfold response_time_le.
    specialize (Hpos x Hx). rewrite Hms. lia.
  - apply (Hsel (least_used_le (db w')) _ _ _). intros x Hx. unfold least_used_le.
    specialize (Hpos x Hx). pose proof (usage_count_nonneg (db w') x).
    rewrite Hrow0, Hms. lia.
  - apply (Hsel (score_le (db w')) _ _ _). intros x Hx. unfold score_le, score.
    specialize (Hpos x Hx). pose proof (usage_count_nonneg (db w') x).
    rewrite Hrow0, Hms. lia.
Qed.

Lemma new_proxy_is_selected_next_witness :
  let w' := (CreateProxy 1000 1030 example_parse (inl 3) probe_ok
               example_create_request example_world).2 in
  selectFastestProxy None w' = Ok 3
  ∧ selectLeastUsedProxy None w' = Ok 3
  ∧ selectBestProxy None w' = Ok 3.
Proof.
  apply (new_proxy_is_selected_next 1000 1030 example_parse 3 probe_ok
           example_create_request None example_world).
  - intros a id Ha. by apply elem_of_nil in Ha.
  - eapply bool_decide_eq_true_1. reflexivity.
  - reflexivity.
  - intros p Hp [Hh _]. revert Hh. apply elem_of_cons in Hp as [->|Hp]; [done|].
    apply list_elem_of_singleton in Hp as ->. done.
  - reflexivity.
  - exact I.
  - intros q Hq. apply candidates_elem_of in Hq as [Hq _].
    apply elem_of_cons in Hq as [->|Hq]; [done|].
    apply list_elem_of_singleton in Hq as ->. done.
Defined.

(** ** The round-robin cursor *)

Lemma checkProxyHealth_round_robin env now res p w :
  round_robin (rdb (checkProxyHealth env now res p w)) = round_robin (rdb w).
Proof.
  unfold checkProxyHealth, handleProxyFailure, handleProxySuccess.
  destruct (probe_err res); simpl.
  - destruct (redis_incr _ _ _) as [[f m]|]; simpl; [|done].
    by destruct (f >=? _).
  - by destruct (bool_decide _).
Qed.

Lemma check_all_round_robin env now probe ps : ∀ w,
  round_robin (rdb (foldl (λ w p, checkProxyHealth env now (probe p) p w) w ps))
  = round_robin (rdb w).
Proof.
  induction ps as [|p ps IH]; intros w; [done|].
  simpl. rewrite IH. apply checkProxyHealth_round_robin.
Qed.

Lemma runHealthCheckCycle_round_robin env now probe w :
  round_robin (rdb (runHealthCheckCycle env now probe w)) = round_robin (rdb w).
Proof.
  unfold runHealthCheckCycle. destruct (bool_decide (length _ = _)); simpl; [done|].
  destruct (bool_decide (_ < 1)); simpl; [done|].
  by rewrite check_all_round_robin.
Qed.

Lemma GetAvailableProxies_length t d :
  (length (GetAvailableProxies t d) ≤ length (proxies d))%nat.
Proof.
  unfold GetAvailableProxies, candidates. rewrite merge_sort_Permutation.
  apply length_filter.
Qed.

(** A selection leaves the cursors in range and does not panic. *)
Lemma selectProxyByStrategy_cursors s t w :
  cursors_ok w → Z.of_nat (length (proxies (db w))) < max_int64 →
  cursors_ok (selectProxyByStrategy s t w).2
  ∧ ¬ is_panic (selectProxyByStrategy s t w).1.
Proof.
  intros Hok Hlen.
  assert (∀ row, ¬ is_panic (scan_id row)) as Hscan by (intros [p|]; simpl; tauto).
  unfold selectProxyByStrategy. repeat case_bool_decide; simpl; try (split; [done|apply Hscan]).
  pose proof (GetAvailableProxies_length t (db w)) as Hpool.
  unfold selectRoundRobinProxy.
  set (pool := GetAvailableProxies t (db w)) in *.
  set (c := default 0 (round_robin (rdb w) !! round_robin_key t)).
  assert (0 ≤ c < max_int64) as Hc.
  { subst c. destruct (round_robin (rdb w) !! round_robin_key t) as [c|] eqn:Hk; simpl.
    - by eapply Hok.
    - by unfold max_int64. }
  case_bool_decide as HN; [split; [done|intros []]|].
  assert (0 < Z.of_nat (length pool)) as Hpos by lia.
  pose proof (Z.rem_bound_pos c (Z.of_nat (length pool)) ltac:(lia) Hpos) as Hidx.
  rewrite bool_decide_eq_true_2 by lia.
  destruct (pool !! Z.to_nat (c `rem` Z.of_nat (length pool))) as [p|] eqn:Hp.
  - simpl. split; [|intros []]. intros key c' Hkey. simpl in Hkey.
    destruct (decide (key = round_robin_key t)) as [->|Hne].
    + rewrite lookup_insert_eq in Hkey. injection Hkey as <-.
      rewrite wrap64_small by (unfold max_int64, min_int64 in *; lia).
      pose proof (Z.rem_bound_pos (c + 1) (Z.of_nat (length pool)) ltac:(lia) Hpos).
      lia.
    + rewrite lookup_insert_ne in Hkey by done. by eapply Hok.
  - exfalso. apply lookup_ge_None in Hp. lia.
Qed.

Lemma GetProxy_no_panic id d : ¬ is_panic (GetProxy id d).
Proof. unfold GetProxy. destruct (head _); simpl; tauto. Qed.

Lemma AssignProxy_cursors now req w :
  cursors_ok w → Z.of_nat (length (proxies (db w))) < max_int64 →
  cursors_ok (AssignProxy now req w).2 ∧ ¬ is_panic (AssignProxy now req w).1.
Proof.
  intros Hok Hlen. unfold AssignProxy. destruct (ReqProxyID req) as [id|].
  - pose proof (GetProxy_no_panic id (db w)) as Hnp.
    destruct (GetProxy id (db w)) as [p|e|m]; simpl in *; tauto.
  - destruct (selectProxyByStrategy_cursors
                (if bool_decide (Strategy req = "") then "auto" else Strategy req)
                (ReqProxyType req) w Hok Hlen) as [Hok1 Hnp1].
    destruct (selectProxyByStrategy _ _ w) as [[id|e|m] w1]; simpl in *; [|tauto..].
    pose proof (GetProxy_no_panic id (db w1)) as Hnp.
    destruct (GetProxy id (db w1)) as [p|e|m]; simpl in *; tauto.
Qed.

Lemma run_call_cursors c w :
  cursors_ok w → Z.of_nat (length (proxies (db w))) < max_int64 →
  cursors_ok (run_call c w)
  ∧ (length (proxies (db (run_call c w))) ≤ S (length (proxies (db w))))%nat.
Proof.
  intros Hok Hlen.
  destruct c as [env now probe|now finished res id|now req|now acc|now id
                |now rejected id req|now finished parse inserted res req]; simpl.
  - split.
    + intros key c. rewrite runHealthCheckCycle_round_robin. apply Hok.
    + destruct (runHealthCheckCycle_stores env now probe w) as (Hids & _).
      apply (f_equal length) in Hids. rewrite !length_fmap in Hids. lia.
  - unfold TestProxy. destruct (GetProxy id (db w)) as [p0|e0|m0]; [|split; [done|simpl; lia]..].
    cbn [snd]. split; [done|]. unfold updateProxyHealth, sql_update. simpl.
    rewrite length_fmap. lia.
  - destruct (AssignProxy_cursors now req w Hok Hlen) as [Hok1 _].
    split; [done|]. destruct (AssignProxy_db now req w) as [-> _]. lia.
  - split; [done|]. lia.
  - unfold DeleteProxy. destruct (GetProxy id (db w)) as [p0|e0|m0]; [|split; [done|simpl; lia]..].
    destruct (isProxyInUse id (db w)); simpl; [split; [done|simpl; lia]|].
    split; [done|]. pose proof (length_filter (λ p, ID p ≠ id) (proxies (db w))). lia.
  - unfold UpdateProxy. destruct (GetProxy id (db w)) as [p0|e0|m0]; [|split; [done|simpl; lia]..].
    case_bool_decide; [split; [done|simpl; lia]|]. destruct rejected as [e1|]; [split; [done|simpl; lia]|].
    cbn [snd]. split; [done|]. unfold sql_update. simpl. rewrite length_fmap. lia.
  - unfold CreateProxy.
    destruct (ValidateProxyURL _ _) as [e0|]; [split; [done|simpl; lia]|].
    destruct (proxyExists _ _ _); [split; [done|simpl; lia]|].
    destruct inserted as [id|err]; [|split; [done|simpl; lia]].
    destruct (probe_err res) as [e1|]; simpl; (split; [done|]).
    + unfold sql_update. rewrite length_fmap, length_app. simpl. lia.
    + rewrite length_app. simpl. lia.
Qed.

(** X24.  The round-robin cursor is written by the round-robin selection only,
    which leaves it below the size of the pool.  So, from a state whose
    cursors are in range (none set, for one) and with a table that stays
    below the largest Go [int] in size, after any calls and sweeps the
    cursors are in range and an assignment does not panic, whatever the
    strategy and however the pool has shrunk meanwhile. *)
Theorem assignment_never_panics calls now req : ∀ w,
  cursors_ok w →
  Z.of_nat (length (proxies (db w)) + length calls) < max_int64 →
  let w' := run_calls calls w in
  cursors_ok w' ∧ ¬ is_panic (AssignProxy now req w').1.
Proof.
  induction calls as [|c calls IH]; intros w Hok Hlen w'; subst w'.
  - simpl in *. split; [done|]. apply AssignProxy_cursors; [done|]. lia.
  - change (run_calls (c :: calls) w) with (run_calls calls (run_call c w)).
    simpl length in Hlen.
    destruct (run_call_cursors c w Hok ltac:(lia)) as [Hok1 Hlen1].
    apply IH; [done|]. lia.
Qed.

Lemma assignment_never_panics_witness :
  let w' := run_calls example_calls explicit_example_world in
  cursors_ok w' ∧ ¬ is_panic (AssignProxy 2000 (round_robin_request 10) w').1.
Proof.
  apply (assignment_never_panics example_calls 2000 (round_robin_request 10)
           explicit_example_world).
  - intros key c Hkey. simpl in Hkey. by rewrite lookup_empty in Hkey.
  - by vm_compute.
Defined.
